(** * vim-ghosttext: the WebSocket frame codec, the handshake accept value,
      the per-connection server loop and the GhostNotify broadcast.

    Shallow embedding of [rplugin/python2/vim-ghosttext.py].  Python
    integers are [Z]; a [bytearray] is a [list byte]; a Python 2 [str] is a
    [string]; a raised exception is the [Raise] branch of [result]. *)

From Stdlib Require Import ZArith List String Ascii Lia Bool.
From Stdlib.Strings Require Import Byte.
From stdpp Require Import base list relations.
Import ListNotations.

Open Scope string_scope.
Open Scope list_scope.
Open Scope Z_scope.

(** ** Python values and exceptions *)

Inductive ExcArg : Type :=
| ArgInt (z : Z)
| ArgStr (s : string).

(** The exceptions the modelled code can raise.  [Exception_ a] is the
    generic [Exception(a)] of the source; [SocketError] is [socket.error];
    [OverflowError] is what [range] answers to a count that is too large. *)
Inductive PyExc : Type :=
| IndexError
| OverflowError
| TypeError
| ValueError
| KeyError
| AttributeError
| SocketError
| Exception_ (arg : ExcArg).

Inductive result (A : Type) : Type :=
| Ok (a : A)
| Raise (e : PyExc).
Arguments Ok {A} a.
Arguments Raise {A} e.

#[global] Instance result_ret : MRet result := fun A a => Ok a.
#[global] Instance result_bind : MBind result := fun A B k r =>
  match r with
  | Ok a => k a
  | Raise e => Raise e
  end.

Definition is_ok {A : Type} (r : result A) : bool :=
  match r with Ok _ => true | Raise _ => false end.

(** [for i in range(n): s = body(i, s)], the first exception ends the loop. *)
Fixpoint for_range_from {S : Type} (start n : nat)
    (body : nat -> S -> result S) (s : S) : result S :=
  match n with
  | O => Ok s
  | Datatypes.S n' => s' ← body start s; for_range_from (Datatypes.S start) n' body s'
  end.

Definition for_range {S : Type} (n : nat) (body : nat -> S -> result S) (s : S)
  : result S := for_range_from 0 n body s.

(** [for x in xs: out.append(f(x))], the first exception ends the loop. *)
Fixpoint for_each {A B : Type} (f : A -> result B) (xs : list A) : result (list B) :=
  match xs with
  | [] => Ok []
  | x :: xs' => y ← f x; ys ← for_each f xs'; Ok (y :: ys)
  end.

#[global] Instance byte_eq_decision : EqDecision byte := Byte.byte_eq_dec.

(** The integer read from a bytearray cell. *)
Definition byte_val (b : byte) : Z := Z.of_N (Byte.to_N b).

(** What a loop that reads one byte per pass leaves in its accumulator
    after the bytes [bs], the first of them at pass [s]. *)
Fixpoint read_fold {S : Type} (g : nat -> S -> Z -> S) (s : nat) (bs : list byte)
    (acc : S) : S :=
  match bs with
  | [] => acc
  | b :: bs' => read_fold g (Datatypes.S s) bs' (g s acc (byte_val b))
  end.

(** The byte that holds the eight low bits of [z]. *)
Definition byte_of_Z (z : Z) : byte :=
  match Byte.of_N (Z.to_N (Z.land z 0xff)) with
  | Some b => b
  | None => x00
  end.

(** The cell written by [bytearray.append(z)] or [bytearray.extend([z])]:
    Python raises [ValueError] unless [z] is in [range(256)]. *)
Definition bytearray_item (z : Z) : result byte :=
  if (0 <=? z) && (z <? 256) then
    match Byte.of_N (Z.to_N z) with
    | Some b => Ok b
    | None => Raise ValueError
    end
  else Raise ValueError.

(** [data[i]] for an index that is never negative in this program. *)
Definition getitem (data : list byte) (i : nat) : result Z :=
  match data !! i with
  | Some b => Ok (byte_val b)
  | None => Raise IndexError
  end.

(** [bool(z)] as the integer Python computes with ([True] is 1). *)
Definition py_bool (z : Z) : Z := if z =? 0 then 0 else 1.

(** Truth value of an integer in an [if]. *)
Definition truthy (z : Z) : bool := negb (z =? 0).

(** ** Frame *)

Module Frame.

Definition TEXT : Z := 1.
Definition CLOSE : Z := 8.

Record t : Type := mk {
  data : list byte;
  fin : Z;
  opcode : Z;
  payload : list byte;
  mask_key : option Z;
  mask : Z;
  payload_len : Z;
  closed : bool
}.

(** The body of the unmasking loop of [_parse] at index [i], once
    [incoming_octet = payload[i]] has been read: the mask octet is taken from
    [mask_key], which must be an integer, and the XOR is appended. *)
Definition unmask_octet (mask_key : option Z) (i : Z) (incoming_octet : Z)
  : result byte :=
  let j := i mod 4 in
  match mask_key with
  | None => Raise TypeError
  | Some k =>
      let mask_octet := Z.land (Z.shiftr k (j * 8)) 0xff in
      bytearray_item (Z.lxor incoming_octet mask_octet)
  end.

(** The passes of [for i in range(payload_len): ...
    unmasked.append(payload[i] ^ mask_octet)] from index [i] on, with
    [rest = payload[i:]], once [range] has built its list.  The recursion
    follows the payload: reading [payload[i]] past its end is the
    [IndexError] that ends the loop. *)
Fixpoint unmask_from (mask_key : option Z) (payload_len : Z) (i : Z)
    (rest : list byte) : result (list byte) :=
  if i <? payload_len then
    match rest with
    | [] => Raise IndexError
    | b :: rest' =>
        u ← unmask_octet mask_key i (byte_val b);
        us ← unmask_from mask_key payload_len (i + 1) rest';
        Ok (u :: us)
    end
  else Ok [].

(** [sys.maxint], the largest C [long]: [range] of Python 2 takes no larger
    count.  The value is that of the 64-bit platforms; [_parse] only ever
    asks for a count below 65536 or of at least [127 * 2 ^ 64] (lemma
    [parsed_len_small_or_huge]), so the 32-bit value [2 ^ 31 - 1] gives the
    same results, and no count comes near the memory of the machine. *)
Definition maxint : Z := 2 ^ 63 - 1.

(** [for i in range(payload_len): ...]: [range] builds the list of the
    indices before the first pass, and raises [OverflowError] when
    [payload_len] does not fit a C [long]; no byte has been read then. *)
Definition unmask (mask_key : option Z) (payload_len : Z) (payload : list byte)
  : result (list byte) :=
  if maxint <? payload_len then Raise OverflowError
  else unmask_from mask_key payload_len 0 payload.

(** The extended payload length of [_parse]: [payload_len] holds the seven
    length bits of byte 1 on entry; the result is the new [payload_len] and
    [next_byte].  Only the 126 branch resets [payload_len] before its loop. *)
Definition parse_length (data : list byte) (payload_len : Z) (next_byte : nat)
  : result (Z * nat) :=
  if payload_len =? 126 then
    pl ← for_range 2 (fun i pl =>
            d ← getitem data (i + next_byte);
            Ok (Z.lor (Z.shiftl pl 8) d)) 0;
    Ok (pl, (next_byte + 1 + 1)%nat)
  else if payload_len =? 127 then
    pl ← for_range 8 (fun i pl =>
            d ← getitem data (i + next_byte);
            Ok (Z.lor (Z.shiftl pl 8) d)) payload_len;
    Ok (pl, (next_byte + 7 + 1)%nat)
  else Ok (payload_len, next_byte).

(** The mask key of [_parse]: read when [mask] is set, otherwise the value
    the constructor was given stays. *)
Definition parse_mask_key (data : list byte) (mask : Z) (mask_key : option Z)
    (next_byte : nat) : result (option Z * nat) :=
  if truthy mask then
    mk ← for_range 4 (fun i mk =>
            d ← getitem data (i + next_byte);
            Ok (Z.lor mk (Z.shiftl d (8 * Z.of_nat i)))) 0;
    Ok (Some mk, (next_byte + 3 + 1)%nat)
  else Ok (mask_key, next_byte).

Definition _parse (self : t) (data : list byte) : result t :=
  d0 ← getitem data 0;
  let fin := py_bool (Z.land d0 0x80) in
  let opcode := Z.land d0 0x0f in
  d1 ← getitem data 1;
  let mask := py_bool (Z.land d1 0x80) in
  let payload_len := Z.land d1 0x7f in
  let next_byte := 2%nat in
  '(payload_len, next_byte) ← parse_length data payload_len next_byte;
  '(mask_key, next_byte) ← parse_mask_key data mask (mask_key self) next_byte;
  let payload := drop next_byte data in
  if opcode =? TEXT then
    unmasked ← unmask mask_key payload_len payload;
    Ok {| data := data; fin := fin; opcode := opcode; payload := unmasked;
          mask_key := mask_key; mask := mask; payload_len := payload_len;
          closed := closed self |}
  else if opcode =? CLOSE then
    Ok {| data := data; fin := fin; opcode := opcode; payload := payload;
          mask_key := mask_key; mask := mask; payload_len := payload_len;
          closed := true |}
  else Raise (Exception_ (ArgInt opcode)).

(** The extended length, most significant byte first:
    [for i in reversed(range(n)): data.append((payload_len >> (i * 8)) & 0xff)]. *)
Definition length_bytes (n : nat) (payload_len : Z) : result (list byte) :=
  for_each (fun i : nat =>
              bytearray_item (Z.land (Z.shiftr payload_len (Z.of_nat i * 8)) 0xff))
           (rev (seq 0 n)).

(** The header of [_set_data]: everything it appends before the mask test. *)
Definition set_header (self : t) : result (list byte) :=
  b0 ← bytearray_item (Z.lor (Z.shiftl (Z.land (fin self) 0x1) 7)
                              (Z.land (opcode self) 0xf));
  let data := [b0] in
  if 126 <=? payload_len self then
    if payload_len self <? Z.shiftl 1 16 then
      b1 ← bytearray_item (Z.lor (Z.shiftl (Z.land (mask self) 0x1) 7) 0x7e);
      ext ← length_bytes 2 (payload_len self);
      Ok (data ++ [b1] ++ ext)
    else
      b1 ← bytearray_item (Z.lor (Z.shiftl (Z.land (mask self) 0x1) 7) 0x7f);
      ext ← length_bytes 8 (payload_len self);
      Ok (data ++ [b1] ++ ext)
  else
    b1 ← bytearray_item (Z.lor (Z.shiftl (Z.land (mask self) 0x1) 7)
                                (Z.land (payload_len self) 0x7f));
    Ok (data ++ [b1]).

Definition _set_data (self : t) : result t :=
  data ← set_header self;
  if truthy (mask self) then
    match mask_key self with
    | None => Raise (Exception_ (ArgStr "Missing mask key"))
    | Some _ => Raise (Exception_ (ArgStr "TODO"))
    end
  else
    Ok {| data := data ++ payload self; fin := fin self; opcode := opcode self;
          payload := payload self; mask_key := mask_key self; mask := mask self;
          payload_len := payload_len self; closed := closed self |}.

(** [Frame(data, fin, opcode, payload, mask, mask_key)]: [data = None] builds
    a frame for output, otherwise [data] is parsed. *)
Definition __init__ (data : option (list byte)) (fin opcode : Z)
    (payload : option (list byte)) (mask : Z) (mask_key : option Z) : result t :=
  let payload := match payload with Some p => p | None => [] end in
  let self := {| data := []; fin := fin; opcode := opcode; payload := payload;
                 mask_key := mask_key; mask := mask;
                 payload_len := Z.of_nat (length payload); closed := false |} in
  match data with
  | Some d => _parse self d
  | None => _set_data self
  end.

(** [Frame(data=d)], every other argument at its default. *)
Definition decode (d : list byte) : result t :=
  __init__ (Some d) 1 TEXT None 0 (Some 0).

(** [Frame(fin=.., opcode=.., mask=.., payload=..)] built for output. *)
Definition encode (fin opcode mask : Z) (payload : list byte) : result t :=
  __init__ None fin opcode (Some payload) mask (Some 0).

End Frame.

(** ** The standard-library functions behind [_get_accept]

    [hashlib.sha1] (FIPS 180-4) and [base64.b64encode] (RFC 4648) are not
    part of the repository; they are written out here so that
    [_get_accept] can be run. *)

Module hashlib.

Definition mask32 : Z := 0xffffffff.

Definition add32 (x y : Z) : Z := Z.land (x + y) mask32.

Definition rotl32 (n x : Z) : Z :=
  Z.land (Z.lor (Z.shiftl x n) (Z.shiftr x (32 - n))) mask32.

Definition not32 (x : Z) : Z := Z.lxor x mask32.

(** Big-endian value of a group of bytes. *)
Definition be_word (bs : list byte) : Z :=
  fold_left (fun acc b => Z.lor (Z.shiftl acc 8) (byte_val b)) bs 0.

(** The [n] low bytes of [z], most significant first. *)
Definition be_bytes (n : nat) (z : Z) : list Z :=
  map (fun i : nat => Z.land (Z.shiftr z (Z.of_nat i * 8)) 0xff) (rev (seq 0 n)).

(** Message padding: a one bit, zeros up to 56 modulo 64, the bit length. *)
Definition pad (msg : list byte) : list byte :=
  let n := length msg in
  let zeros := ((55 + 64 - n mod 64) mod 64)%nat in
  msg ++ [x80] ++ repeat x00 zeros
      ++ map byte_of_Z (be_bytes 8 (Z.of_nat n * 8)).

(** Cut a list into groups of [k] elements; [fuel] bounds the number of groups. *)
Fixpoint chunks {A : Type} (fuel k : nat) (l : list A) : list (list A) :=
  match fuel with
  | O => []
  | Datatypes.S fuel' =>
      match l with
      | [] => []
      | _ => take k l :: chunks fuel' k (drop k l)
      end
  end.

(** The message schedule, newest word first: [ws] holds W(t-1), W(t-2), ... *)
Fixpoint schedule (n : nat) (ws : list Z) : list Z :=
  match n with
  | O => ws
  | Datatypes.S n' =>
      let w := rotl32 1 (Z.lxor (Z.lxor (nth 2 ws 0) (nth 7 ws 0))
                                (Z.lxor (nth 13 ws 0) (nth 15 ws 0))) in
      schedule n' (w :: ws)
  end.

Definition f_t (t : nat) (b c d : Z) : Z :=
  if (t <? 20)%nat then Z.lor (Z.land b c) (Z.land (not32 b) d)
  else if (t <? 40)%nat then Z.lxor (Z.lxor b c) d
  else if (t <? 60)%nat then
    Z.lor (Z.lor (Z.land b c) (Z.land b d)) (Z.land c d)
  else Z.lxor (Z.lxor b c) d.

Definition k_t (t : nat) : Z :=
  if (t <? 20)%nat then 0x5a827999
  else if (t <? 40)%nat then 0x6ed9eba1
  else if (t <? 60)%nat then 0x8f1bbcdc
  else 0xca62c1d6.

Definition state : Type := (Z * Z * Z * Z * Z)%type.

Fixpoint rounds (t : nat) (ws : list Z) (s : state) : state :=
  match ws with
  | [] => s
  | w :: ws' =>
      let '(a, b, c, d, e) := s in
      let tmp := add32 (add32 (add32 (add32 (rotl32 5 a) (f_t t b c d)) e) (k_t t)) w in
      rounds (Datatypes.S t) ws' (tmp, a, rotl32 30 b, c, d)
  end.

Definition compress (h : state) (block : list byte) : state :=
  let w16 := map be_word (chunks 16 4 block) in
  let ws := rev (schedule 64 (rev w16)) in
  let '(h0, h1, h2, h3, h4) := h in
  let '(a, b, c, d, e) := rounds 0 ws h in
  (add32 h0 a, add32 h1 b, add32 h2 c, add32 h3 d, add32 h4 e).

Definition init : state :=
  (0x67452301, 0xefcdab89, 0x98badcfe, 0x10325476, 0xc3d2e1f0).

(** [hashlib.sha1(msg).digest()]: twenty bytes. *)
Definition sha1 (msg : list byte) : list byte :=
  let padded := pad msg in
  let blocks := chunks (length padded) 64 padded in
  let '(h0, h1, h2, h3, h4) := fold_left compress blocks init in
  map byte_of_Z (flat_map (be_bytes 4) [h0; h1; h2; h3; h4]).

End hashlib.

Module base64.

Definition alphabet : string :=
  "ABCDEFGHIJKLMNOPQRSTUVWXYZabcdefghijklmnopqrstuvwxyz0123456789+/".

Definition digit (z : Z) : ascii :=
  match String.get (Z.to_nat (Z.land z 0x3f)) alphabet with
  | Some c => c
  | None => "="%char
  end.

(** Three bytes give four digits; one or two trailing bytes are padded
    with [=]. *)
Fixpoint b64encode (bs : list byte) : string :=
  match bs with
  | [] => EmptyString
  | [a] =>
      let n := Z.shiftl (byte_val a) 16 in
      String (digit (Z.shiftr n 18)) (String (digit (Z.shiftr n 12))
        (String "="%char (String "="%char EmptyString)))
  | [a; b] =>
      let n := Z.lor (Z.shiftl (byte_val a) 16) (Z.shiftl (byte_val b) 8) in
      String (digit (Z.shiftr n 18)) (String (digit (Z.shiftr n 12))
        (String (digit (Z.shiftr n 6)) (String "="%char EmptyString)))
  | a :: b :: c :: rest =>
      let n := Z.lor (Z.lor (Z.shiftl (byte_val a) 16) (Z.shiftl (byte_val b) 8))
                     (byte_val c) in
      String (digit (Z.shiftr n 18)) (String (digit (Z.shiftr n 12))
        (String (digit (Z.shiftr n 6)) (String (digit n) (b64encode rest))))
  end.

End base64.

(** ** WebSocketServer._get_accept *)

Definition GUID : string := "258EAFA5-E914-47DA-95CA-C5AB0DC85B11".

Definition _get_accept (string : String.string) : String.string :=
  let sha := hashlib.sha1 (list_byte_of_string (String.append string GUID)) in
  let accept := base64.b64encode sha in
  accept.

(** ** Text helpers and JSON values *)

Definition newline : string := String "010"%char EmptyString.
Definition dquote : string := String "034"%char EmptyString.
Definition crlf : string := String "013"%char (String "010"%char EmptyString).

(** [sep.join(lines)] *)
Fixpoint join (sep : string) (lines : list string) : string :=
  match lines with
  | [] => EmptyString
  | [x] => x
  | x :: rest => String.append x (String.append sep (join sep rest))
  end.

(** [s.split(c)] for a one-character separator. *)
Fixpoint split (c : ascii) (s : string) : list string :=
  match s with
  | EmptyString => [EmptyString]
  | String a s' =>
      if Ascii.eqb a c then EmptyString :: split c s'
      else match split c s' with
           | [] => [String a EmptyString]
           | x :: xs => String a x :: xs
           end
  end.

(** [len(text)] of a Python 2 [str]. *)
Definition len (text : string) : Z := Z.of_nat (String.length text).

(** The values [json.loads] returns and [json.dumps] takes; a dict keeps the
    order in which its literal lists the keys. *)
#[local] Set Warnings "-register-all".
Inductive JSON : Type :=
| JNull
| JBool (b : bool)
| JInt (z : Z)
| JStr (s : string)
| JList (l : list JSON)
| JDict (d : list (string * JSON)).

(** [d[key]] on a dict written as a list of pairs. *)
Fixpoint dict_get (key : string) (d : list (string * JSON)) : option JSON :=
  match d with
  | [] => None
  | (k, v) :: d' => if String.eqb k key then Some v else dict_get key d'
  end.

(** The library calls of the connection loop that the repository does not
    define: [bytes.decode('utf-8')], [json.loads] and [json.dumps], where
    [None] stands for the [ValueError] each of them raises on bad input, and
    the search of the [Sec-WebSocket-Key] header line by the regular
    expression of [_handshake], which yields its first group. *)
Class PyLib : Type := {
  utf8_decode : list byte -> option string;
  json_loads : string -> option JSON;
  json_dumps : JSON -> option string;
  search_key : string -> option string
}.

Definition or_raise {A : Type} (e : PyExc) (o : option A) : result A :=
  match o with
  | Some a => Ok a
  | None => Raise e
  end.

(** ** The editor ([vim]) *)

Record Vim : Type := mkVim {
  buffer : list string;
  commands : list string
}.

Definition ECHO_CLOSED : string :=
  String.append "echo "
    (String.append dquote
      (String.append
        "GhostText closed the connection, try re-loading the webpage if this was unexpected"
        dquote)).
Definition ECHO_RECEIVED : string :=
  String.append "echo "
    (String.append dquote (String.append "Connection received from GhostText" dquote)).
Definition ECHO_STOPPING : string :=
  String.append "echo " (String.append dquote (String.append "Stopping server" dquote)).
Definition ECHO_NOT_RUNNING : string :=
  String.append "echo " (String.append dquote (String.append "Server is not running" dquote)).
Definition AUTOCMD_OFF : string := "autocmd! TextChanged,TextChangedI * python GhostNotify()".
Definition AUTOCMD_ON : string := "autocmd TextChanged,TextChangedI * python GhostNotify()".
Definition AUTOCMD_LEAVE_OFF : string := "autocmd! VimLeave * GhostStop".

(** ** The accepted connection, as its peer sees it *)

Inductive RecvCall : Type :=
| RecvBlocking
| RecvTimeout (seconds : Z)
| RecvNonBlocking.

(** What one call of [_recv] returned: [None], a message, or [socket.error]. *)
Inductive RecvResult : Type :=
| RecvNone
| RecvData (d : list byte)
| RecvRaise.

Record Conn : Type := mkConn {
  sent : list (list byte);
  conn_closed : bool;
  recv_calls : list RecvCall
}.

(** ** WebSocketServer *)

Inductive Phase : Type :=
| Accepting
| Looping
| Finished
| Died (e : PyExc)
| Hung.

(** One worker: the attributes of [WebSocketServer] ([_conn] is [true] while
    [self._conn is not None]; [peer] is the connection object it refers to,
    which outlives the reference), the local [loop] counter of
    [serve_forever] and where its thread stands. *)
Record WebSocketServer : Type := mkWS {
  port : Z;
  valid : bool;
  _conn : bool;
  peer : Conn;
  loop : Z;
  phase : Phase
}.

(** What the thread of one worker can reach: itself, its two events, the
    editor and the lock that guards it. *)
Record St : Type := mkSt {
  self : WebSocketServer;
  _to_thread : bool;
  _from_thread : bool;
  vim : Vim;
  _vim_lock : bool
}.

Inductive Exit : Type :=
| Break
| Raised (e : PyExc)
| Blocked.

Inductive Outcome (A : Type) : Type :=
| Next (a : A) (s : St)
| Stop (x : Exit) (s : St).
Arguments Next {A} a s.
Arguments Stop {A} x s.

(** Statements of a worker thread: they thread the state, and a [break], an
    exception or a lock that is never released ends the loop body. *)
Definition M (A : Type) : Type := St -> Outcome A.

#[global] Instance M_ret : MRet M := fun A a s => Next a s.
#[global] Instance M_bind : MBind M := fun A B k m s =>
  match m s with
  | Next a s' => k a s'
  | Stop x s' => Stop x s'
  end.

Definition get : M St := fun s => Next s s.
Definition put (s : St) : M unit := fun _ => Next tt s.
Definition break_ {A : Type} : M A := fun s => Stop Break s.
Definition raise_ {A : Type} (e : PyExc) : M A := fun s => Stop (Raised e) s.
Definition lift {A : Type} (r : result A) : M A :=
  match r with
  | Ok a => mret a
  | Raise e => raise_ e
  end.

Definition set_self (w : WebSocketServer) (s : St) : St :=
  mkSt w (_to_thread s) (_from_thread s) (vim s) (_vim_lock s).
Definition set_to_thread (b : bool) (s : St) : St :=
  mkSt (self s) b (_from_thread s) (vim s) (_vim_lock s).
Definition set_from_thread (b : bool) (s : St) : St :=
  mkSt (self s) (_to_thread s) b (vim s) (_vim_lock s).
Definition set_vim (v : Vim) (s : St) : St :=
  mkSt (self s) (_to_thread s) (_from_thread s) v (_vim_lock s).
Definition set_lock (b : bool) (s : St) : St :=
  mkSt (self s) (_to_thread s) (_from_thread s) (vim s) b.

Definition set_valid (b : bool) (w : WebSocketServer) : WebSocketServer :=
  mkWS (port w) b (_conn w) (peer w) (loop w) (phase w).
Definition set_conn (b : bool) (w : WebSocketServer) : WebSocketServer :=
  mkWS (port w) (valid w) b (peer w) (loop w) (phase w).
Definition set_peer (c : Conn) (w : WebSocketServer) : WebSocketServer :=
  mkWS (port w) (valid w) (_conn w) c (loop w) (phase w).
Definition set_loop (n : Z) (w : WebSocketServer) : WebSocketServer :=
  mkWS (port w) (valid w) (_conn w) (peer w) n (phase w).
Definition set_phase (p : Phase) (w : WebSocketServer) : WebSocketServer :=
  mkWS (port w) (valid w) (_conn w) (peer w) (loop w) p.

Definition modify (f : St -> St) : M unit := fun s => Next tt (f s).

(** [self._vim_lock.acquire()]: a thread that finds the lock taken waits for
    a release; between two loop bodies the lock is only ever held by a
    thread that has died holding it, so the wait does not end. *)
Definition acquire : M unit := fun s =>
  if _vim_lock s then Stop Blocked s else Next tt (set_lock true s).
Definition release : M unit := modify (set_lock false).

(** [vim.command(cmd)] *)
Definition vim_command (cmd : string) : M unit :=
  modify (fun s => set_vim (mkVim (buffer (vim s)) (commands (vim s) ++ [cmd])) s).

(** [self._conn.sendall(bytes)]; [None] has no [sendall].  The write itself
    is taken to succeed: a peer that has gone away is not modelled. *)
Definition sendall (bytes : list byte) : M unit := fun s =>
  let w := self s in
  if _conn w then
    Next tt (set_self (set_peer (mkConn (sent (peer w) ++ [bytes])
                                        (conn_closed (peer w))
                                        (recv_calls (peer w))) w) s)
  else Stop (Raised AttributeError) s.

(** [self._conn.close()] followed by [self._conn = None]. *)
Definition conn_close : M unit := fun s =>
  let w := self s in
  if _conn w then
    Next tt (set_self (set_conn false
               (set_peer (mkConn (sent (peer w)) true (recv_calls (peer w))) w)) s)
  else Stop (Raised AttributeError) s.

(** [self._recv(...)]: the call is noted on the connection and [r] is what
    the socket yields. *)
Definition _recv (call : RecvCall) (r : RecvResult) : M (option (list byte)) := fun s =>
  let w := self s in
  if _conn w then
    let s' := set_self (set_peer (mkConn (sent (peer w)) (conn_closed (peer w))
                                         (recv_calls (peer w) ++ [call])) w) s in
    match r with
    | RecvNone => Next None s'
    | RecvData d => Next (Some d) s'
    | RecvRaise => Stop (Raised SocketError) s'
    end
  else Stop (Raised AttributeError) s.

Section Server.
Context `{lib : PyLib}.

(** [str(frame)]: the payload is decoded as UTF-8 and the mask key is
    formatted as an integer. *)
Definition Frame__str__ (f : Frame.t) : result unit :=
  _ ← or_raise ValueError (utf8_decode (Frame.payload f));
  match Frame.mask_key f with
  | None => Raise TypeError
  | Some _ => Ok tt
  end.

Definition _send_text (text : string) : M unit :=
  let data := JDict [
    ("text", JStr text);
    ("selections", JList [JDict [("start", JInt (len text)); ("end", JInt (len text))]]);
    ("title", JStr "ghosttext-vim");
    ("url", JStr EmptyString);
    ("syntax", JStr EmptyString)
  ] in
  dumped ← lift (or_raise ValueError (json_dumps data));
  frame ← lift (Frame.__init__ None 1 Frame.TEXT
                  (Some (list_byte_of_string dumped)) 0 (Some 0));
  _ ← lift (Frame__str__ frame);
  sendall (Frame.data frame).

Definition _update_from_vim : M unit :=
  acquire;;
  s ← get;
  let lines := buffer (vim s) in
  release;;
  let text := join newline lines in
  _send_text text.

Definition _update_to_vim (string : String.string) : M unit :=
  request ← lift (or_raise ValueError (json_loads string));
  acquire;;
  vim_command AUTOCMD_OFF;;
  text ← lift (match request with
               | JDict d => or_raise KeyError (dict_get "text" d)
               | _ => Raise TypeError
               end);
  lines ← lift (match text with
                | JStr t => Ok (split "010"%char t)
                | _ => Raise AttributeError
                end);
  modify (fun s => set_vim (mkVim lines (commands (vim s))) s);;
  vim_command "checktime";;
  vim_command AUTOCMD_ON;;
  release.

(** One pass of [while not self._done.is_set(): ...] in [serve_forever];
    [done_is_set] is the flag as the loop test reads it and [r] what the
    socket yields to the receive of this pass. *)
Definition loop_body (done_is_set : bool) (r : RecvResult) : M unit :=
  if done_is_set then break_ else
  s ← get;
  let loop := loop (self s) + 1 in
  modify (fun s => set_self (set_loop loop (self s)) s);;
  recv ← (if loop =? 1 then
            recv ← _recv (RecvTimeout 3) r;
            match recv with
            | None => break_
            | Some d =>
                modify (fun s => set_self (set_valid true (self s)) s);;
                mret (Some d)
            end
          else _recv RecvNonBlocking r);
  match recv with
  | Some d =>
      frame ← lift (Frame.__init__ (Some d) 1 Frame.TEXT None 0 (Some 0));
      _ ← lift (Frame__str__ frame);
      if Frame.closed frame then
        acquire;;
        vim_command ECHO_CLOSED;;
        release;;
        conn_close;;
        break_
      else
        text ← lift (or_raise ValueError (utf8_decode (Frame.payload frame)));
        _update_to_vim text
  | None => mret tt
  end;;
  s ← get;
  (if _to_thread s then
     modify (set_to_thread false);;
     _update_from_vim;;
     modify (set_from_thread true)
   else mret tt);;
  s ← get;
  if negb (valid (self s)) then break_ else mret tt.

(** The statements after the loop. *)
Definition serve_exit : M unit :=
  s ← get;
  if _conn (self s) then
    frame ← lift (Frame.__init__ None 1 Frame.CLOSE None 0 (Some 0));
    sendall (Frame.data frame);;
    conn_close
  else mret tt.

Definition end_thread (x : Exit) (s : St) : St :=
  match x with
  | Break => set_self (set_phase Finished (self s)) s
  | Raised e => set_self (set_phase (Died e) (self s)) s
  | Blocked => set_self (set_phase Hung (self s)) s
  end.

(** One loop pass of a worker, and the exit statements when it leaves the loop. *)
Definition serve_iteration (done_is_set : bool) (r : RecvResult) (s : St) : St :=
  match loop_body done_is_set r s with
  | Next _ s' => s'
  | Stop Break s' =>
      match serve_exit s' with
      | Next _ s'' => end_thread Break s''
      | Stop x s'' => end_thread x s''
      end
  | Stop x s' => end_thread x s'
  end.

(** [_handshake]: one blocking receive, the key header, the fixed reply.
    A message without the header meets a bare [raise], which Python 2
    reports as a [TypeError]. *)
Definition _handshake (r : RecvResult) : M unit :=
  recv ← _recv RecvBlocking r;
  msg ← lift (or_raise TypeError recv);
  key ← lift (or_raise TypeError (search_key (string_of_list_byte msg)));
  let accept := _get_accept key in
  let send :=
    String.append "HTTP/1.1 101 Switching Protocols"
      (String.append crlf
        (String.append "Upgrade: websocket"
          (String.append crlf
            (String.append "Connection: Upgrade"
              (String.append crlf
                (String.append "Sec-WebSocket-Accept: "
                  (String.append accept (String.append crlf crlf)))))))) in
  sendall (list_byte_of_string send).

(** The start of [serve_forever]: the connection is accepted, the handshake
    is made and the loop counter is set. *)
Definition serve_start (r : RecvResult) (s : St) : St :=
  let w := self s in
  let s := set_self (set_conn true (set_peer (mkConn [] false []) w)) s in
  match _handshake r s with
  | Next _ s' => set_self (set_phase Looping (set_loop 0 (self s'))) s'
  | Stop x s' => end_thread x s'
  end.

End Server.

(** ** The registry of the HTTP server and the steps of the whole plugin *)

(** One element of [HTTPSERVER.websocks]. *)
Record Entry : Type := mkEntry {
  sock : WebSocketServer;
  to_thread : bool;
  from_thread : bool
}.

(** Where a call of [GhostNotify] stands: not running, in its first loop at
    index [k] of [websocks], or in its second loop over [wait].  The [wait]
    list holds the indices of the registry elements it refers to. *)
Inductive Notifier : Type :=
| Idle
| Signalling (k : nat) (found : Z) (wait : list nat)
| Waiting (wait : list nat) (found : Z).

Record World : Type := mkWorld {
  w_vim : Vim;
  vim_lock : bool;
  done : bool;
  websocks : list Entry;
  notifier : Notifier;
  running : bool
}.

Definition view (W : World) (e : Entry) : St :=
  mkSt (sock e) (to_thread e) (from_thread e) (w_vim W) (vim_lock W).

Definition commit (i : nat) (W : World) (s : St) : World :=
  mkWorld (vim s) (_vim_lock s) (done W)
          (<[i := mkEntry (self s) (_to_thread s) (_from_thread s)]> (websocks W))
          (notifier W) (running W).

(** The thread of worker [i] runs its next piece: the start of
    [serve_forever] or one pass of its loop.  A thread that has ended, died
    or hangs runs nothing. *)
Definition worker_step `{lib : PyLib} (i : nat) (r : RecvResult) (W : World) : World :=
  match websocks W !! i with
  | Some e =>
      match phase (sock e) with
      | Accepting => commit i W (serve_start r (view W e))
      | Looping => commit i W (serve_iteration (done W) r (view W e))
      | _ => W
      end
  | None => W
  end.

(** [WebRequestHandler.do_GET] with the port [random.randint] drew: the
    logged request echoes a message under the lock, a worker is made and
    its thread started, and the registry grows by one element. *)
Definition do_GET (p : Z) (W : World) : World :=
  let v := mkVim (buffer (w_vim W)) (commands (w_vim W) ++ [ECHO_RECEIVED]) in
  let ws := mkWS p false false (mkConn [] false []) 0 Accepting in
  mkWorld v (vim_lock W) (done W) (websocks W ++ [mkEntry ws false false])
          (notifier W) (running W).

(** [GhostNotify] is entered. *)
Definition GhostNotify_enter (W : World) : World :=
  if running W then
    mkWorld (w_vim W) (vim_lock W) (done W) (websocks W) (Signalling 0 0 []) (running W)
  else
    mkWorld (mkVim (buffer (w_vim W)) (commands (w_vim W) ++ [ECHO_NOT_RUNNING]))
            (vim_lock W) (done W) (websocks W) (notifier W) (running W).

(** One pass of [for ws in HTTPSERVER.websocks: ...], or the end of that loop. *)
Definition GhostNotify_visit (k : nat) (found : Z) (wait : list nat) (W : World) : World :=
  match websocks W !! k with
  | Some ws =>
      if valid (sock ws) then
        let found := found + 1 in
        if truthy found then
          mkWorld (w_vim W) (vim_lock W) (done W)
                  (<[k := mkEntry (sock ws) true (from_thread ws)]> (websocks W))
                  (Signalling (S k) found (wait ++ [k])) (running W)
        else
          mkWorld (w_vim W) (vim_lock W) (done W) (websocks W)
                  (Signalling (S k) found wait) (running W)
      else
        mkWorld (w_vim W) (vim_lock W) (done W) (websocks W)
                (Signalling (S k) found wait) (running W)
  | None =>
      mkWorld (w_vim W) (vim_lock W) (done W) (websocks W) (Waiting wait found) (running W)
  end.

(** One pass of [for ws in wait: ...], where [from_thread.wait()] needs the
    event set before [from_thread.clear()] runs, or the end of the call. *)
Definition GhostNotify_wait (wait : list nat) (found : Z) (W : World) : option World :=
  match wait with
  | k :: rest =>
      match websocks W !! k with
      | Some ws =>
          if from_thread ws then
            Some (mkWorld (w_vim W) (vim_lock W) (done W)
                    (<[k := mkEntry (sock ws) (to_thread ws) false]> (websocks W))
                    (Waiting rest found) (running W))
          else None
      | None => None
      end
  | [] => Some (mkWorld (w_vim W) (vim_lock W) (done W) (websocks W) Idle (running W))
  end.

(** [GhostStop] on a running server. *)
Definition GhostStop (W : World) : World :=
  let v := mkVim (buffer (w_vim W))
                 (commands (w_vim W) ++ [ECHO_STOPPING; AUTOCMD_LEAVE_OFF]) in
  mkWorld v (vim_lock W) true (websocks W) (notifier W) false.

(** The server right after [GhostStart]. *)
Definition GhostStart (v : Vim) : World :=
  let v' := mkVim (buffer v)
              (commands v ++ [String.append "echo " (String.append dquote
                                 (String.append "Starting server" dquote));
                              "autocmd VimLeave * GhostStop"; AUTOCMD_ON]) in
  mkWorld v' false false [] Idle true.

(** The interleavings of the worker threads, the HTTP thread and the editor
    thread, which calls [GhostNotify] and [GhostStop] one at a time. *)
Inductive step `{lib : PyLib} : World -> World -> Prop :=
| step_worker (i : nat) (r : RecvResult) (W : World) :
    step W (worker_step i r W)
| step_do_GET (p : Z) (W : World) :
    running W = true -> vim_lock W = false -> 60000 <= p <= 65535 ->
    step W (do_GET p W)
| step_notify_enter (W : World) :
    notifier W = Idle -> step W (GhostNotify_enter W)
| step_notify_visit (k : nat) (found : Z) (wait : list nat) (W : World) :
    notifier W = Signalling k found wait ->
    step W (GhostNotify_visit k found wait W)
| step_notify_wait (wait : list nat) (found : Z) (W W' : World) :
    notifier W = Waiting wait found ->
    GhostNotify_wait wait found W = Some W' ->
    step W W'
| step_stop (W : World) :
    notifier W = Idle -> running W = true -> vim_lock W = false ->
    step W (GhostStop W).

(** The indices the running [GhostNotify] has signalled and still waits for. *)
Definition wait_set (n : Notifier) : list nat :=
  match n with
  | Idle => []
  | Signalling _ _ wait => wait
  | Waiting wait _ => wait
  end.

(** ** An instance of the library calls, to run the model on

    The ASCII fragment: [utf8_decode] accepts the byte strings below 128,
    which UTF-8 decodes to themselves; [json_dumps] prints the values whose
    strings are ASCII, with the separators of [json.dumps];
    [search_key] reads a key that stands on the line of its header name;
    [json_loads] reads the objects that hold one plain [text]. *)

Module AsciiLib.

Definition is_ascii (b : byte) : bool := byte_val b <? 128.

Definition utf8_decode (bs : list byte) : option string :=
  if forallb is_ascii bs then Some (string_of_list_byte bs) else None.

Definition plain_char (c : ascii) : bool :=
  let n := Z.of_nat (nat_of_ascii c) in
  (32 <=? n) && (n <? 127) && negb (n =? 34) && negb (n =? 92).

Fixpoint plain (s : string) : bool :=
  match s with
  | EmptyString => true
  | String c s' => plain_char c && plain s'
  end.

Definition digit_char (d : Z) : ascii := ascii_of_nat (48 + Z.to_nat d).

Fixpoint decimal_pos (fuel : nat) (z : Z) (acc : string) : string :=
  match fuel with
  | O => acc
  | S fuel' =>
      let acc' := String (digit_char (z mod 10)) acc in
      if z / 10 =? 0 then acc' else decimal_pos fuel' (z / 10) acc'
  end.

Definition decimal (z : Z) : string :=
  if z <? 0 then String "-"%char (decimal_pos (Z.to_nat (Z.log2 (- z)) + 1) (- z) EmptyString)
  else decimal_pos (Z.to_nat (Z.log2 z) + 1) z EmptyString.

(** A newline, a double quote and a backslash are written with a
    backslash; other characters that are not plain are refused. *)
Fixpoint escape (s : string) : option string :=
  match s with
  | EmptyString => Some EmptyString
  | String c s' =>
      match escape s' with
      | None => None
      | Some t =>
          let n := nat_of_ascii c in
          if (n =? 34)%nat then Some (String "\"%char (String "034"%char t))
          else if (n =? 92)%nat then Some (String "\"%char (String "\"%char t))
          else if (n =? 10)%nat then Some (String "\"%char (String "n"%char t))
          else if plain_char c then Some (String c t)
          else None
      end
  end.

Definition quoted (s : string) : option string :=
  match escape s with
  | Some t => Some (String.append dquote (String.append t dquote))
  | None => None
  end.

Fixpoint sequence (l : list (option string)) : option (list string) :=
  match l with
  | [] => Some []
  | Some x :: l' => match sequence l' with Some xs => Some (x :: xs) | None => None end
  | None :: _ => None
  end.

Fixpoint json_dumps (j : JSON) : option string :=
  match j with
  | JNull => Some "null"
  | JBool true => Some "true"
  | JBool false => Some "false"
  | JInt z => Some (decimal z)
  | JStr s => quoted s
  | JList l =>
      match sequence (map json_dumps l) with
      | Some xs => Some (String.append "[" (String.append (join ", " xs) "]"))
      | None => None
      end
  | JDict d =>
      match sequence (map (fun kv : string * JSON =>
                             match quoted (fst kv), json_dumps (snd kv) with
                             | Some k, Some v => Some (String.append k (String.append ": " v))
                             | _, _ => None
                             end) d) with
      | Some xs => Some (String.append "{" (String.append (join ", " xs) "}"))
      | None => None
      end
  end.

Definition is_space (c : ascii) : bool :=
  let n := nat_of_ascii c in
  ((n =? 32) || ((9 <=? n) && (n <=? 13)))%nat.

Fixpoint skip_spaces (s : string) : string :=
  match s with
  | String c s' => if is_space c then skip_spaces s' else s
  | EmptyString => EmptyString
  end.

Fixpoint token (s : string) : string * string :=
  match s with
  | String c s' =>
      if is_space c then (EmptyString, s)
      else let '(t, rest) := token s' in (String c t, rest)
  | EmptyString => (EmptyString, EmptyString)
  end.

Definition key_of_line (line : string) : option string :=
  let name := "Sec-WebSocket-Key:" in
  if String.prefix name line then
    let after := String.substring (String.length name)
                   (String.length line - String.length name) line in
    match after with
    | String c _ =>
        if is_space c then
          let '(t, rest) := token (skip_spaces after) in
          match t, skip_spaces rest with
          | String _ _, EmptyString => Some t
          | _, _ => None
          end
        else None
    | EmptyString => None
    end
  else None.

Fixpoint first_some {A B : Type} (f : A -> option B) (l : list A) : option B :=
  match l with
  | [] => None
  | x :: l' => match f x with Some y => Some y | None => first_some f l' end
  end.

Definition search_key (msg : string) : option string :=
  first_some key_of_line (split "010"%char msg).

(** Drop [p] from the front of [s], when it is there. *)
Fixpoint strip_prefix (p s : string) : option string :=
  match p, s with
  | EmptyString, _ => Some s
  | String a p', String b s' => if Ascii.eqb a b then strip_prefix p' s' else None
  | String _ _, EmptyString => None
  end.

(** Cut [s] at its first double quote. *)
Fixpoint until_quote (s : string) : option (string * string) :=
  match s with
  | EmptyString => None
  | String c s' =>
      if Ascii.eqb c "034"%char then Some (EmptyString, s')
      else match until_quote s' with
           | Some (t, rest) => Some (String c t, rest)
           | None => None
           end
  end.

(** Reads an object with the one member [text], a plain string. *)
Definition json_loads (s : string) : option JSON :=
  let opening :=
    String.append "{" (String.append dquote (String.append "text"
      (String.append dquote (String.append ": " dquote)))) in
  match strip_prefix opening s with
  | Some body =>
      match until_quote body with
      | Some (t, "}") => if plain t then Some (JDict [("text", JStr t)]) else None
      | _ => None
      end
  | None => None
  end.

#[global] Instance lib : PyLib :=
  Build_PyLib utf8_decode json_loads json_dumps search_key.

End AsciiLib.

(** ** The wire layout of a frame, in the words of the protocol

    A frame is [b0 :: b1 :: ext ++ key ++ wire]: two header bytes, the
    extended length, the mask key and the payload as sent. *)

Definition opcode_of (b0 : byte) : Z := Z.land (byte_val b0) 0x0f.
Definition fin_of (b0 : byte) : Z := py_bool (Z.land (byte_val b0) 0x80).
Definition mask_of (b1 : byte) : Z := py_bool (Z.land (byte_val b1) 0x80).
Definition len7 (b1 : byte) : Z := Z.land (byte_val b1) 0x7f.

Definition ext_size (b1 : byte) : nat :=
  if len7 b1 =? 126 then 2%nat else if len7 b1 =? 127 then 8%nat else 0%nat.

Definition key_size (b1 : byte) : nat :=
  if truthy (mask_of b1) then 4%nat else 0%nat.

(** Unsigned big-endian value of a byte string. *)
Definition be_value (bs : list byte) : Z :=
  fold_left (fun acc b => acc * 256 + byte_val b) bs 0.

(** The integer [_parse] keeps as [mask_key]: wire byte [i] of the key at
    bits [8 i]. *)
Definition le_value (bs : list byte) : Z :=
  fold_right (fun b acc => byte_val b + 256 * acc) 0 bs.

(** The payload length a frame declares. *)
Definition declared_len (b1 : byte) (ext : list byte) : Z :=
  if len7 b1 <? 126 then len7 b1 else be_value ext.

(** The value [_parse] leaves in [payload_len]. *)
Definition parsed_len (b1 : byte) (ext : list byte) : Z :=
  if len7 b1 =? 127 then 127 * 2 ^ 64 + be_value ext else declared_len b1 ext.

(** Mask-key byte [i mod 4], zero for a frame without a key. *)
Definition key_octet (key : list byte) (i : nat) : Z :=
  match key !! (i mod 4)%nat with
  | Some k => byte_val k
  | None => 0
  end.

(** Every payload byte at index [i], counted from [start], XORed with
    mask-key byte [i mod 4]. *)
Fixpoint xor_mask_from (key : list byte) (start : nat) (p : list byte) : list byte :=
  match p with
  | [] => []
  | b :: p' =>
      byte_of_Z (Z.lxor (byte_val b) (key_octet key start))
        :: xor_mask_from key (S start) p'
  end.

Definition xor_mask (key p : list byte) : list byte := xor_mask_from key 0 p.

(** The bytes of [Frame(opcode=Frame.CLOSE).data]. *)
Definition CLOSE_FRAME : list byte := [x88; x00].

(** How many CLOSE frames a connection has been sent. *)
Definition close_frames_sent (c : Conn) : nat :=
  length (filter (fun m => m = CLOSE_FRAME) (sent c)).

(** The object [_send_text] serialises for the text [t]. *)
Definition outbound (t : string) : JSON :=
  JDict [
    ("text", JStr t);
    ("selections", JList [JDict [("start", JInt (len t)); ("end", JInt (len t))]]);
    ("title", JStr "ghosttext-vim");
    ("url", JStr EmptyString);
    ("syntax", JStr EmptyString)
  ].

(** The header [_set_data] writes before a payload of [n] bytes. *)
Definition header (fin opcode mask : Z) (n : Z) : list Z :=
  let b0 := Z.lor (Z.shiftl (Z.land fin 1) 7) (Z.land opcode 0xf) in
  let m := Z.shiftl (Z.land mask 1) 7 in
  if n <? 126 then [b0; Z.lor m (Z.land n 0x7f)]
  else if n <? 65536 then b0 :: Z.lor m 126 :: hashlib.be_bytes 2 n
  else b0 :: Z.lor m 127 :: hashlib.be_bytes 8 n.

(** The frame [_parse] builds from a frame laid out on the wire. *)
Definition parsed_frame (b0 b1 : byte) (ext key wire payload : list byte)
    (closed : bool) : Frame.t :=
  {| Frame.data := b0 :: b1 :: ext ++ key ++ wire;
     Frame.fin := fin_of b0;
     Frame.opcode := opcode_of b0;
     Frame.payload := payload;
     Frame.mask_key := Some (le_value key);
     Frame.mask := mask_of b1;
     Frame.payload_len := parsed_len b1 ext;
     Frame.closed := closed |}.
(** Whether a byte string holds the two header bytes and the extended
    length and mask key they declare. *)
Definition header_whole (data : list byte) : bool :=
  match data with
  | _ :: b1 :: rest => (ext_size b1 + key_size b1 <=? length rest)%nat
  | _ => false
  end.

(** A TEXT frame of 65536 payload bytes, unmasked, in the 64-bit length form. *)
Definition big_payload : list byte := repeat x41 (Z.to_nat 65536).
Definition big_frame : list byte :=
  [x81; x7f; x00; x00; x00; x00; x00; x01; x00; x00] ++ big_payload.

(** ** Relations kept by every statement of a worker thread *)

(** [m] relates the state it starts in to the state it leaves, however it
    ends. *)
Definition preserves (R : St -> St -> Prop) {A : Type} (m : M A) : Prop :=
  forall s : St,
    match m s with
    | Next _ s' => R s s'
    | Stop _ s' => R s s'
    end.

(** What a worker thread never undoes: [valid] stays set once set, and the
    thread only ever clears its [_to_thread] event. *)
Definition worker_order (s s' : St) : Prop :=
  (valid (self s) = true -> valid (self s') = true) /\
  (_to_thread s' = true -> _to_thread s = true).

(** ** A session to run the model on *)

Definition example_vim : Vim := mkVim ["init"] [].

Definition example_request : string :=
  String.append "GET / HTTP/1.1"
    (String.append crlf
      (String.append "Sec-WebSocket-Key: dGhlIHNhbXBsZSBub25jZQ=="
        (String.append crlf crlf))).

(** The editor has started the server, GhostText has asked for a port and
    has made the handshake on it. *)
Definition world_connected : World :=
  worker_step (lib := AsciiLib.lib) 0
    (RecvData (list_byte_of_string example_request))
    (do_GET 60001 (GhostStart example_vim)).

(** An inbound TEXT frame that carries a text for the editor. *)
Definition example_text_frame : list byte :=
  [x81; x0e] ++ list_byte_of_string
    (String.append "{" (String.append dquote (String.append "text"
      (String.append dquote (String.append ": " (String.append dquote
        (String.append "hi" (String.append dquote "}")))))))).

(** The same session after GhostText has sent its first text. *)
Definition world_active : World :=
  worker_step (lib := AsciiLib.lib) 0 (RecvData example_text_frame) world_connected.

(** No worker that is not [valid] has its [to_thread] event set, and every
    worker [GhostNotify] has signalled and waits for is [valid]. *)
Definition unsignalled (W : World) : Prop :=
  (forall (j : nat) (e : Entry),
     websocks W !! j = Some e -> valid (sock e) = false -> to_thread e = false) /\
  (forall j : nat,
     j ∈ wait_set (notifier W) ->
     exists e : Entry, websocks W !! j = Some e /\ valid (sock e) = true).

(** Worker [i] has left its loop without ever becoming [valid]. *)
Definition retired (i : nat) (W : World) : Prop :=
  exists e : Entry,
    websocks W !! i = Some e /\ valid (sock e) = false /\
    phase (sock e) = Finished.

(** A worker in its loop with a text waiting in the editor. *)
Definition example_pusher : St :=
  mkSt (mkWS 60001 true true (mkConn [] false [RecvBlocking; RecvTimeout 3]) 1 Looping)
       true false (mkVim ["hello"; "world"] []) false.


(** ** Further definitions: texts, sockets, the lock and the notifier *)

(** Whether a line holds the newline character. *)
Fixpoint has_newline (s : string) : bool :=
  match s with
  | EmptyString => false
  | String a s' => Ascii.eqb a "010"%char || has_newline s'
  end.

(** A property [P] of the thread state that a statement keeps when it runs
    on, with [E] holding of the state in which it stops. *)
Definition keeps (P : St -> Prop) (E : Exit -> St -> Prop) {A : Type} (m : M A) : Prop :=
  forall s : St,
    P s ->
    match m s with
    | Next _ s' => P s'
    | Stop x s' => E x s'
    end.

(** The worker holds its connection, the socket is open and has been sent
    no CLOSE frame. *)
Definition ws_open (w : WebSocketServer) : Prop :=
  _conn w = true /\ conn_closed (peer w) = false /\ close_frames_sent (peer w) = 0%nat.

(** The worker has closed its socket and dropped the reference, without
    sending a CLOSE frame. *)
Definition ws_shut (w : WebSocketServer) : Prop :=
  _conn w = false /\ conn_closed (peer w) = true /\ close_frames_sent (peer w) = 0%nat.


(** How the exits of a loop pass leave the connection. *)
Definition conn_exit (x : Exit) (s : St) : Prop :=
  match x with
  | Break => ws_open (self s) \/ ws_shut (self s)
  | _ => ws_open (self s)
  end.


(** The editor lock is taken and the buffer holds the lines [b]. *)
Definition lock_held (b : list string) (s : St) : Prop :=
  _vim_lock s = true /\ buffer (vim s) = b.

(** The editor thread runs the next piece of [GhostNotify]: one pass of its
    first loop, the end of that loop, one pass of its second loop when the
    event it waits for is set, or the end of the call. *)
Definition GhostNotify_step (W : World) : World :=
  match notifier W with
  | Idle => W
  | Signalling k found wait => GhostNotify_visit k found wait W
  | Waiting wait found =>
      match GhostNotify_wait wait found W with
      | Some W' => W'
      | None => W
      end
  end.

(** The registry after the first loop of [GhostNotify]: every [valid]
    worker has its [to_thread] event set. *)
Definition signalled (l : list Entry) : list Entry :=
  map (fun e => if valid (sock e) then mkEntry (sock e) true (from_thread e) else e) l.

(** The indices of the [valid] workers, counted from [k]. *)
Fixpoint valid_indices (k : nat) (l : list Entry) : list nat :=
  match l with
  | [] => []
  | e :: l' => if valid (sock e) then k :: valid_indices (S k) l'
               else valid_indices (S k) l'
  end.

(** A worker whose thread stands in phase [p], with its socket open. *)
Definition in_phase (p : Phase) (s : St) : Prop :=
  phase (self s) = p /\ ws_open (self s).

(** Whether the thread of a worker has stopped running. *)
Definition ended (p : Phase) : bool :=
  match p with
  | Accepting | Looping => false
  | Finished | Died _ | Hung => true
  end.

(** The running [GhostNotify] has signalled worker [i], or will when its
    first loop comes to it. *)
Definition waits_for (i : nat) (n : Notifier) : Prop :=
  match n with
  | Idle => False
  | Signalling k found wait => 0 <= found /\ ((i < k)%nat -> i ∈ wait)
  | Waiting wait _ => i ∈ wait
  end.

(** [GhostNotify] runs while the thread of the [valid] worker [i] has
    stopped with its [from_thread] event clear. *)
Definition stuck_on (i : nat) (W : World) : Prop :=
  waits_for i (notifier W) /\
  exists e : Entry,
    websocks W !! i = Some e /\ valid (sock e) = true /\
    ended (phase (sock e)) = true /\ from_thread e = false.

(** The example session after GhostText has closed the connection with the
    CLOSE frame [88 00]. *)
Definition world_closed : World :=
  worker_step (lib := AsciiLib.lib) 0 (RecvData [x88; x00]) world_active.


(** The ASCII instance of the library calls, with a [json.loads] that also
    reads the empty object and the empty array. *)
Module ObjectLib.

Definition json_loads (s : string) : option JSON :=
  if String.eqb s "{}" then Some (JDict [])
  else if String.eqb s "[]" then Some (JList [])
  else AsciiLib.json_loads s.

Definition lib : PyLib :=
  Build_PyLib AsciiLib.utf8_decode json_loads AsciiLib.json_dumps AsciiLib.search_key.

End ObjectLib.

(** An inbound TEXT frame whose payload is the empty object. *)
Definition empty_object_frame : list byte := [x81; x02; x7b; x7d].

(** The example session after GhostText has sent the empty object. *)
Definition world_leaked : World :=
  worker_step (lib := ObjectLib.lib) 0 (RecvData empty_object_frame) world_connected.


(** The example session while the editor, after a change of the buffer,
    stands in the second loop of [GhostNotify]. *)
Definition world_notifying : World :=
  GhostNotify_visit 1 1 [0%nat]
    (GhostNotify_visit 0 0 [] (GhostNotify_enter world_closed)).

(** The reply of the handshake, line by line. *)
Definition handshake_reply (accept : string) : string :=
  join crlf ["HTTP/1.1 101 Switching Protocols";
             "Upgrade: websocket";
             "Connection: Upgrade";
             String.append "Sec-WebSocket-Accept: " accept;
             EmptyString; EmptyString].

(** ** The receive functions, read by read

    [WebSocketServer._recv] and [_recv_timeout] over what the socket
    yields: each call of [self._conn.recv(buf_len)] takes the next element
    of [reads], and a socket with nothing left has nothing more to give (a
    non-blocking read then fails with [EAGAIN], a blocking one never
    returns).  The clock of [_recv_timeout] is the number [ticks] of passes
    its deadline test lets through: the test compares a time that only
    grows, so it fails for the first passes and holds from then on. *)
Module Socket.

(** One call of [self._conn.recv(buf_len)]: the bytes it returns, a
    [socket.error] with [errno] 11 or 10035, or another [socket.error]. *)
Inductive Read : Type :=
| Chunk (bs : list byte)
| WouldBlock
| Fails.

(** How a receive function ends: it returns [msg], a [socket.error] leaves
    it, or it waits in a blocking read for ever. *)
Inductive Result : Type :=
| Returned (msg : option (list byte))
| Raises
| Hangs.

Definition nonempty (o : option (list byte)) : bool :=
  match o with
  | Some (_ :: _) => true
  | _ => false
  end.

(** The loop of [_recv_timeout], from the local variables [msg] and [prev]. *)
Fixpoint recv_timeout_loop (ticks : nat) (msg prev : option (list byte))
    (reads : list Read) : Result * list Read :=
  match ticks with
  | O => (Returned None, reads)
  | S ticks' =>
      match reads with
      | Fails :: reads' => (Raises, reads')
      | Chunk (b :: bs) :: reads' =>
          let ret := b :: bs in
          let msg' := match msg with
                      | None => ret
                      | Some m => m ++ ret
                      end in
          recv_timeout_loop ticks' (Some msg') (Some ret) reads'
      | _ =>
          if nonempty prev then (Returned msg, tail reads)
          else recv_timeout_loop ticks' msg prev (tail reads)
      end
  end.

Definition _recv_timeout (ticks : nat) (reads : list Read) : Result * list Read :=
  recv_timeout_loop ticks None None reads.

(** One read of [_recv]: [string] after the branch on [timeout] and
    [block], or the way the branch leaves the loop. *)
Definition recv_read (timeout : option nat) (block : bool) (msg : option (list byte))
    (reads : list Read) : (Result + list byte) * list Read :=
  match timeout with
  | Some ticks =>
      match _recv_timeout ticks reads with
      | (Returned None, reads') => (inl (Returned msg), reads')
      | (Returned (Some string), reads') => (inr string, reads')
      | (end_, reads') => (inl end_, reads')
      end
  | None =>
      if negb block then
        match reads with
        | Fails :: reads' => (inl Raises, reads')
        | Chunk (b :: bs) :: reads' => (inr (b :: bs), reads')
        | _ => (inl (Returned None), tail reads)
        end
      else
        match reads with
        | [] => (inl Hangs, [])
        | Chunk bs :: reads' => (inr bs, reads')
        | _ :: reads' => (inl Raises, reads')
        end
  end.

(** The loop of [_recv], from the local variable [msg]; [None] when the
    passes allowed by [fuel] do not reach the end of the loop. *)
Fixpoint recv_loop (fuel : nat) (buf_len : nat) (timeout : option nat) (block : bool)
    (msg : option (list byte)) (reads : list Read) : option (Result * list Read) :=
  match fuel with
  | O => None
  | S fuel' =>
      match recv_read timeout block msg reads with
      | (inl end_, reads') => Some (end_, reads')
      | (inr string, reads') =>
          let msg' := match msg with
                      | None => string
                      | Some m => m ++ string
                      end in
          if (length string <? buf_len)%nat then Some (Returned (Some msg'), reads')
          else recv_loop fuel' buf_len timeout block (Some msg') reads'
      end
  end.

(** [_recv(buf_len, timeout, block=block)]; every pass that goes round
    again has taken a read, so one pass more than there are reads is
    enough. *)
Definition _recv (buf_len : nat) (timeout : option nat) (block : bool)
    (reads : list Read) : option (Result * list Read) :=
  recv_loop (S (length reads)) buf_len timeout block None reads.

(** A read that brings nothing: no bytes, or [EAGAIN]. *)
Definition quiet (r : Read) : bool :=
  match r with
  | Chunk [] | WouldBlock => true
  | _ => false
  end.

(** Whether the socket brings nothing at its next read. *)
Definition idle (reads : list Read) : bool :=
  match reads with
  | [] => true
  | r :: _ => quiet r
  end.

(** What the loop of [serve_forever] is handed by a receive that ends so. *)
Definition recv_result (r : Result) : option RecvResult :=
  match r with
  | Returned None => Some RecvNone
  | Returned (Some d) => Some (RecvData d)
  | Raises => Some RecvRaise
  | Hangs => None
  end.

End Socket.

(** The bytes [_recv] has gathered in its local variable [msg]. *)
Definition gathered (msg : option (list byte)) : list byte :=
  match msg with
  | None => []
  | Some m => m
  end.
(** * Proofs *)

(** ** Bytes and bits *)

Lemma byte_val_range (b : byte) : 0 <= byte_val b < 256.
Proof.
  unfold byte_val. pose proof (Byte.to_N_bounded b). lia.
Qed.

Lemma bytearray_item_byte_val (b : byte) : bytearray_item (byte_val b) = Ok b.
Proof.
  unfold bytearray_item. pose proof (byte_val_range b) as Hb.
  replace ((0 <=? byte_val b) && (byte_val b <? 256)) with true
    by (symmetry; apply andb_true_iff; split; [apply Z.leb_le | apply Z.ltb_lt]; lia).
  unfold byte_val. rewrite N2Z.id, Byte.of_to_N. reflexivity.
Qed.

Lemma byte_of_val (z : Z) :
  0 <= z < 256 -> exists b, byte_val b = z /\ Byte.of_N (Z.to_N z) = Some b.
Proof.
  intros Hz. destruct (Byte.of_N (Z.to_N z)) as [b|] eqn:E.
  - exists b. split; [|reflexivity]. apply Byte.to_of_N in E.
    unfold byte_val. lia.
  - apply Byte.of_N_None_iff in E. lia.
Qed.

Lemma bytearray_item_ok (z : Z) :
  0 <= z < 256 -> exists b, bytearray_item z = Ok b /\ byte_val b = z.
Proof.
  intros Hz. destruct (byte_of_val z Hz) as (b & Hb & E).
  exists b. split; [|exact Hb]. rewrite <- Hb. apply bytearray_item_byte_val.
Qed.

Lemma land_255 (z : Z) : Z.land z 0xff = z mod 256.
Proof. apply (Z.land_ones z 8). lia. Qed.

Lemma land_127 (z : Z) : Z.land z 0x7f = z mod 128.
Proof. apply (Z.land_ones z 7). lia. Qed.

Lemma land_15 (z : Z) : Z.land z 0xf = z mod 16.
Proof. apply (Z.land_ones z 4). lia. Qed.

Lemma land_1 (z : Z) : Z.land z 0x1 = z mod 2.
Proof. apply (Z.land_ones z 1). lia. Qed.

Lemma byte_of_Z_val (z : Z) : 0 <= z < 256 -> byte_val (byte_of_Z z) = z.
Proof.
  intros Hz. unfold byte_of_Z. rewrite land_255, Z.mod_small by lia.
  destruct (byte_of_val z Hz) as (b & Hb & ->). exact Hb.
Qed.

Lemma byte_of_Z_byte_val (b : byte) : byte_of_Z (byte_val b) = b.
Proof.
  pose proof (byte_val_range b) as Hb. unfold byte_of_Z.
  rewrite land_255, Z.mod_small by lia.
  unfold byte_val. rewrite N2Z.id, Byte.of_to_N. reflexivity.
Qed.

Lemma byte_val_inj (a b : byte) : byte_val a = byte_val b -> a = b.
Proof.
  intros E. rewrite <- (byte_of_Z_byte_val a), <- (byte_of_Z_byte_val b), E.
  reflexivity.
Qed.

(** Below [2 ^ n] no bit at or above [n] is set. *)
Lemma testbit_above (a n m : Z) : 0 <= a < 2 ^ n -> 0 <= n <= m -> Z.testbit a m = false.
Proof.
  intros Ha Hn. rewrite <- (Z.mod_small a (2 ^ n)) by lia.
  apply Z.mod_pow2_bits_high. lia.
Qed.

(** The bits of [a] lie below those of [d] shifted by [n]: or is plus. *)
Lemma lor_shiftl_add (a d n : Z) :
  0 <= n -> 0 <= a < 2 ^ n -> Z.lor a (Z.shiftl d n) = a + d * 2 ^ n.
Proof.
  intros Hn Ha.
  assert (Hdisj : Z.land a (Z.shiftl d n) = 0).
  { apply Z.bits_inj'. intros m Hm. rewrite Z.land_spec, Z.bits_0.
    destruct (Z.lt_ge_cases m n) as [Hlt | Hge].
    - rewrite (Z.shiftl_spec_low d n m) by lia. apply andb_false_r.
    - rewrite (testbit_above a n m) by lia. reflexivity. }
  rewrite <- Z.lxor_lor by exact Hdisj.
  rewrite <- Z.add_nocarry_lxor by exact Hdisj.
  rewrite Z.shiftl_mul_pow2 by lia. reflexivity.
Qed.

Lemma lxor_byte_range (a b : Z) :
  0 <= a < 256 -> 0 <= b < 256 -> 0 <= Z.lxor a b < 256.
Proof.
  intros Ha Hb.
  assert (Hnn : 0 <= Z.lxor a b) by (apply Z.lxor_nonneg; lia).
  split; [exact Hnn|].
  assert (E : Z.lxor a b = Z.lxor a b mod 2 ^ 8).
  { apply Z.bits_inj'. intros m Hm.
    destruct (Z.lt_ge_cases m 8) as [Hlt | Hge].
    - rewrite Z.mod_pow2_bits_low by lia. reflexivity.
    - rewrite Z.mod_pow2_bits_high by lia. rewrite Z.lxor_spec.
      rewrite (testbit_above a 8 m), (testbit_above b 8 m) by lia. reflexivity. }
  rewrite E. apply Z.mod_pos_bound. lia.
Qed.

Lemma lxor_0_byte (b : byte) : byte_of_Z (Z.lxor (byte_val b) 0) = b.
Proof. rewrite Z.lxor_0_r. apply byte_of_Z_byte_val. Qed.

(** ** The loops of [Frame._parse] *)

Lemma result_bind_ok {A B : Type} (a : A) (k : A -> result B) : (Ok a ≫= k) = k a.
Proof. reflexivity. Qed.

Lemma getitem_lookup (data : list byte) (i : nat) (b : byte) :
  data !! i = Some b -> getitem data i = Ok (byte_val b).
Proof. intros E. unfold getitem. rewrite E. reflexivity. Qed.

Lemma getitem_short (data : list byte) (i : nat) :
  (length data <= i)%nat -> getitem data i = Raise IndexError.
Proof.
  intros Hi. unfold getitem. rewrite (lookup_ge_None_2 data i Hi). reflexivity.
Qed.

Section ReadLoop.
Context {S : Type} (g : nat -> S -> Z -> S) (data : list byte) (next : nat).

(** A loop that reads [data[i + next]] for [i] in [range(n)] raises
    [IndexError] when the data ends before index [next + n]. *)
Lemma read_loop_short (n : nat) :
  forall (s : nat) (acc : S),
    (s + next <= length data)%nat ->
    (length data < s + next + n)%nat ->
    for_range_from s n (fun i a => d ← getitem data (i + next); Ok (g i a d)) acc
    = Raise IndexError.
Proof.
  induction n as [|n IH]; intros s acc Hlo Hhi; [lia|].
  cbn [for_range_from].
  destruct (data !! (s + next)%nat) as [b|] eqn:E.
  - rewrite (getitem_lookup _ _ _ E), result_bind_ok.
    apply lookup_lt_Some in E. apply IH; lia.
  - unfold getitem. rewrite E. reflexivity.
Qed.

Lemma read_loop_ok (n : nat) :
  forall (s : nat) (acc : S),
    (s + next + n <= length data)%nat ->
    for_range_from s n (fun i a => d ← getitem data (i + next); Ok (g i a d)) acc
    = Ok (read_fold g s (take n (drop (s + next) data)) acc).
Proof.
  induction n as [|n IH]; intros s acc Hlen; [reflexivity|].
  cbn [for_range_from].
  destruct (data !! (s + next)%nat) as [b|] eqn:E.
  - rewrite (getitem_lookup _ _ _ E), result_bind_ok.
    rewrite (drop_S data b (s + next) E). cbn [take read_fold].
    apply (IH (Datatypes.S s)). lia.
  - apply lookup_ge_None_1 in E. lia.
Qed.

End ReadLoop.

Lemma be_fold_value (bs : list byte) :
  forall (s : nat) (acc : Z), 0 <= acc ->
    read_fold (fun _ pl d => Z.lor (Z.shiftl pl 8) d) s bs acc
    = fold_left (fun a b => a * 256 + byte_val b) bs acc.
Proof.
  induction bs as [|b bs IH]; intros s acc Hacc; [reflexivity|].
  pose proof (byte_val_range b) as Hb.
  cbn [read_fold fold_left].
  rewrite Z.lor_comm, (lor_shiftl_add (byte_val b) acc 8) by lia.
  rewrite IH by lia. f_equal. lia.
Qed.

Lemma fold_be_acc (bs : list byte) :
  forall acc : Z,
    fold_left (fun a b => a * 256 + byte_val b) bs acc
    = acc * 256 ^ Z.of_nat (length bs) + be_value bs.
Proof.
  unfold be_value.
  induction bs as [|b bs IH]; intros acc.
  - simpl. lia.
  - cbn [fold_left length]. rewrite IH, (IH (0 * 256 + byte_val b)).
    rewrite Nat2Z.inj_succ, Z.pow_succ_r by lia. lia.
Qed.

Lemma be_value_nonneg (bs : list byte) : 0 <= be_value bs.
Proof.
  unfold be_value.
  assert (H : forall acc, 0 <= acc ->
            0 <= fold_left (fun a b => a * 256 + byte_val b) bs acc).
  { induction bs as [|b bs IH]; intros acc Hacc; [exact Hacc|].
    cbn [fold_left]. apply IH. pose proof (byte_val_range b). lia. }
  apply H. lia.
Qed.

Lemma le_value_range (bs : list byte) : 0 <= le_value bs < 256 ^ Z.of_nat (length bs).
Proof.
  induction bs as [|b bs IH].
  - simpl. lia.
  - cbn [le_value fold_right length]. fold (le_value bs).
    pose proof (byte_val_range b).
    rewrite Nat2Z.inj_succ, Z.pow_succ_r by lia. lia.
Qed.

Lemma le_fold_value (bs : list byte) :
  forall (s : nat) (acc : Z), 0 <= acc < 256 ^ Z.of_nat s ->
    read_fold (fun i mk d => Z.lor mk (Z.shiftl d (8 * Z.of_nat i))) s bs acc
    = acc + 256 ^ Z.of_nat s * le_value bs.
Proof.
  induction bs as [|b bs IH]; intros s acc Hacc.
  - simpl. lia.
  - pose proof (byte_val_range b) as Hb.
    assert (Hpow : 256 ^ Z.of_nat s = 2 ^ (8 * Z.of_nat s)).
    { change 256 with (2 ^ 8). rewrite <- Z.pow_mul_r by lia. reflexivity. }
    cbn [read_fold le_value fold_right]. fold (le_value bs).
    rewrite (lor_shiftl_add acc (byte_val b) (8 * Z.of_nat s)) by lia.
    rewrite <- Hpow.
    rewrite IH.
    + rewrite Nat2Z.inj_succ, Z.pow_succ_r by lia. lia.
    + rewrite Nat2Z.inj_succ, Z.pow_succ_r by lia. nia.
Qed.

(** The mask octet [_parse] takes from [mask_key] at index [i] is wire byte
    [i mod 4] of the key. *)
Lemma mask_octet_key (k0 k1 k2 k3 : byte) (i : nat) :
  Z.land (Z.shiftr (le_value [k0; k1; k2; k3]) (Z.of_nat i mod 4 * 8)) 0xff
  = key_octet [k0; k1; k2; k3] i.
Proof.
  pose proof (byte_val_range k0). pose proof (byte_val_range k1).
  pose proof (byte_val_range k2). pose proof (byte_val_range k3).
  unfold key_octet. rewrite land_255.
  assert (Hmod : Z.of_nat i mod 4 = Z.of_nat (i mod 4)%nat)
    by (rewrite Nat2Z.inj_mod; reflexivity).
  rewrite Hmod.
  assert (Hlt : (i mod 4 < 4)%nat) by (apply Nat.mod_upper_bound; lia).
  destruct (i mod 4)%nat as [|[|[|[|n]]]]; [| | | |lia];
    cbn [lookup list_lookup le_value fold_right];
    rewrite Z.shiftr_div_pow2 by lia;
    [change (2 ^ (Z.of_nat 0 * 8)) with 1
    |change (2 ^ (Z.of_nat 1 * 8)) with 256
    |change (2 ^ (Z.of_nat 2 * 8)) with 65536
    |change (2 ^ (Z.of_nat 3 * 8)) with 16777216];
    Z.div_mod_to_equations; lia.
Qed.

Lemma mask_octet_none (i : nat) :
  Z.land (Z.shiftr 0 (Z.of_nat i mod 4 * 8)) 0xff = key_octet [] i.
Proof.
  unfold key_octet. rewrite lookup_nil, Z.shiftr_0_l. reflexivity.
Qed.

(** ** The unmasking loop *)

Section Unmask.
Context (key : list byte) (kz : Z).
Hypothesis key_octets :
  forall i : nat,
    Z.land (Z.shiftr kz (Z.of_nat i mod 4 * 8)) 0xff = key_octet key i.

Lemma key_octet_range (i : nat) : 0 <= key_octet key i < 256.
Proof.
  rewrite <- key_octets, land_255. apply Z.mod_pos_bound. lia.
Qed.

Lemma unmask_octet_ok (i : nat) (b : byte) :
  Frame.unmask_octet (Some kz) (Z.of_nat i) (byte_val b)
  = Ok (byte_of_Z (Z.lxor (byte_val b) (key_octet key i))).
Proof.
  unfold Frame.unmask_octet. rewrite key_octets.
  pose proof (lxor_byte_range _ _ (byte_val_range b) (key_octet_range i)) as Hx.
  destruct (bytearray_item_ok _ Hx) as (u & -> & Hu).
  f_equal. apply byte_val_inj. rewrite Hu, byte_of_Z_val by exact Hx. reflexivity.
Qed.

Lemma unmask_from_ok (rest : list byte) :
  forall (n : Z) (i : nat),
    n - Z.of_nat i <= Z.of_nat (length rest) ->
    Frame.unmask_from (Some kz) n (Z.of_nat i) rest
    = Ok (xor_mask_from key i (take (Z.to_nat (n - Z.of_nat i)) rest)).
Proof.
  induction rest as [|b rest IH]; intros n i Hn; cbn [Frame.unmask_from].
  - destruct (Z.ltb_spec (Z.of_nat i) n); [simpl in Hn; lia|].
    rewrite take_nil. reflexivity.
  - destruct (Z.ltb_spec (Z.of_nat i) n) as [Hlt | Hge].
    + rewrite unmask_octet_ok, result_bind_ok.
      replace (Z.of_nat i + 1) with (Z.of_nat (Datatypes.S i)) by lia.
      rewrite IH by (cbn [length] in Hn; lia). rewrite result_bind_ok.
      replace (Z.to_nat (n - Z.of_nat i))
        with (Datatypes.S (Z.to_nat (n - Z.of_nat (Datatypes.S i)))) by lia.
      reflexivity.
    + replace (Z.to_nat (n - Z.of_nat i)) with 0%nat by lia. reflexivity.
Qed.

Lemma unmask_from_short (rest : list byte) :
  forall (n : Z) (i : nat),
    Z.of_nat (length rest) < n - Z.of_nat i ->
    Frame.unmask_from (Some kz) n (Z.of_nat i) rest = Raise IndexError.
Proof.
  induction rest as [|b rest IH]; intros n i Hn; cbn [Frame.unmask_from].
  - destruct (Z.ltb_spec (Z.of_nat i) n); [reflexivity | simpl in Hn; lia].
  - destruct (Z.ltb_spec (Z.of_nat i) n) as [Hlt | Hge];
      [|cbn [length] in Hn; lia].
    rewrite unmask_octet_ok, result_bind_ok.
    replace (Z.of_nat i + 1) with (Z.of_nat (Datatypes.S i)) by lia.
    rewrite IH by (cbn [length] in Hn; lia). reflexivity.
Qed.
End Unmask.

(** ** [Frame._parse] on a frame laid out as [b0 :: b1 :: ext ++ key ++ wire] *)

Lemma read_be_ok (data ext rest : list byte) (next n : nat) (acc : Z) :
  drop next data = ext ++ rest -> length ext = n -> (next <= length data)%nat ->
  0 <= acc ->
  for_range n (fun i pl => d ← getitem data (i + next); Ok (Z.lor (Z.shiftl pl 8) d)) acc
  = Ok (acc * 256 ^ Z.of_nat n + be_value ext).
Proof.
  intros Hdrop Hext Hnext Hacc. unfold for_range.
  assert (Hlen : length data = (next + (length ext + length rest))%nat).
  { rewrite <- (take_drop next data) at 1.
    rewrite length_app, length_take_le, Hdrop, length_app by lia. reflexivity. }
  rewrite (read_loop_ok (fun _ pl d => Z.lor (Z.shiftl pl 8) d) data next n 0 acc)
    by (cbn; lia).
  cbn [Nat.add]. rewrite Hdrop, take_app_length' by (symmetry; exact Hext).
  rewrite be_fold_value, fold_be_acc, Hext by exact Hacc. reflexivity.
Qed.

Lemma read_le_ok (data key rest : list byte) (next : nat) :
  drop next data = key ++ rest -> length key = 4%nat -> (next <= length data)%nat ->
  for_range 4 (fun i mk => d ← getitem data (i + next);
                           Ok (Z.lor mk (Z.shiftl d (8 * Z.of_nat i)))) 0
  = Ok (le_value key).
Proof.
  intros Hdrop Hkey Hnext. unfold for_range.
  assert (Hlen : length data = (next + (length key + length rest))%nat).
  { rewrite <- (take_drop next data) at 1.
    rewrite length_app, length_take_le, Hdrop, length_app by lia. reflexivity. }
  rewrite (read_loop_ok (fun i mk d => Z.lor mk (Z.shiftl d (8 * Z.of_nat i)))
             data next 4 0 0) by (cbn; lia).
  cbn [Nat.add]. rewrite Hdrop, take_app_length' by (symmetry; exact Hkey).
  rewrite le_fold_value by (simpl; lia). f_equal. simpl (256 ^ Z.of_nat 0). lia.
Qed.

Lemma len7_range (b1 : byte) : 0 <= len7 b1 < 128.
Proof. unfold len7. rewrite land_127. apply Z.mod_pos_bound. lia. Qed.

Lemma parsed_len_nonneg (b1 : byte) (ext : list byte) : 0 <= parsed_len b1 ext.
Proof.
  pose proof (len7_range b1). pose proof (be_value_nonneg ext).
  unfold parsed_len, declared_len.
  destruct (len7 b1 =? 127); [lia|]. destruct (len7 b1 <? 126); lia.
Qed.

(** The key octets [_parse] uses are the wire bytes of the key, or zero
    when the frame carries none. *)
Lemma frame_key_octets (b1 : byte) (key : list byte) :
  length key = key_size b1 ->
  forall i : nat,
    Z.land (Z.shiftr (le_value key) (Z.of_nat i mod 4 * 8)) 0xff = key_octet key i.
Proof.
  unfold key_size. intros Hkey i.
  destruct (truthy (mask_of b1)).
  - destruct key as [|k0 [|k1 [|k2 [|k3 [|]]]]]; try discriminate.
    apply mask_octet_key.
  - destruct key; [|discriminate]. apply mask_octet_none.
Qed.

(** The length block on a frame whose extended length is whole. *)
Lemma parse_length_ok (data ext rest : list byte) (b1 : byte) :
  drop 2 data = ext ++ rest -> (2 <= length data)%nat -> length ext = ext_size b1 ->
  Frame.parse_length data (len7 b1) 2 = Ok (parsed_len b1 ext, (2 + length ext)%nat).
Proof.
  intros Hdrop Hlen Hext.
  unfold Frame.parse_length, parsed_len, declared_len, ext_size in *.
  destruct (Z.eqb_spec (len7 b1) 126) as [E126 | N126].
  - rewrite (read_be_ok data ext rest 2 2 0) by (try assumption; lia).
    rewrite result_bind_ok, E126, Hext. reflexivity.
  - destruct (Z.eqb_spec (len7 b1) 127) as [E127 | N127].
    + rewrite (read_be_ok data ext rest 2 8 (len7 b1)) by (try assumption; lia).
      rewrite result_bind_ok, E127, Hext. reflexivity.
    + pose proof (len7_range b1).
      replace (len7 b1 <? 126) with true by (symmetry; apply Z.ltb_lt; lia).
      rewrite Hext. reflexivity.
Qed.

(** The length block on a frame that ends inside its extended length. *)
Lemma parse_length_short (data : list byte) (b1 : byte) :
  (2 <= length data)%nat -> (length data < 2 + ext_size b1)%nat ->
  Frame.parse_length data (len7 b1) 2 = Raise IndexError.
Proof.
  intros Hlo Hhi. unfold Frame.parse_length, ext_size in *.
  destruct (len7 b1 =? 126).
  - unfold for_range.
    rewrite (read_loop_short (fun _ pl d => Z.lor (Z.shiftl pl 8) d) data 2 2 0 0)
      by (cbn; lia).
    reflexivity.
  - destruct (len7 b1 =? 127); [|lia]. unfold for_range.
    rewrite (read_loop_short (fun _ pl d => Z.lor (Z.shiftl pl 8) d) data 2 8 0 (len7 b1))
      by (cbn; lia).
    reflexivity.
Qed.

Lemma parse_mask_key_ok (data key wire : list byte) (b1 : byte) (next : nat) :
  drop next data = key ++ wire -> (next <= length data)%nat ->
  length key = key_size b1 ->
  Frame.parse_mask_key data (mask_of b1) (Some 0) next
  = Ok (Some (le_value key), (next + length key)%nat).
Proof.
  intros Hdrop Hnext Hkey. unfold Frame.parse_mask_key, key_size in *.
  destruct (truthy (mask_of b1)).
  - rewrite (read_le_ok data key wire next) by assumption.
    rewrite result_bind_ok, Hkey. do 2 f_equal. lia.
  - destruct key; [|discriminate]. cbn [length le_value fold_right].
    do 2 f_equal. lia.
Qed.

Lemma parse_mask_key_short (data : list byte) (b1 : byte) (mk : option Z) (next : nat) :
  (next <= length data)%nat -> (length data < next + key_size b1)%nat ->
  Frame.parse_mask_key data (mask_of b1) mk next = Raise IndexError.
Proof.
  intros Hlo Hhi. unfold Frame.parse_mask_key, key_size in *.
  destruct (truthy (mask_of b1)); [|lia]. unfold for_range.
  rewrite (read_loop_short (fun i mk d => Z.lor mk (Z.shiftl d (8 * Z.of_nat i)))
             data next 4 0 0) by (cbn; lia).
  reflexivity.
Qed.

Lemma be_value_bound (bs : list byte) : be_value bs < 256 ^ Z.of_nat (length bs).
Proof.
  unfold be_value.
  assert (H : forall acc, 0 <= acc ->
            fold_left (fun a b => a * 256 + byte_val b) bs acc
            < (acc + 1) * 256 ^ Z.of_nat (length bs)).
  { induction bs as [|b bs IH]; intros acc Hacc.
    - simpl. lia.
    - cbn [fold_left length]. pose proof (byte_val_range b) as Hb.
      rewrite Nat2Z.inj_succ, Z.pow_succ_r by lia.
      eapply Z.lt_le_trans; [apply IH; lia|].
      assert (0 < 256 ^ Z.of_nat (length bs)) by (apply Z.pow_pos_nonneg; lia).
      nia. }
  specialize (H 0). lia.
Qed.

(** The counts [_parse] hands to [range]: below 65536 in the 7-bit and the
    16-bit length form, at least [127 * 2 ^ 64] in the 64-bit form. *)
Lemma parsed_len_small_or_huge (b1 : byte) (ext : list byte) :
  length ext = ext_size b1 ->
  (len7 b1 <> 127 /\ 0 <= parsed_len b1 ext < 65536) \/
  (len7 b1 = 127 /\ 127 * 2 ^ 64 <= parsed_len b1 ext).
Proof.
  intros Hext. pose proof (len7_range b1) as Hr.
  pose proof (be_value_nonneg ext) as Hnn.
  pose proof (be_value_bound ext) as Hb. rewrite Hext in Hb.
  unfold parsed_len, declared_len, ext_size in *.
  destruct (Z.eqb_spec (len7 b1) 127) as [E127 | N127]; [right; split; [exact E127|lia]|].
  left. split; [exact N127|].
  destruct (Z.ltb_spec (len7 b1) 126); [lia|].
  destruct (Z.eqb_spec (len7 b1) 126); [|lia].
  change (256 ^ Z.of_nat 2) with 65536 in Hb. lia.
Qed.

(** [range(payload_len)] overflows exactly in the 64-bit length form. *)
Lemma range_overflows (b1 : byte) (ext : list byte) :
  length ext = ext_size b1 ->
  (Frame.maxint <? parsed_len b1 ext) = (len7 b1 =? 127).
Proof.
  intros Hext. unfold Frame.maxint.
  destruct (parsed_len_small_or_huge b1 ext Hext) as [[N [_ H]] | [E H]].
  - destruct (Z.eqb_spec (len7 b1) 127); [contradiction|]. apply Z.ltb_ge. lia.
  - rewrite E. apply Z.ltb_lt. lia.
Qed.

(** What [Frame(data=...)] returns for every frame whose header is whole. *)
Lemma decode_frame (b0 b1 : byte) (ext key wire : list byte) :
  length ext = ext_size b1 -> length key = key_size b1 ->
  Frame.decode (b0 :: b1 :: ext ++ key ++ wire) =
    if opcode_of b0 =? Frame.TEXT then
      if len7 b1 =? 127 then Raise OverflowError
      else if parsed_len b1 ext <=? Z.of_nat (length wire) then
        Ok (parsed_frame b0 b1 ext key wire
              (xor_mask key (take (Z.to_nat (parsed_len b1 ext)) wire)) false)
      else Raise IndexError
    else if opcode_of b0 =? Frame.CLOSE then
      Ok (parsed_frame b0 b1 ext key wire wire true)
    else Raise (Exception_ (ArgInt (opcode_of b0))).
Proof.
  intros Hext Hkey.
  pose proof (frame_key_octets b1 key Hkey) as Hoct.
  unfold Frame.decode, Frame.__init__, Frame._parse. cbv zeta.
  set (data := b0 :: b1 :: ext ++ key ++ wire).
  rewrite (getitem_lookup data 0 b0 eq_refl), result_bind_ok.
  rewrite (getitem_lookup data 1 b1 eq_refl), result_bind_ok.
  fold (opcode_of b0) (fin_of b0) (mask_of b1) (len7 b1).
  rewrite (parse_length_ok data ext (key ++ wire) b1)
    by (try assumption; try reflexivity; cbn; lia).
  rewrite result_bind_ok. cbn [Frame.mask_key].
  rewrite (parse_mask_key_ok data key wire b1 (2 + length ext)).
  2: { subst data. cbn [drop Nat.add]. apply drop_app_length. }
  2: { subst data. cbn [length]. rewrite !length_app. lia. }
  2: { exact Hkey. }
  rewrite result_bind_ok.
  assert (Hdrop : drop (2 + length ext + length key) data = wire).
  { subst data. cbn [drop Nat.add].
    rewrite drop_app_add, drop_app_length. reflexivity. }
  rewrite Hdrop.
  destruct (opcode_of b0 =? Frame.TEXT); [|reflexivity].
  unfold Frame.unmask. rewrite (range_overflows b1 ext Hext).
  destruct (len7 b1 =? 127); [reflexivity|].
  destruct (Z.leb_spec (parsed_len b1 ext) (Z.of_nat (length wire))) as [Hle | Hgt].
  - pose proof (unmask_from_ok key (le_value key) Hoct wire (parsed_len b1 ext) 0)
      as Hu.
    change (Z.of_nat 0) with 0 in Hu. rewrite Z.sub_0_r in Hu.
    rewrite Hu by exact Hle. reflexivity.
  - pose proof (unmask_from_short key (le_value key) Hoct wire (parsed_len b1 ext) 0)
      as Hu.
    change (Z.of_nat 0) with 0 in Hu. rewrite Z.sub_0_r in Hu.
    rewrite Hu by exact Hgt. reflexivity.
Qed.

(** A frame that ends inside its header is not decoded. *)
Lemma decode_truncated (b0 b1 : byte) (rest : list byte) :
  (length rest < ext_size b1 + key_size b1)%nat ->
  Frame.decode (b0 :: b1 :: rest) = Raise IndexError.
Proof.
  intros Hshort.
  unfold Frame.decode, Frame.__init__, Frame._parse. cbv zeta.
  set (data := b0 :: b1 :: rest).
  rewrite (getitem_lookup data 0 b0 eq_refl), result_bind_ok.
  rewrite (getitem_lookup data 1 b1 eq_refl), result_bind_ok.
  fold (opcode_of b0) (fin_of b0) (mask_of b1) (len7 b1).
  destruct (Nat.lt_ge_cases (length rest) (ext_size b1)) as [Hext | Hext].
  - rewrite (parse_length_short data b1) by (subst data; cbn [length]; lia).
    reflexivity.
  - rewrite (parse_length_ok data (take (ext_size b1) rest) (drop (ext_size b1) rest) b1).
    + rewrite result_bind_ok. cbn [Frame.mask_key].
      rewrite (parse_mask_key_short data b1).
      * reflexivity.
      * subst data. cbn [length]. rewrite length_take_le by lia. lia.
      * subst data. cbn [length]. rewrite length_take_le by lia. lia.
    + subst data. cbn [drop]. symmetry. apply take_drop.
    + subst data. cbn [length]. lia.
    + apply length_take_le. lia.
Qed.

Lemma decode_nil : Frame.decode [] = Raise IndexError.
Proof. reflexivity. Qed.

Lemma decode_one (b0 : byte) : Frame.decode [b0] = Raise IndexError.
Proof. reflexivity. Qed.

(** Every byte string either is too short for its header or splits into a
    whole header and a payload. *)
Lemma frame_layout (b0 b1 : byte) (rest : list byte) :
  (ext_size b1 + key_size b1 <= length rest)%nat ->
  exists ext key wire : list byte,
    rest = ext ++ key ++ wire /\ length ext = ext_size b1 /\ length key = key_size b1.
Proof.
  intros Hlen.
  exists (take (ext_size b1) rest),
         (take (key_size b1) (drop (ext_size b1) rest)),
         (drop (key_size b1) (drop (ext_size b1) rest)).
  split; [|split].
  - rewrite take_drop, take_drop. reflexivity.
  - apply length_take_le. lia.
  - apply length_take_le. rewrite length_drop. lia.
Qed.

(** ** [Frame._set_data] *)

Lemma flag_byte_range (x y : Z) :
  0 <= y < 128 -> 0 <= Z.lor (Z.shiftl (Z.land x 0x1) 7) y < 256.
Proof.
  intros Hy. rewrite Z.lor_comm, (lor_shiftl_add y (Z.land x 0x1) 7) by lia.
  rewrite land_1. pose proof (Z.mod_pos_bound x 2). lia.
Qed.

Lemma bytearray_item_of_Z (z : Z) :
  0 <= z < 256 -> bytearray_item z = Ok (byte_of_Z z).
Proof.
  intros Hz. destruct (bytearray_item_ok z Hz) as (b & -> & Hb).
  f_equal. apply byte_val_inj. rewrite Hb, byte_of_Z_val by exact Hz. reflexivity.
Qed.

Lemma for_each_bytes {A : Type} (f : A -> Z) (xs : list A) :
  (forall x, 0 <= f x < 256) ->
  for_each (fun x => bytearray_item (f x)) xs = Ok (map (fun x => byte_of_Z (f x)) xs).
Proof.
  intros Hf. induction xs as [|x xs IH]; [reflexivity|].
  cbn [for_each map]. rewrite bytearray_item_of_Z by apply Hf.
  rewrite result_bind_ok, IH. reflexivity.
Qed.

Lemma length_bytes_ok (n : nat) (z : Z) :
  Frame.length_bytes n z = Ok (map byte_of_Z (hashlib.be_bytes n z)).
Proof.
  unfold Frame.length_bytes, hashlib.be_bytes.
  rewrite (for_each_bytes (fun i : nat => Z.land (Z.shiftr z (Z.of_nat i * 8)) 0xff)).
  - rewrite map_map. reflexivity.
  - intros i. rewrite land_255. apply Z.mod_pos_bound. lia.
Qed.

(** The header is always written: every byte of it is in [range(256)]. *)
Lemma set_header_ok (self : Frame.t) :
  Frame.set_header self
  = Ok (map byte_of_Z (header (Frame.fin self) (Frame.opcode self) (Frame.mask self)
                              (Frame.payload_len self))).
Proof.
  unfold Frame.set_header, header.
  assert (H15 : 0 <= Z.land (Frame.opcode self) 0xf < 128).
  { rewrite land_15. pose proof (Z.mod_pos_bound (Frame.opcode self) 16). lia. }
  assert (H127 : 0 <= Z.land (Frame.payload_len self) 0x7f < 128).
  { rewrite land_127. apply Z.mod_pos_bound. lia. }
  rewrite (bytearray_item_of_Z _ (flag_byte_range (Frame.fin self) _ H15)).
  rewrite result_bind_ok.
  change (Z.shiftl 1 16) with 65536.
  destruct (Z.leb_spec 126 (Frame.payload_len self)) as [Hge | Hlt].
  - replace (Frame.payload_len self <? 126) with false by (symmetry; apply Z.ltb_ge; lia).
    destruct (Frame.payload_len self <? 65536).
    + rewrite bytearray_item_of_Z by (apply flag_byte_range; lia).
      rewrite result_bind_ok, length_bytes_ok, result_bind_ok. reflexivity.
    + rewrite bytearray_item_of_Z by (apply flag_byte_range; lia).
      rewrite result_bind_ok, length_bytes_ok, result_bind_ok. reflexivity.
  - replace (Frame.payload_len self <? 126) with true by (symmetry; apply Z.ltb_lt; lia).
    rewrite bytearray_item_of_Z by (apply flag_byte_range; exact H127).
    rewrite result_bind_ok. reflexivity.
Qed.

(** What [Frame(...)] built for output returns: it raises exactly when
    [mask] is true in the sense of [if self.mask]. *)
Lemma set_data_result (self : Frame.t) :
  Frame._set_data self =
    if truthy (Frame.mask self) then
      match Frame.mask_key self with
      | None => Raise (Exception_ (ArgStr "Missing mask key"))
      | Some _ => Raise (Exception_ (ArgStr "TODO"))
      end
    else
      Ok {| Frame.data :=
              map byte_of_Z (header (Frame.fin self) (Frame.opcode self) (Frame.mask self)
                                    (Frame.payload_len self)) ++ Frame.payload self;
            Frame.fin := Frame.fin self; Frame.opcode := Frame.opcode self;
            Frame.payload := Frame.payload self; Frame.mask_key := Frame.mask_key self;
            Frame.mask := Frame.mask self; Frame.payload_len := Frame.payload_len self;
            Frame.closed := Frame.closed self |}.
Proof.
  unfold Frame._set_data. rewrite set_header_ok, result_bind_ok. reflexivity.
Qed.

Lemma init_for_output (fin opcode : Z) (p : list byte) (mk : option Z) :
  Frame.__init__ None fin opcode (Some p) 0 mk
  = Ok {| Frame.data := map byte_of_Z (header fin opcode 0 (Z.of_nat (length p))) ++ p;
          Frame.fin := fin; Frame.opcode := opcode; Frame.payload := p;
          Frame.mask_key := mk; Frame.mask := 0;
          Frame.payload_len := Z.of_nat (length p); Frame.closed := false |}.
Proof. unfold Frame.__init__. rewrite set_data_result. reflexivity. Qed.

(** ** The claims on the frame codec *)

(** C2, as far as it holds: in both extended forms the mask key and the
    payload are read after the length bytes, and the 126 form yields the
    big-endian value of its two bytes; the 127 form adds [127 * 2 ^ 64]. *)
Lemma parsed_len_forms (b1 : byte) (ext : list byte) :
  (len7 b1 = 126 -> parsed_len b1 ext = be_value ext) /\
  (len7 b1 = 127 -> parsed_len b1 ext = 127 * 2 ^ 64 + be_value ext).
Proof.
  unfold parsed_len, declared_len. split; intros ->; reflexivity.
Qed.

(** Every TEXT frame in the 64-bit length form is refused, whatever it
    declares and whatever bytes follow its header: the count handed to
    [range] is [127 * 2 ^ 64] or more. *)
Lemma text_127_refused (b0 b1 : byte) (ext key wire : list byte) :
  length ext = ext_size b1 -> length key = key_size b1 ->
  len7 b1 = 127 -> opcode_of b0 = Frame.TEXT ->
  Frame.decode (b0 :: b1 :: ext ++ key ++ wire) = Raise OverflowError.
Proof.
  intros He Hk H127 HT.
  rewrite (decode_frame b0 b1 ext key wire He Hk), HT, H127. reflexivity.
Qed.

(** A CLOSE frame in the 64-bit length form gets [127 * 2 ^ 64] plus the
    value of its eight length bytes as [payload_len]. *)
Lemma close_127_payload_len (b0 b1 : byte) (ext key wire : list byte) :
  length ext = ext_size b1 -> length key = key_size b1 ->
  len7 b1 = 127 -> opcode_of b0 = Frame.CLOSE ->
  exists f : Frame.t,
    Frame.decode (b0 :: b1 :: ext ++ key ++ wire) = Ok f /\
    Frame.payload_len f = 127 * 2 ^ 64 + be_value ext.
Proof.
  intros He Hk H127 HC.
  rewrite (decode_frame b0 b1 ext key wire He Hk), HC.
  cbn [Z.eqb Frame.TEXT Frame.CLOSE Pos.eqb].
  eexists. split; [reflexivity|].
  cbn [parsed_frame Frame.payload_len]. apply parsed_len_forms. exact H127.
Qed.

Lemma big_frame_layout :
  big_frame = x81 :: x7f :: [x00; x00; x00; x00; x00; x01; x00; x00] ++ [] ++ big_payload.
Proof. reflexivity. Qed.

Lemma decode_big_frame : Frame.decode big_frame = Raise OverflowError.
Proof.
  rewrite big_frame_layout. apply text_127_refused; reflexivity.
Qed.

(** C2: a frame with length field 127 does not get the big-endian value of
    its eight length bytes as [payload_len].  The unmasked TEXT frame
    [81 7f 00 00 00 00 00 01 00 00] with its 65536 payload bytes declares
    65536 and is refused: [payload_len] has become [127 * 2 ^ 64 + 65536],
    a count [range] answers with [OverflowError]; on a CLOSE frame that
    declares five bytes in this form [payload_len] comes out as
    [127 * 2 ^ 64 + 5], while the same length in the 126 form gives 5.  The
    payload itself is read after the eight bytes. *)
Theorem C2_length_127_not_big_endian :
  be_value [x00; x00; x00; x00; x00; x01; x00; x00] = 65536 /\
  Z.of_nat (length big_payload) = 65536 /\
  Frame.decode big_frame = Raise OverflowError /\
  (exists f,
     Frame.decode [x88; x7f; x00; x00; x00; x00; x00; x00; x00; x05;
                   x41; x42; x43; x44; x45] = Ok f /\
     Frame.payload_len f = 127 * 2 ^ 64 + 5 /\
     Frame.payload f = [x41; x42; x43; x44; x45]) /\
  (exists f,
     Frame.decode [x88; x7e; x00; x05; x41; x42; x43; x44; x45] = Ok f /\
     Frame.payload_len f = 5 /\
     Frame.payload f = [x41; x42; x43; x44; x45]).
Proof.
  split; [reflexivity|].
  split; [unfold big_payload; rewrite repeat_length; vm_compute; reflexivity|].
  split; [exact decode_big_frame|].
  split; eexists; (split; [vm_compute; reflexivity|split; reflexivity]).
Qed.

Lemma xor_mask_from_length (key p : list byte) :
  forall start : nat, length (xor_mask_from key start p) = length p.
Proof.
  induction p as [|b p IH]; intros start; [reflexivity|].
  cbn [xor_mask_from length]. rewrite IH. reflexivity.
Qed.

Lemma xor_mask_from_lookup (key p : list byte) :
  forall (start i : nat) (b : byte),
    p !! i = Some b ->
    xor_mask_from key start p !! i
    = Some (byte_of_Z (Z.lxor (byte_val b) (key_octet key (start + i)))).
Proof.
  induction p as [|c p IH]; intros start i b Hi; [discriminate|].
  destruct i as [|i].
  - injection Hi as ->. rewrite Nat.add_0_r. reflexivity.
  - etransitivity; [exact (IH (S start) i b Hi)|]. do 4 f_equal. lia.
Qed.

(** C3 as stated fails: a masked CLOSE frame keeps its payload as it came
    over the wire.  With key [01 02 03 04] the payload [41 41] stays [41 41],
    where unmasking would give [40 43]. *)
Lemma C3_masked_close_payload_kept :
  ~ (forall (b0 b1 : byte) (ext key wire : list byte) (f : Frame.t),
       length ext = ext_size b1 -> length key = key_size b1 ->
       mask_of b1 = 1 ->
       opcode_of b0 = Frame.TEXT \/ opcode_of b0 = Frame.CLOSE ->
       Frame.decode (b0 :: b1 :: ext ++ key ++ wire) = Ok f ->
       Frame.payload f
       = xor_mask key (take (Z.to_nat (Frame.payload_len f)) wire)).
Proof.
  intros H.
  specialize (H x88 x82 [] [x01; x02; x03; x04] [x41; x41]
                (parsed_frame x88 x82 [] [x01; x02; x03; x04] [x41; x41] [x41; x41] true)
                eq_refl eq_refl eq_refl (or_intror eq_refl) eq_refl).
  vm_compute in H. discriminate H.
Qed.

(** C3, amended: a TEXT frame with the mask bit set, whose header is whole
    and which holds the [payload_len] payload bytes [_parse] asks for, is
    decoded; its payload has [payload_len] bytes and byte [i] is the wire
    byte [i] XORed with wire byte [i mod 4] of the mask key; with key
    [01 02 03 04] the payload [41 41 41 41 41] becomes [40 43 42 45 40].
    The TEXT frames that are decoded are those of the 7-bit and the 16-bit
    length form; one in the 64-bit form is refused before a byte is
    unmasked.  A CLOSE frame is decoded with its payload as received. *)
Theorem C3_text_payload_unmasked :
  (forall (b0 b1 : byte) (ext key wire : list byte),
     length ext = ext_size b1 -> length key = key_size b1 ->
     mask_of b1 = 1 ->
     (opcode_of b0 = Frame.TEXT -> len7 b1 <> 127 ->
      parsed_len b1 ext <= Z.of_nat (length wire) ->
      exists f,
        Frame.decode (b0 :: b1 :: ext ++ key ++ wire) = Ok f /\
        Frame.payload_len f = parsed_len b1 ext /\
        Z.of_nat (length (Frame.payload f)) = Frame.payload_len f /\
        (forall (i : nat) (u : byte),
           Frame.payload f !! i = Some u ->
           exists w k : byte,
             wire !! i = Some w /\ key !! (i mod 4)%nat = Some k /\
             byte_val u = Z.lxor (byte_val w) (byte_val k))) /\
     (opcode_of b0 = Frame.CLOSE ->
      exists f,
        Frame.decode (b0 :: b1 :: ext ++ key ++ wire) = Ok f /\
        Frame.closed f = true /\ Frame.payload f = wire)) /\
  (exists f,
     Frame.decode [x81; x85; x01; x02; x03; x04; x41; x41; x41; x41; x41] = Ok f /\
     Frame.payload f = [x40; x43; x42; x45; x40]).
Proof.
  split; [|eexists; split; [vm_compute; reflexivity|reflexivity]].
  intros b0 b1 ext key wire Hext Hkey Hmask.
  pose proof (decode_frame b0 b1 ext key wire Hext Hkey) as Hdec.
  pose proof (parsed_len_nonneg b1 ext) as Hnn.
  split.
  - intros Hop H127 Hlen. rewrite Hop in Hdec. cbn [Z.eqb Frame.TEXT Pos.eqb] in Hdec.
    replace (len7 b1 =? 127) with false in Hdec
      by (symmetry; apply Z.eqb_neq; exact H127).
    replace (parsed_len b1 ext <=? Z.of_nat (length wire)) with true in Hdec
      by (symmetry; apply Z.leb_le; exact Hlen).
    eexists. split; [exact Hdec|]. cbn [parsed_frame Frame.payload_len Frame.payload].
    split; [reflexivity|].
    split.
    + unfold xor_mask. rewrite xor_mask_from_length, length_take_le by lia. lia.
    + intros i u Hu.
      assert (Hi : (i < length (take (Z.to_nat (parsed_len b1 ext)) wire))%nat).
      { apply lookup_lt_Some in Hu. unfold xor_mask in Hu.
        rewrite xor_mask_from_length in Hu. exact Hu. }
      destruct (lookup_lt_is_Some_2 _ _ Hi) as [w Hw].
      unfold xor_mask in Hu. rewrite (xor_mask_from_lookup _ _ 0 i w Hw) in Hu.
      injection Hu as <-. cbn [Nat.add].
      unfold key_size in Hkey. rewrite Hmask in Hkey. cbn in Hkey.
      assert (Hk : (i mod 4 < length key)%nat)
        by (rewrite Hkey; apply Nat.mod_upper_bound; lia).
      destruct (lookup_lt_is_Some_2 _ _ Hk) as [k Hkk].
      exists w, k. split; [|split; [exact Hkk|]].
      * apply lookup_take_Some in Hw. tauto.
      * unfold key_octet. rewrite Hkk.
        apply byte_of_Z_val, lxor_byte_range; apply byte_val_range.
  - intros Hop. rewrite Hop in Hdec. cbn [Z.eqb Frame.TEXT Frame.CLOSE Pos.eqb] in Hdec.
    eexists. split; [exact Hdec|]. split; reflexivity.
Qed.

(** The masking example, run through the theorem. *)
Lemma C3_text_payload_unmasked_witness :
  length (@nil byte) = ext_size x85 /\
  length [x01; x02; x03; x04] = key_size x85 /\
  mask_of x85 = 1 /\
  opcode_of x81 = Frame.TEXT /\
  len7 x85 <> 127 /\
  parsed_len x85 [] <= Z.of_nat (length [x41; x41; x41; x41; x41]) /\
  exists f,
    Frame.decode (x81 :: x85 :: [] ++ [x01; x02; x03; x04]
                    ++ [x41; x41; x41; x41; x41]) = Ok f /\
    Frame.payload f = [x40; x43; x42; x45; x40].
Proof.
  do 6 (split; [vm_compute; try reflexivity; discriminate|]).
  destruct (proj1 C3_text_payload_unmasked x81 x85 [] [x01; x02; x03; x04]
              [x41; x41; x41; x41; x41] eq_refl eq_refl eq_refl) as [Htext _].
  destruct (Htext eq_refl ltac:(vm_compute; discriminate)
              ltac:(vm_compute; discriminate)) as (f & Hf & _).
  exists f. split; [exact Hf|].
  vm_compute in Hf. injection Hf as <-. reflexivity.
Defined.

(** C4 does not hold for the frames in the 64-bit length form: the
    unmasked TEXT frame of 65536 payload bytes, which is also what encoding
    those bytes gives, is refused with [OverflowError], as every TEXT frame
    in that form is, so nothing is left to encode again. *)
Theorem C4_big_text_frame_not_decoded :
  mask_of x7f = 0 /\
  opcode_of x81 = Frame.TEXT /\
  declared_len x7f [x00; x00; x00; x00; x00; x01; x00; x00]
  = Z.of_nat (length big_payload) /\
  (exists f, Frame.encode 1 Frame.TEXT 0 big_payload = Ok f /\ Frame.data f = big_frame) /\
  Frame.decode big_frame = Raise OverflowError.
Proof.
  assert (Hlen : Z.of_nat (length big_payload) = 65536)
    by (unfold big_payload; rewrite repeat_length; vm_compute; reflexivity).
  split; [reflexivity|]. split; [reflexivity|].
  split; [rewrite Hlen; reflexivity|].
  split; [|exact decode_big_frame].
  unfold Frame.encode, Frame.__init__. rewrite set_data_result.
  cbn [Frame.mask truthy Z.eqb negb Frame.fin Frame.opcode Frame.payload_len
       Frame.payload Frame.mask_key Frame.closed].
  eexists. split; [reflexivity|]. cbn [Frame.data].
  rewrite Hlen. unfold big_frame.
  apply (f_equal (fun l => l ++ big_payload)). vm_compute. reflexivity.
Qed.

(** C8: a frame built for output with the mask bit set is not built, the
    constructor raises; with [mask = 0] it is built, and its bytes are the
    header followed by the payload. *)
Theorem C8_masked_encoding_raises (fin opcode mask : Z) (payload : option (list byte))
    (mask_key : option Z) :
  (Z.land mask 0x1 = 1 ->
   exists msg : string,
     Frame.__init__ None fin opcode payload mask mask_key = Raise (Exception_ (ArgStr msg))) /\
  (mask = 0 ->
   exists f,
     Frame.__init__ None fin opcode payload mask mask_key = Ok f /\
     Frame.data f
     = map byte_of_Z (header fin opcode 0 (Z.of_nat (length (default [] payload))))
         ++ default [] payload).
Proof.
  unfold Frame.__init__. rewrite set_data_result.
  cbn [Frame.mask Frame.mask_key Frame.fin Frame.opcode Frame.payload_len Frame.payload
       Frame.closed].
  split.
  - intros Hbit. unfold truthy. destruct (Z.eqb_spec mask 0) as [-> | _]; [discriminate|].
    destruct mask_key; eexists; reflexivity.
  - intros ->. cbn [truthy Z.eqb negb]. eexists. split; [reflexivity|].
    destruct payload; reflexivity.
Qed.

(** A one-byte TEXT frame built with [mask = 1] and with [mask = 0]. *)
Lemma C8_masked_encoding_raises_witness :
  (Z.land 1 0x1 = 1 /\
   exists msg : string,
     Frame.__init__ None 1 Frame.TEXT (Some [x41]) 1 (Some 0)
     = Raise (Exception_ (ArgStr msg))) /\
  (0 = 0 /\
   exists f,
     Frame.__init__ None 1 Frame.TEXT (Some [x41]) 0 (Some 0) = Ok f /\
     Frame.data f = [x81; x01; x41]).
Proof.
  split.
  - split; [reflexivity|].
    exact (proj1 (C8_masked_encoding_raises 1 Frame.TEXT 1 (Some [x41]) (Some 0)) eq_refl).
  - split; [reflexivity|].
    destruct (proj2 (C8_masked_encoding_raises 1 Frame.TEXT 0 (Some [x41]) (Some 0)) eq_refl)
      as (f & Hf & Hd).
    exists f. split; [exact Hf|]. rewrite Hd. reflexivity.
Defined.

(** The encoder raises exactly when [mask] is not zero, which is how
    [if self.mask] reads it. *)
Lemma encode_raises_iff (fin opcode mask : Z) (payload : list byte) :
  is_ok (Frame.encode fin opcode mask payload) = (mask =? 0).
Proof.
  unfold Frame.encode, Frame.__init__. rewrite set_data_result.
  cbn [Frame.mask Frame.mask_key]. unfold truthy. destruct (mask =? 0); reflexivity.
Qed.

Lemma header_whole_layout (data : list byte) :
  header_whole data = true ->
  exists (b0 b1 : byte) (ext key wire : list byte),
    data = b0 :: b1 :: ext ++ key ++ wire /\
    length ext = ext_size b1 /\ length key = key_size b1.
Proof.
  destruct data as [|b0 [|b1 rest]]; try discriminate.
  cbn [header_whole]. intros H. apply Nat.leb_le in H.
  destruct (frame_layout b0 b1 rest H) as (ext & key & wire & -> & He & Hk).
  exists b0, b1, ext, key, wire. auto.
Qed.

Lemma decode_header_cut (data : list byte) :
  header_whole data = false -> Frame.decode data = Raise IndexError.
Proof.
  destruct data as [|b0 [|b1 rest]]; [reflexivity | reflexivity |].
  cbn [header_whole]. intros H. apply Nat.leb_gt in H.
  apply decode_truncated. exact H.
Qed.

(** C9: a frame with a whole header whose opcode is neither TEXT nor CLOSE
    is refused with [Exception(opcode)], and no byte string with such an
    opcode is ever decoded into a frame; a byte string whose opcode is TEXT
    or CLOSE never meets that exception. *)
Theorem C9_unsupported_opcode_raises (b0 : byte) (rest : list byte) :
  (opcode_of b0 <> Frame.TEXT -> opcode_of b0 <> Frame.CLOSE ->
   (header_whole (b0 :: rest) = true ->
    Frame.decode (b0 :: rest) = Raise (Exception_ (ArgInt (opcode_of b0)))) /\
   is_ok (Frame.decode (b0 :: rest)) = false) /\
  (opcode_of b0 = Frame.TEXT \/ opcode_of b0 = Frame.CLOSE ->
   forall a : ExcArg, Frame.decode (b0 :: rest) <> Raise (Exception_ a)).
Proof.
  destruct (header_whole (b0 :: rest)) eqn:Hw.
  - destruct (header_whole_layout _ Hw) as (c0 & b1 & ext & key & wire & E & He & Hk).
    injection E as <- ->.
    rewrite (decode_frame b0 b1 ext key wire He Hk).
    split.
    + intros HT HC.
      destruct (Z.eqb_spec (opcode_of b0) Frame.TEXT); [contradiction|].
      destruct (Z.eqb_spec (opcode_of b0) Frame.CLOSE); [contradiction|].
      split; reflexivity.
    + intros [HT | HC] a.
      * rewrite HT. cbn [Z.eqb Frame.TEXT Pos.eqb].
        destruct (len7 b1 =? 127); [discriminate|].
        destruct (parsed_len b1 ext <=? Z.of_nat (length wire)); discriminate.
      * rewrite HC. cbn [Z.eqb Frame.TEXT Frame.CLOSE Pos.eqb]. discriminate.
  - rewrite (decode_header_cut _ Hw). split.
    + intros _ _. split; [discriminate | reflexivity].
    + intros _ a. discriminate.
Qed.

(** A binary frame (opcode 2) and a TEXT frame of one byte. *)
Lemma C9_unsupported_opcode_raises_witness :
  (opcode_of x82 <> Frame.TEXT /\ opcode_of x82 <> Frame.CLOSE /\
   header_whole [x82; x01; x41] = true /\
   Frame.decode [x82; x01; x41] = Raise (Exception_ (ArgInt 2))) /\
  (opcode_of x81 = Frame.TEXT /\
   Frame.decode [x81; x01; x41] <> Raise (Exception_ (ArgInt 1))).
Proof.
  split.
  - split; [discriminate|]. split; [discriminate|]. split; [reflexivity|].
    exact (proj1 (proj1 (C9_unsupported_opcode_raises x82 [x01; x41])
                    ltac:(discriminate) ltac:(discriminate)) eq_refl).
  - split; [reflexivity|].
    exact (proj2 (C9_unsupported_opcode_raises x81 [x01; x41]) (or_introl eq_refl) (ArgInt 1)).
Defined.





(** C5: the accept value is the base64 text of the SHA-1 digest of the key
    followed by the protocol's GUID; the key of the protocol's example
    gives the accept value of that example. *)
Theorem C5_accept_value :
  (forall k : string,
     _get_accept k
     = base64.b64encode
         (hashlib.sha1 (list_byte_of_string
            (String.append k "258EAFA5-E914-47DA-95CA-C5AB0DC85B11")))) /\
  _get_accept "dGhlIHNhbXBsZSBub25jZQ==" = "s3pPLMBiTxaQ9kYGzzhZRbK+xOo=".
Proof.
  split; [intros k; reflexivity|]. vm_compute. reflexivity.
Qed.

(** The digests of the two messages of the SHA-1 standard, to fix the
    model of [hashlib.sha1]. *)
Lemma sha1_abc :
  map byte_val (hashlib.sha1 (list_byte_of_string "abc"))
  = [0xa9; 0x99; 0x3e; 0x36; 0x47; 0x06; 0x81; 0x6a; 0xba; 0x3e;
     0x25; 0x71; 0x78; 0x50; 0xc2; 0x6c; 0x9c; 0xd0; 0xd8; 0x9d].
Proof. vm_compute. reflexivity. Qed.

Lemma sha1_two_blocks :
  map byte_val
    (hashlib.sha1 (list_byte_of_string
       "abcdbcdecdefdefgefghfghighijhijkijkljklmklmnlmnomnopnopq"))
  = [0x84; 0x98; 0x3e; 0x44; 0x1c; 0x3b; 0xd2; 0x6e; 0xba; 0xae;
     0x4a; 0xa1; 0xf9; 0x51; 0x29; 0xe5; 0xe5; 0x46; 0x70; 0xf1].
Proof. vm_compute. reflexivity. Qed.

Lemma b64encode_rfc4648 :
  base64.b64encode (list_byte_of_string "foob") = "Zm9vYg==" /\
  base64.b64encode (list_byte_of_string "fooba") = "Zm9vYmE=" /\
  base64.b64encode (list_byte_of_string "foobar") = "Zm9vYmFy".
Proof. repeat split; vm_compute; reflexivity. Qed.

(** ** The round trip of the frames that are decoded *)

Lemma xor_mask_from_nil (p : list byte) :
  forall start : nat, xor_mask_from [] start p = p.
Proof.
  induction p as [|b p IH]; intros start; [reflexivity|].
  cbn [xor_mask_from]. rewrite IH. unfold key_octet. rewrite lookup_nil.
  rewrite lxor_0_byte. reflexivity.
Qed.

Lemma land_128_small (n : Z) : 0 <= n < 128 -> Z.land n 0x80 = 0.
Proof.
  intros Hn. apply Z.bits_inj'. intros m Hm. rewrite Z.land_spec, Z.bits_0.
  destruct (Z.eq_dec m 7) as [-> | Hne].
  - rewrite (testbit_above n 7 7) by lia. reflexivity.
  - replace (Z.testbit 0x80 m) with false; [apply andb_false_r|].
    symmetry. change 0x80 with (2 ^ 7). apply Z.pow2_bits_false. congruence.
Qed.

Lemma fin_of_cases (b0 : byte) : fin_of b0 = 0 \/ fin_of b0 = 1.
Proof. unfold fin_of, py_bool. destruct (_ =? 0); auto. Qed.

(** Every unmasked TEXT frame in the 7-bit or the 16-bit length form that
    holds as many payload bytes as it declares is decoded, and encoding the
    decoded frame gives bytes that decode to the same [fin], opcode and
    payload. *)
Lemma text_roundtrip (b0 b1 : byte) (ext wire : list byte) :
  length ext = ext_size b1 -> mask_of b1 = 0 -> opcode_of b0 = Frame.TEXT ->
  len7 b1 <> 127 -> declared_len b1 ext = Z.of_nat (length wire) ->
  exists f g f' : Frame.t,
    Frame.decode (b0 :: b1 :: ext ++ wire) = Ok f /\
    Frame.payload f = wire /\
    Frame.encode (Frame.fin f) (Frame.opcode f) (Frame.mask f) (Frame.payload f) = Ok g /\
    Frame.decode (Frame.data g) = Ok f' /\
    Frame.fin f' = Frame.fin f /\ Frame.opcode f' = Frame.opcode f /\
    Frame.payload f' = Frame.payload f.
Proof.
  intros Hext Hmask Hop H127 Hdecl.
  assert (Hkey : length (@nil byte) = key_size b1)
    by (unfold key_size; rewrite Hmask; reflexivity).
  assert (Hplen : parsed_len b1 ext = Z.of_nat (length wire)).
  { unfold parsed_len. destruct (Z.eqb_spec (len7 b1) 127); [contradiction|exact Hdecl]. }
  pose proof (decode_frame b0 b1 ext [] wire Hext Hkey) as Hdec.
  cbn [app] in Hdec. rewrite Hop, Hplen in Hdec. cbn [Z.eqb Frame.TEXT Pos.eqb] in Hdec.
  replace (len7 b1 =? 127) with false in Hdec by (symmetry; apply Z.eqb_neq; exact H127).
  rewrite Z.leb_refl, Nat2Z.id, firstn_all in Hdec.
  unfold xor_mask in Hdec. rewrite xor_mask_from_nil in Hdec.
  set (n := Z.of_nat (length wire)) in *.
  assert (Hn : 0 <= n < 65536).
  { split; [lia|]. rewrite <- Hdecl. unfold declared_len.
    pose proof (len7_range b1). destruct (Z.ltb_spec (len7 b1) 126); [lia|].
    pose proof (be_value_bound ext) as Hb. rewrite Hext in Hb.
    unfold ext_size in Hb. replace (len7 b1 =? 126) with true in Hb
      by (symmetry; apply Z.eqb_eq; lia).
    exact Hb. }
  assert (Hback : exists f' : Frame.t,
            Frame.decode (map byte_of_Z (header (fin_of b0) Frame.TEXT 0 n) ++ wire) = Ok f' /\
            Frame.fin f' = fin_of b0 /\ Frame.opcode f' = Frame.TEXT /\
            Frame.payload f' = wire).
  { unfold header. change (Z.shiftl (Z.land 0 1) 7) with 0. rewrite !Z.lor_0_l.
    set (c0 := byte_of_Z (Z.lor (Z.shiftl (Z.land (fin_of b0) 1) 7) (Z.land Frame.TEXT 15))).
    assert (Hc0 : opcode_of c0 = Frame.TEXT /\ fin_of c0 = fin_of b0).
    { unfold c0. destruct (fin_of_cases b0) as [-> | ->]; split; reflexivity. }
    destruct Hc0 as [Hc0 Hf0].
    destruct (Z.ltb_spec n 126) as [Hsmall | Hbig].
    - (* the 7-bit form *)
      rewrite land_127, Z.mod_small by lia.
      cbn [map app]. fold c0.
      assert (Hb1 : byte_val (byte_of_Z n) = n) by (apply byte_of_Z_val; lia).
      assert (Hl7 : len7 (byte_of_Z n) = n)
        by (unfold len7; rewrite Hb1, land_127, Z.mod_small by lia; reflexivity).
      assert (Hm : mask_of (byte_of_Z n) = 0)
        by (unfold mask_of; rewrite Hb1, land_128_small by lia; reflexivity).
      assert (He0 : length (@nil byte) = ext_size (byte_of_Z n)).
      { unfold ext_size. rewrite Hl7.
        destruct (Z.eqb_spec n 126); [lia|].
        destruct (Z.eqb_spec n 127); [lia|reflexivity]. }
      assert (Hk0 : length (@nil byte) = key_size (byte_of_Z n))
        by (unfold key_size; rewrite Hm; reflexivity).
      pose proof (decode_frame c0 (byte_of_Z n) [] [] wire He0 Hk0) as Hd2.
      cbn [app] in Hd2.
      assert (Hp2 : parsed_len (byte_of_Z n) [] = n).
      { unfold parsed_len, declared_len. rewrite Hl7.
        destruct (Z.eqb_spec n 127); [lia|].
        replace (n <? 126) with true by (symmetry; apply Z.ltb_lt; lia). reflexivity. }
      rewrite Hc0, Hp2 in Hd2. cbn [Z.eqb Frame.TEXT Pos.eqb] in Hd2.
      rewrite Hl7 in Hd2.
      replace (n =? 127) with false in Hd2 by (symmetry; apply Z.eqb_neq; lia).
      unfold n in Hd2 at 1. rewrite Z.leb_refl in Hd2. unfold n in Hd2.
      rewrite Nat2Z.id, firstn_all in Hd2.
      unfold xor_mask in Hd2. rewrite xor_mask_from_nil in Hd2.
      eexists. split; [exact Hd2|].
      cbn [parsed_frame Frame.fin Frame.opcode Frame.payload]. auto.
    - (* the 16-bit form *)
      replace (n <? 65536) with true by (symmetry; apply Z.ltb_lt; lia).
      change (hashlib.be_bytes 2 n)
        with [Z.land (Z.shiftr n (Z.of_nat 1 * 8)) 0xff;
              Z.land (Z.shiftr n (Z.of_nat 0 * 8)) 0xff].
      cbn [map app]. fold c0.
      set (hi := byte_of_Z (Z.land (Z.shiftr n (Z.of_nat 1 * 8)) 0xff)).
      set (lo := byte_of_Z (Z.land (Z.shiftr n (Z.of_nat 0 * 8)) 0xff)).
      change (byte_of_Z 126) with x7e.
      pose proof (decode_frame c0 x7e [hi; lo] [] wire eq_refl eq_refl) as Hd2.
      cbn [app] in Hd2.
      assert (Hp2 : parsed_len x7e [hi; lo] = n).
      { change (parsed_len x7e [hi; lo])
          with ((0 * 256 + byte_val hi) * 256 + byte_val lo).
        unfold hi, lo. rewrite !byte_of_Z_val
          by (rewrite land_255; apply Z.mod_pos_bound; lia).
        rewrite !land_255, !Z.shiftr_div_pow2 by lia.
        change (2 ^ (Z.of_nat 1 * 8)) with 256. change (2 ^ (Z.of_nat 0 * 8)) with 1.
        Z.div_mod_to_equations. lia. }
      rewrite Hc0, Hp2 in Hd2. cbn [Z.eqb Frame.TEXT Pos.eqb] in Hd2.
      change (len7 x7e =? 127) with false in Hd2. cbv iota in Hd2.
      unfold n in Hd2 at 1. rewrite Z.leb_refl in Hd2. unfold n in Hd2.
      rewrite Nat2Z.id, firstn_all in Hd2.
      unfold xor_mask in Hd2. rewrite xor_mask_from_nil in Hd2.
      eexists. split; [exact Hd2|].
      cbn [parsed_frame Frame.fin Frame.opcode Frame.payload]. auto. }
  destruct Hback as (f' & Hf' & Hfin & Hopc & Hpay).
  eexists. eexists. exists f'.
  split; [exact Hdec|]. cbn [parsed_frame Frame.payload Frame.fin Frame.opcode Frame.mask].
  split; [reflexivity|].
  rewrite Hmask, Hop. unfold Frame.encode. rewrite init_for_output. fold n.
  split; [reflexivity|]. cbn [Frame.data]. auto.
Qed.

(** ** Statements of a worker thread *)


Lemma M_bind_stop {A B : Type} (m : M A) (k : A -> M B) (s s' : St) (x : Exit) :
  m s = Stop x s' -> (m ≫= k) s = Stop x s'.
Proof. intros E. unfold mbind, M_bind. rewrite E. reflexivity. Qed.

Section Preserves.
Context (R : relation St) `{!PreOrder R}.

Lemma preserves_ret {A : Type} (a : A) : preserves R (mret a).
Proof. intros s. cbn. reflexivity. Qed.

Lemma preserves_bind {A B : Type} (m : M A) (k : A -> M B) :
  preserves R m -> (forall a, preserves R (k a)) -> preserves R (m ≫= k).
Proof.
  intros Hm Hk s. specialize (Hm s). unfold mbind, M_bind.
  destruct (m s) as [a s1 | x s1]; [|exact Hm].
  specialize (Hk a s1). destruct (k a s1); etransitivity; eassumption.
Qed.

Lemma preserves_get : preserves R get.
Proof. intros s. cbn. reflexivity. Qed.

Lemma preserves_break {A : Type} : preserves R (@break_ A).
Proof. intros s. cbn. reflexivity. Qed.

Lemma preserves_raise {A : Type} (e : PyExc) : preserves R (@raise_ A e).
Proof. intros s. cbn. reflexivity. Qed.

Lemma preserves_lift {A : Type} (r : result A) : preserves R (lift r).
Proof. destruct r; [apply preserves_ret | apply preserves_raise]. Qed.

Lemma preserves_modify (f : St -> St) :
  (forall s, R s (f s)) -> preserves R (modify f).
Proof. intros Hf s. cbn. apply Hf. Qed.

End Preserves.

#[global] Instance worker_order_preorder : PreOrder worker_order.
Proof.
  split.
  - intros s. split; auto.
  - intros s1 s2 s3 [Hv12 Ht12] [Hv23 Ht23]. split; auto.
Qed.

(** A change that touches neither [valid] nor [_to_thread]. *)
Lemma worker_order_same (s s' : St) :
  valid (self s') = valid (self s) -> _to_thread s' = _to_thread s ->
  worker_order s s'.
Proof. intros Hv Ht. split; congruence. Qed.

Lemma preserves_acquire : preserves worker_order acquire.
Proof. intros s. unfold acquire. destruct (_vim_lock s); split; auto. Qed.

Lemma preserves_release : preserves worker_order release.
Proof. apply preserves_modify. intros s. split; auto. Qed.

Lemma preserves_vim_command (cmd : string) : preserves worker_order (vim_command cmd).
Proof. apply preserves_modify. intros s. split; auto. Qed.

Lemma preserves_sendall (bytes : list byte) : preserves worker_order (sendall bytes).
Proof. intros s. unfold sendall. destruct (_conn (self s)); split; auto. Qed.

Lemma preserves_conn_close : preserves worker_order conn_close.
Proof. intros s. unfold conn_close. destruct (_conn (self s)); split; auto. Qed.

Lemma preserves_recv (call : RecvCall) (r : RecvResult) :
  preserves worker_order (_recv call r).
Proof.
  intros s. unfold _recv. destruct (_conn (self s)); [|split; auto].
  destruct r; split; auto.
Qed.

Create HintDb preserves.
#[local] Hint Resolve preserves_ret preserves_get preserves_break preserves_raise
  preserves_lift preserves_acquire preserves_release preserves_vim_command
  preserves_sendall preserves_conn_close preserves_recv : preserves.

(** Splits a statement into its parts, down to the primitive ones. *)
Ltac preserve :=
  repeat match goal with
  | |- preserves _ _ => progress cbv zeta
  | |- preserves _ _ => solve [eauto 3 with preserves typeclass_instances]
  | |- preserves _ (mbind _ _) =>
      apply preserves_bind; [typeclasses eauto | | intros]
  | |- preserves _ (modify _) =>
      apply preserves_modify; intros; split; cbn; auto; discriminate
  | |- preserves _ (if ?b then _ else _) => destruct b
  | |- preserves _ (match ?x with _ => _ end) => destruct x
  end.

Section ServerFacts.
Context `{lib : PyLib}.

Lemma preserves_send_text (text : string) : preserves worker_order (_send_text text).
Proof. unfold _send_text. preserve. Qed.
#[local] Hint Resolve preserves_send_text : preserves.

Lemma preserves_update_from_vim : preserves worker_order _update_from_vim.
Proof. unfold _update_from_vim. preserve. Qed.
#[local] Hint Resolve preserves_update_from_vim : preserves.

Lemma preserves_update_to_vim (string : String.string) :
  preserves worker_order (_update_to_vim string).
Proof. unfold _update_to_vim. preserve. Qed.
#[local] Hint Resolve preserves_update_to_vim : preserves.

Lemma preserves_loop_body (done_is_set : bool) (r : RecvResult) :
  preserves worker_order (loop_body done_is_set r).
Proof.
  unfold loop_body. preserve.
Qed.

Lemma preserves_serve_exit : preserves worker_order serve_exit.
Proof. unfold serve_exit. preserve. Qed.

Lemma preserves_handshake (r : RecvResult) : preserves worker_order (_handshake r).
Proof. unfold _handshake. preserve. Qed.

Lemma worker_order_end_thread (x : Exit) (s : St) : worker_order s (end_thread x s).
Proof. destruct x; split; auto. Qed.

(** One loop pass never clears [valid] and never sets [_to_thread]. *)
Lemma serve_iteration_order (done_is_set : bool) (r : RecvResult) (s : St) :
  worker_order s (serve_iteration done_is_set r s).
Proof.
  unfold serve_iteration.
  pose proof (preserves_loop_body done_is_set r s) as Hb.
  destruct (loop_body done_is_set r s) as [[] s1 | x s1]; [exact Hb|].
  destruct x; try (etransitivity; [exact Hb | apply worker_order_end_thread]).
  pose proof (preserves_serve_exit s1) as He.
  destruct (serve_exit s1) as [[] s2 | x s2];
    (etransitivity; [exact Hb | etransitivity; [exact He | apply worker_order_end_thread]]).
Qed.

Lemma serve_start_order (r : RecvResult) (s : St) : worker_order s (serve_start r s).
Proof.
  unfold serve_start.
  set (s0 := set_self _ s).
  assert (H0 : worker_order s s0) by (split; auto).
  pose proof (preserves_handshake r s0) as Hh.
  destruct (_handshake r s0) as [[] s1 | x s1].
  - etransitivity; [exact H0 | etransitivity; [exact Hh | split; auto]].
  - etransitivity; [exact H0 | etransitivity; [exact Hh | apply worker_order_end_thread]].
Qed.

End ServerFacts.

(** ** What a decoded frame looks like *)

Lemma decode_ok_inv (d : list byte) (f : Frame.t) :
  Frame.decode d = Ok f ->
  exists (b0 b1 : byte) (ext key wire p : list byte) (c : bool),
    d = b0 :: b1 :: ext ++ key ++ wire /\
    length ext = ext_size b1 /\ length key = key_size b1 /\
    f = parsed_frame b0 b1 ext key wire p c.
Proof.
  intros Hd. destruct (header_whole d) eqn:Hw.
  - destruct (header_whole_layout d Hw) as (b0 & b1 & ext & key & wire & -> & He & Hk).
    rewrite (decode_frame b0 b1 ext key wire He Hk) in Hd.
    destruct (opcode_of b0 =? Frame.TEXT).
    + destruct (len7 b1 =? 127); [discriminate|].
      destruct (parsed_len b1 ext <=? Z.of_nat (length wire)); [|discriminate].
      injection Hd as <-. eauto 12.
    + destruct (opcode_of b0 =? Frame.CLOSE); [|discriminate].
      injection Hd as <-. eauto 12.
  - rewrite (decode_header_cut d Hw) in Hd. discriminate.
Qed.

Lemma decode_ok_mask_key (d : list byte) (f : Frame.t) :
  Frame.decode d = Ok f -> exists k : Z, Frame.mask_key f = Some k.
Proof.
  intros Hd. destruct (decode_ok_inv d f Hd) as (b0 & b1 & ext & key & wire & p & c & _ & _ & _ & ->).
  eexists. reflexivity.
Qed.

(** A frame is marked closed exactly when its opcode is CLOSE. *)
Lemma decode_closed_opcode (d : list byte) (f : Frame.t) :
  Frame.decode d = Ok f -> (Frame.closed f = true <-> Frame.opcode f = Frame.CLOSE).
Proof.
  intros Hd. destruct (header_whole d) eqn:Hw.
  - destruct (header_whole_layout d Hw) as (b0 & b1 & ext & key & wire & -> & He & Hk).
    rewrite (decode_frame b0 b1 ext key wire He Hk) in Hd.
    destruct (Z.eqb_spec (opcode_of b0) Frame.TEXT) as [ET | NT].
    + destruct (len7 b1 =? 127); [discriminate|].
      destruct (parsed_len b1 ext <=? Z.of_nat (length wire)); [|discriminate].
      injection Hd as <-. cbn. rewrite ET. split; discriminate.
    + destruct (Z.eqb_spec (opcode_of b0) Frame.CLOSE) as [EC | NC]; [|discriminate].
      injection Hd as <-. cbn. rewrite EC. split; reflexivity.
  - rewrite (decode_header_cut d Hw) in Hd. discriminate.
Qed.

Lemma init_close_frame :
  Frame.__init__ None 1 Frame.CLOSE None 0 (Some 0)
  = Ok {| Frame.data := CLOSE_FRAME; Frame.fin := 1; Frame.opcode := Frame.CLOSE;
          Frame.payload := []; Frame.mask_key := Some 0; Frame.mask := 0;
          Frame.payload_len := 0; Frame.closed := false |}.
Proof. vm_compute. reflexivity. Qed.

Section ServerClaims.
Context `{lib : PyLib}.

#[local] Arguments Frame.__init__ : simpl never.
#[local] Arguments utf8_decode : simpl never.
#[local] Arguments json_dumps : simpl never.
#[local] Arguments header : simpl never.
#[local] Arguments byte_of_Z : simpl never.
#[local] Arguments Z.add : simpl never.
#[local] Arguments Z.eqb : simpl never.
#[local] Arguments serve_exit : simpl never.

(** The push: what [_update_from_vim] does on a worker that holds its
    connection while the editor lock is free. *)
Lemma update_from_vim_run (w : WebSocketServer) (tt ft : bool) (v : Vim)
    (dumped u : string) :
  _conn w = true ->
  json_dumps (outbound (join newline (buffer v))) = Some dumped ->
  utf8_decode (list_byte_of_string dumped) = Some u ->
  _update_from_vim (mkSt w tt ft v false)
  = Next ()
      (mkSt (set_peer
               (mkConn (sent (peer w)
                          ++ [map byte_of_Z
                                (header 1 Frame.TEXT 0
                                   (Z.of_nat (length (list_byte_of_string dumped))))
                                ++ list_byte_of_string dumped])
                       (conn_closed (peer w)) (recv_calls (peer w))) w)
            tt ft v false).
Proof.
  intros Hconn Hdump Hutf.
  unfold _update_from_vim, _send_text, outbound in *.
  unfold mbind, M_bind. cbn. rewrite Hdump. cbn.
  rewrite init_for_output. cbn.
  unfold Frame__str__. cbn. rewrite Hutf. cbn.
  unfold sendall. cbn. rewrite Hconn. reflexivity.
Qed.

(** C7: a push sends one message on the connection, the unmasked TEXT frame
    whose payload is the serialised object with [text], a one-element
    [selections] list with [start] and [end] at the length of the text,
    [title], [url] and [syntax]; the text is the editor's lines joined by
    newlines.  Nothing else of the worker changes. *)
Theorem C7_push_sends_one_text_frame (s : St) (dumped u : string) :
  let t := join newline (buffer (vim s)) in
  let payload := list_byte_of_string dumped in
  _vim_lock s = false ->
  _conn (self s) = true ->
  json_dumps
    (JDict [
       ("text", JStr t);
       ("selections", JList [JDict [("start", JInt (len t)); ("end", JInt (len t))]]);
       ("title", JStr "ghosttext-vim");
       ("url", JStr EmptyString);
       ("syntax", JStr EmptyString)
     ]) = Some dumped ->
  utf8_decode payload = Some u ->
  exists frame : Frame.t,
    Frame.__init__ None 1 Frame.TEXT (Some payload) 0 (Some 0) = Ok frame /\
    Frame.fin frame = 1 /\ Frame.opcode frame = Frame.TEXT /\ Frame.mask frame = 0 /\
    Frame.payload frame = payload /\
    Frame.data frame
    = map byte_of_Z (header 1 Frame.TEXT 0 (Z.of_nat (length payload))) ++ payload /\
    _update_from_vim s
    = Next ()
        (set_self
           (set_peer (mkConn (sent (peer (self s)) ++ [Frame.data frame])
                             (conn_closed (peer (self s)))
                             (recv_calls (peer (self s))))
                     (self s)) s).
Proof.
  intros t payload Hlock Hconn Hdump Hutf.
  destruct s as [w tt ft v lk]. cbn [_vim_lock self vim] in *. subst lk.
  eexists. split; [apply init_for_output|].
  cbn [Frame.fin Frame.opcode Frame.mask Frame.payload Frame.data].
  do 5 (split; [reflexivity|]).
  apply (update_from_vim_run w tt ft v dumped u Hconn Hdump Hutf).
Qed.

(** The exit statements of [serve_forever] on a worker that still holds its
    connection: one CLOSE frame, then the socket is closed. *)
Lemma serve_exit_run (s : St) :
  _conn (self s) = true ->
  serve_exit s
  = Next ()
      (mkSt (mkWS (port (self s)) (valid (self s)) false
                  (mkConn (sent (peer (self s)) ++ [CLOSE_FRAME]) true
                          (recv_calls (peer (self s))))
                  (loop (self s)) (phase (self s)))
            (_to_thread s) (_from_thread s) (vim s) (_vim_lock s)).
Proof.
  intros Hconn. unfold serve_exit, mbind, M_bind. cbn. rewrite Hconn.
  rewrite init_close_frame. cbn. unfold sendall, conn_close. cbn.
  repeat (rewrite Hconn; cbn). reflexivity.
Qed.

(** The first pass of the loop when nothing arrives in time. *)
Lemma timeout_run (w : WebSocketServer) (tt ft : bool) (v : Vim) (lk : bool) :
  _conn w = true -> loop w = 0 ->
  serve_iteration false RecvNone (mkSt w tt ft v lk)
  = mkSt (mkWS (port w) (valid w) false
               (mkConn (sent (peer w) ++ [CLOSE_FRAME]) true
                       (recv_calls (peer w) ++ [RecvTimeout 3]))
               1 Finished)
         tt ft v lk.
Proof.
  intros Hconn Hloop. unfold serve_iteration, loop_body, mbind, M_bind. cbn.
  rewrite Hloop. change (0 + 1 =? 1) with true. cbn.
  unfold _recv. cbn. rewrite Hconn. cbn.
  rewrite serve_exit_run by exact Hconn. cbn. reflexivity.
Qed.

(** A pass of the loop that receives a CLOSE frame. *)
Lemma close_frame_run (w : WebSocketServer) (tt ft : bool) (v : Vim)
    (d : list byte) (f : Frame.t) (u : string) :
  _conn w = true ->
  Frame.decode d = Ok f -> Frame.closed f = true ->
  utf8_decode (Frame.payload f) = Some u ->
  serve_iteration false (RecvData d) (mkSt w tt ft v false)
  = mkSt (mkWS (port w) (if loop w + 1 =? 1 then true else valid w) false
               (mkConn (sent (peer w)) true
                       (recv_calls (peer w)
                          ++ [if loop w + 1 =? 1 then RecvTimeout 3 else RecvNonBlocking]))
               (loop w + 1) Finished)
         tt ft (mkVim (buffer v) (commands v ++ [ECHO_CLOSED])) false.
Proof.
  intros Hconn Hdec Hclosed Hutf.
  destruct (decode_ok_mask_key d f Hdec) as [k Hk].
  unfold Frame.decode in Hdec.
  unfold serve_iteration, loop_body, mbind, M_bind. cbn.
  destruct (loop w + 1 =? 1); unfold _recv; cbn; rewrite Hconn; cbn;
    rewrite Hdec; cbn; unfold Frame__str__; cbn; rewrite Hutf, Hk; cbn;
    rewrite Hclosed; cbn; unfold conn_close; cbn; rewrite Hconn; cbn;
    unfold serve_exit, mbind, M_bind; cbn; reflexivity.
Qed.

End ServerClaims.

(** A push of the two lines [hello] and [world], with the ASCII instance of
    the library calls. *)
Lemma C7_push_sends_one_text_frame_witness :
  _vim_lock example_pusher = false /\
  _conn (self example_pusher) = true /\
  exists dumped frame,
    @json_dumps AsciiLib.lib (outbound (join newline ["hello"; "world"]))
    = Some dumped /\
    Frame.opcode frame = Frame.TEXT /\
    Frame.payload frame = list_byte_of_string dumped /\
    _update_from_vim (lib := AsciiLib.lib) example_pusher
    = Next ()
        (set_self
           (set_peer (mkConn [Frame.data frame] false [RecvBlocking; RecvTimeout 3])
                     (self example_pusher)) example_pusher).
Proof.
  split; [reflexivity|]. split; [reflexivity|].
  destruct (@json_dumps AsciiLib.lib (outbound (join newline ["hello"; "world"])))
    as [dumped|] eqn:Hd; [|vm_compute in Hd; discriminate].
  destruct (@utf8_decode AsciiLib.lib (list_byte_of_string dumped))
    as [u|] eqn:Hu;
    [|vm_compute in Hd; injection Hd as <-; vm_compute in Hu; discriminate].
  destruct (C7_push_sends_one_text_frame (lib := AsciiLib.lib) example_pusher dumped u
              eq_refl eq_refl Hd Hu) as (frame & _ & _ & Hop & _ & Hp & _ & Hrun).
  exists dumped, frame. split; [reflexivity|]. split; [exact Hop|].
  split; [exact Hp|]. exact Hrun.
Defined.

(** ** The steps of the whole plugin *)

Section WorldFacts.
Context `{lib : PyLib}.

Lemma worker_step_other (i j : nat) (r : RecvResult) (W : World) :
  j <> i -> websocks (worker_step i r W) !! j = websocks W !! j.
Proof.
  intros Hne. unfold worker_step.
  destruct (websocks W !! i) as [e|]; [|reflexivity].
  destruct (phase (sock e)); try reflexivity;
    cbn [commit websocks]; apply list_lookup_insert_ne; congruence.
Qed.

Lemma worker_step_notifier (i : nat) (r : RecvResult) (W : World) :
  notifier (worker_step i r W) = notifier W.
Proof.
  unfold worker_step. destruct (websocks W !! i) as [e|]; [|reflexivity].
  destruct (phase (sock e)); reflexivity.
Qed.

(** A thread that has left its loop runs nothing more. *)
Lemma worker_step_ended (i : nat) (r : RecvResult) (W : World) (e : Entry) :
  websocks W !! i = Some e -> phase (sock e) = Finished -> worker_step i r W = W.
Proof. intros He Hp. unfold worker_step. rewrite He, Hp. reflexivity. Qed.

(** What the step of worker [i] does to its own registry element. *)
Lemma worker_step_self (i : nat) (r : RecvResult) (W : World) (e : Entry) :
  websocks W !! i = Some e ->
  exists e' : Entry,
    websocks (worker_step i r W) !! i = Some e' /\
    (valid (sock e) = true -> valid (sock e') = true) /\
    (to_thread e' = true -> to_thread e = true).
Proof.
  intros He. pose proof (lookup_lt_Some _ _ _ He) as Hlt.
  unfold worker_step. rewrite He.
  destruct (phase (sock e)) eqn:Hp; try (exists e; rewrite He; auto).
  - cbn [commit websocks]. rewrite list_lookup_insert_eq by exact Hlt.
    eexists. split; [reflexivity|]. apply (serve_start_order r (view W e)).
  - cbn [commit websocks]. rewrite list_lookup_insert_eq by exact Hlt.
    eexists. split; [reflexivity|]. apply (serve_iteration_order (done W) r (view W e)).
Qed.

(** Every step keeps the registry elements it has, up to what a step may
    change: [valid] is never cleared. *)
Lemma step_valid_monotone (W W' : World) (j : nat) (e : Entry) :
  step W W' -> websocks W !! j = Some e -> valid (sock e) = true ->
  exists e' : Entry, websocks W' !! j = Some e' /\ valid (sock e') = true.
Proof.
  intros Hstep He Hv. pose proof (lookup_lt_Some _ _ _ He) as Hlt.
  destruct Hstep as [i r W | p W _ _ _ | W _ | k found wait W _
                    | wait found W W' _ Hw | W _ _ _].
  - destruct (decide (j = i)) as [-> | Hne].
    + destruct (worker_step_self i r W e He) as (e' & He' & Hvv & _). eauto.
    + exists e. rewrite worker_step_other by exact Hne. auto.
  - exists e. cbn [do_GET websocks]. rewrite lookup_app_l by exact Hlt. auto.
  - exists e. unfold GhostNotify_enter. destruct (running W); auto.
  - unfold GhostNotify_visit.
    destruct (websocks W !! k) as [ws|] eqn:Hk; [|eauto].
    destruct (valid (sock ws)); [|eauto].
    destruct (truthy (found + 1)); [|eauto].
    cbn [websocks]. destruct (decide (j = k)) as [-> | Hne].
    + rewrite list_lookup_insert_eq by exact Hlt. eexists. split; [reflexivity|].
      cbn [sock]. congruence.
    + rewrite list_lookup_insert_ne by congruence. eauto.
  - unfold GhostNotify_wait in Hw. destruct wait as [|k rest].
    + injection Hw as <-. eauto.
    + destruct (websocks W !! k) as [ws|] eqn:Hk; [|discriminate].
      destruct (from_thread ws); [|discriminate]. injection Hw as <-.
      cbn [websocks]. destruct (decide (j = k)) as [-> | Hne].
      * rewrite list_lookup_insert_eq by exact Hlt. eexists. split; [reflexivity|].
        cbn [sock]. congruence.
      * rewrite list_lookup_insert_ne by congruence. eauto.
  - eauto.
Qed.

(** [GhostNotify] signals no worker that is not [valid], and the worker
    threads set no [to_thread] event. *)
Lemma step_unsignalled (W W' : World) : step W W' -> unsignalled W -> unsignalled W'.
Proof.
  intros Hstep [Hev Hwait].
  assert (Hmono : forall j, j ∈ wait_set (notifier W) ->
            exists e, websocks W' !! j = Some e /\ valid (sock e) = true).
  { intros j Hj. destruct (Hwait j Hj) as (e & He & Hv).
    apply (step_valid_monotone W W' j e Hstep He Hv). }
  destruct Hstep as [i r W | p W _ _ _ | W _ | k found wait W Hn
                    | wait found W W' Hn Hw | W _ _ _].
  - split; [|rewrite worker_step_notifier; exact Hmono].
    intros j e' He' Hv'. destruct (decide (j = i)) as [-> | Hne].
    + destruct (websocks W !! i) as [e|] eqn:He.
      * destruct (worker_step_self i r W e He) as (e2 & He2 & Hvv & Htt).
        rewrite He2 in He'. injection He' as ->.
        assert (Hv : valid (sock e) = false).
        { destruct (valid (sock e)); [|reflexivity].
          rewrite Hvv in Hv' by reflexivity. discriminate. }
        pose proof (Hev i e He Hv) as Ht.
        destruct (to_thread e') eqn:Ht'; [|reflexivity].
        rewrite Htt in Ht by reflexivity. discriminate.
      * unfold worker_step in He'. rewrite He in He'. congruence.
    + rewrite worker_step_other in He' by exact Hne. apply (Hev j e' He' Hv').
  - split; [|exact Hmono].
    intros j e' He' Hv'. cbn [do_GET websocks] in He'.
    apply lookup_app_Some in He'. destruct He' as [He' | [_ He']].
    + apply (Hev j e' He' Hv').
    + destruct (j - length (websocks W))%nat as [|n]; [|destruct n; discriminate].
      injection He' as <-. reflexivity.
  - unfold GhostNotify_enter. destruct (running W).
    + split; [exact Hev|]. cbn [notifier wait_set]. intros j Hj.
      apply elem_of_nil in Hj. contradiction.
    + split; [exact Hev|exact Hwait].
  - rewrite Hn in Hwait, Hmono. cbn [wait_set] in Hwait, Hmono.
    unfold GhostNotify_visit in *.
    destruct (websocks W !! k) as [ws|] eqn:Hk; [|split; [exact Hev|exact Hwait]].
    destruct (valid (sock ws)) eqn:Hvk; [|split; [exact Hev|exact Hwait]].
    destruct (truthy (found + 1)); [|split; [exact Hev|exact Hwait]].
    pose proof (lookup_lt_Some _ _ _ Hk) as Hlt.
    unfold unsignalled. cbn [websocks notifier wait_set]. split.
    + intros j e' He' Hv'. destruct (decide (j = k)) as [-> | Hne].
      * rewrite list_lookup_insert_eq in He' by exact Hlt. injection He' as <-.
        cbn [sock] in Hv'. congruence.
      * rewrite list_lookup_insert_ne in He' by congruence. apply (Hev j e' He' Hv').
    + intros j Hj. apply elem_of_app in Hj. destruct Hj as [Hj | Hj].
      * apply Hmono. exact Hj.
      * apply list_elem_of_singleton in Hj. subst j.
        rewrite list_lookup_insert_eq by exact Hlt. eexists. split; [reflexivity|].
        exact Hvk.
  - rewrite Hn in Hwait, Hmono. cbn [wait_set] in Hwait, Hmono.
    unfold GhostNotify_wait in Hw. destruct wait as [|k rest].
    + injection Hw as <-. split; [exact Hev|]. cbn [notifier wait_set].
      intros j Hj. apply elem_of_nil in Hj. contradiction.
    + destruct (websocks W !! k) as [ws|] eqn:Hk; [|discriminate].
      destruct (from_thread ws); [|discriminate]. injection Hw as <-.
      pose proof (lookup_lt_Some _ _ _ Hk) as Hlt.
      unfold unsignalled. cbn [websocks notifier wait_set]. split.
      * intros j e' He' Hv'. destruct (decide (j = k)) as [-> | Hne].
        -- rewrite list_lookup_insert_eq in He' by exact Hlt. injection He' as <-.
           cbn [sock to_thread] in *. apply (Hev k ws Hk Hv').
        -- rewrite list_lookup_insert_ne in He' by congruence.
           apply (Hev j e' He' Hv').
      * intros j Hj. apply Hmono. apply elem_of_cons. right. exact Hj.
  - split; [exact Hev|exact Hwait].
Qed.

Lemma start_unsignalled (v : Vim) : unsignalled (GhostStart v).
Proof.
  split.
  - intros j e He. cbn in He. rewrite lookup_nil in He. discriminate.
  - intros j Hj. cbn in Hj. apply elem_of_nil in Hj. contradiction.
Qed.

Lemma reachable_unsignalled (W W' : World) :
  rtc step W W' -> unsignalled W -> unsignalled W'.
Proof.
  induction 1 as [|W1 W2 W3 Hstep _ IH]; [auto|].
  intros Hinv. apply IH. apply (step_unsignalled W1 W2 Hstep Hinv).
Qed.

(** A worker that has left its loop without becoming [valid] stays so. *)
Lemma step_retired (i : nat) (W W' : World) :
  step W W' -> unsignalled W -> retired i W -> retired i W'.
Proof.
  intros Hstep [Hev Hwait] (e & He & Hv & Hp).
  pose proof (lookup_lt_Some _ _ _ He) as Hlt.
  assert (Hnot : i ∉ wait_set (notifier W)).
  { intros Hin. destruct (Hwait i Hin) as (e2 & He2 & Hv2). congruence. }
  exists e.
  destruct Hstep as [j r W | p W _ _ _ | W _ | k found wait W Hn
                    | wait found W W' Hn Hw | W _ _ _].
  - destruct (decide (i = j)) as [<- | Hne].
    + rewrite (worker_step_ended i r W e He Hp). auto.
    + rewrite worker_step_other by exact Hne. auto.
  - cbn [do_GET websocks]. rewrite lookup_app_l by exact Hlt. auto.
  - unfold GhostNotify_enter. destruct (running W); auto.
  - unfold GhostNotify_visit.
    destruct (websocks W !! k) as [ws|] eqn:Hk; [|auto].
    destruct (valid (sock ws)) eqn:Hvk; [|auto].
    destruct (truthy (found + 1)); [|auto].
    cbn [websocks]. rewrite list_lookup_insert_ne by congruence. auto.
  - rewrite Hn in Hnot. cbn [wait_set] in Hnot.
    unfold GhostNotify_wait in Hw. destruct wait as [|k rest].
    + injection Hw as <-. auto.
    + destruct (websocks W !! k) as [ws|] eqn:Hk; [|discriminate].
      destruct (from_thread ws); [|discriminate]. injection Hw as <-.
      cbn [websocks]. rewrite list_lookup_insert_ne; [auto|].
      intros ->. apply Hnot. apply elem_of_cons. left. reflexivity.
  - auto.
Qed.

Lemma reachable_retired (i : nat) (W W' : World) :
  rtc step W W' -> unsignalled W -> retired i W ->
  unsignalled W' /\ retired i W'.
Proof.
  induction 1 as [|W1 W2 W3 Hstep _ IH]; [auto|].
  intros Hinv Hret. apply IH.
  - apply (step_unsignalled W1 W2 Hstep Hinv).
  - apply (step_retired i W1 W2 Hstep Hinv Hret).
Qed.

End WorldFacts.

(** ** The claims on the connection loop and on [GhostNotify] *)

Section LoopClaims.
Context `{lib : PyLib}.

(** C1, amended: a worker in its loop that receives a CLOSE frame (whose
    payload, as received, decodes as UTF-8 for the debug rendering, and with
    the editor lock free) echoes the message in the editor, closes its
    socket and leaves the loop; it sends nothing on the connection, no
    CLOSE frame either; it runs no further pass; every other registry
    element is as before. *)
Theorem C1_close_frame_ends_worker_without_reply (W : World) (i : nat) (e : Entry)
    (d : list byte) (f : Frame.t) (u : string) :
  websocks W !! i = Some e ->
  phase (sock e) = Looping -> _conn (sock e) = true ->
  done W = false -> vim_lock W = false ->
  Frame.decode d = Ok f -> Frame.closed f = true ->
  utf8_decode (Frame.payload f) = Some u ->
  let W' := worker_step i (RecvData d) W in
  exists e' : Entry,
    websocks W' !! i = Some e' /\
    phase (sock e') = Finished /\
    conn_closed (peer (sock e')) = true /\
    _conn (sock e') = false /\
    sent (peer (sock e')) = sent (peer (sock e)) /\
    w_vim W' = mkVim (buffer (w_vim W)) (commands (w_vim W) ++ [ECHO_CLOSED]) /\
    (forall j : nat, j <> i -> websocks W' !! j = websocks W !! j) /\
    (forall r : RecvResult, worker_step i r W' = W').
Proof.
  intros He Hp Hconn Hdone Hlock Hdec Hclosed Hutf W'.
  pose proof (lookup_lt_Some _ _ _ He) as Hlt.
  assert (HW' : W' = commit i W (serve_iteration false (RecvData d) (view W e))).
  { unfold W', worker_step. rewrite He, Hp, Hdone. reflexivity. }
  destruct e as [w tt ft]. cbn [sock] in *. unfold view in HW'. cbn [sock to_thread from_thread] in HW'.
  rewrite Hlock, (close_frame_run w tt ft (w_vim W) d f u Hconn Hdec Hclosed Hutf) in HW'.
  assert (Hi : websocks W' !! i
               = Some (mkEntry
                   (mkWS (port w) (if loop w + 1 =? 1 then true else valid w) false
                      (mkConn (sent (peer w)) true
                         (recv_calls (peer w)
                            ++ [if loop w + 1 =? 1 then RecvTimeout 3 else RecvNonBlocking]))
                      (loop w + 1) Finished) tt ft)).
  { rewrite HW'. cbn [commit websocks self _to_thread _from_thread].
    apply list_lookup_insert_eq. exact Hlt. }
  eexists. split; [exact Hi|]. cbn [sock phase peer conn_closed _conn sent].
  do 4 (split; [reflexivity|]).
  split; [rewrite HW'; reflexivity|].
  split.
  - intros j Hj. apply worker_step_other. exact Hj.
  - intros r. apply (worker_step_ended i r W' _ Hi). reflexivity.
Qed.

(** C6: a worker whose first receive, the one with the three-second wait,
    returns nothing leaves its loop with [valid] still false (and is sent
    one CLOSE frame before its socket is closed); from then on, whatever
    the plugin does, it stays not [valid], its [to_thread] event is never
    set and it is never in the wait list of [GhostNotify]; in every world
    the plugin reaches no worker that is not [valid] is signalled; and no
    step of the plugin turns [valid] from true to false. *)
Theorem C6_timed_out_worker_never_signalled (v : Vim) (W : World) (i : nat) (e : Entry) :
  rtc step (GhostStart v) W ->
  websocks W !! i = Some e ->
  phase (sock e) = Looping -> loop (sock e) = 0 -> valid (sock e) = false ->
  _conn (sock e) = true -> done W = false ->
  let W1 := worker_step i RecvNone W in
  (exists e1 : Entry,
     websocks W1 !! i = Some e1 /\
     valid (sock e1) = false /\ phase (sock e1) = Finished /\
     recv_calls (peer (sock e1)) = recv_calls (peer (sock e)) ++ [RecvTimeout 3] /\
     sent (peer (sock e1)) = sent (peer (sock e)) ++ [CLOSE_FRAME] /\
     conn_closed (peer (sock e1)) = true) /\
  (forall W2 : World,
     rtc step W1 W2 ->
     unsignalled W2 /\
     exists e2 : Entry,
       websocks W2 !! i = Some e2 /\ valid (sock e2) = false /\
       to_thread e2 = false /\ i ∉ wait_set (notifier W2)) /\
  (forall (Wa Wb : World) (j : nat) (ea : Entry),
     step Wa Wb -> websocks Wa !! j = Some ea -> valid (sock ea) = true ->
     exists eb : Entry, websocks Wb !! j = Some eb /\ valid (sock eb) = true).
Proof.
  intros Hreach He Hp Hloop Hv Hconn Hdone W1.
  pose proof (lookup_lt_Some _ _ _ He) as Hlt.
  pose proof (reachable_unsignalled _ _ Hreach (start_unsignalled v)) as HinvW.
  assert (HW1 : W1 = commit i W (serve_iteration false RecvNone (view W e))).
  { unfold W1, worker_step. rewrite He, Hp, Hdone. reflexivity. }
  destruct e as [w tt ft]. cbn [sock] in *. unfold view in HW1.
  cbn [sock to_thread from_thread] in HW1.
  rewrite (timeout_run w tt ft (w_vim W) (vim_lock W) Hconn Hloop) in HW1.
  assert (Hi : websocks W1 !! i
               = Some (mkEntry
                   (mkWS (port w) (valid w) false
                      (mkConn (sent (peer w) ++ [CLOSE_FRAME]) true
                              (recv_calls (peer w) ++ [RecvTimeout 3]))
                      1 Finished) tt ft)).
  { rewrite HW1. cbn [commit websocks self _to_thread _from_thread].
    apply list_lookup_insert_eq. exact Hlt. }
  assert (HinvW1 : unsignalled W1).
  { apply (step_unsignalled W W1); [apply step_worker | exact HinvW]. }
  assert (Hret : retired i W1).
  { eexists. split; [exact Hi|]. cbn [sock valid phase]. auto. }
  split; [|split].
  - eexists. split; [exact Hi|]. cbn [sock valid phase peer recv_calls sent conn_closed].
    auto.
  - intros W2 Hsteps.
    destruct (reachable_retired i W1 W2 Hsteps HinvW1 Hret)
      as [[Hev Hwait] (e2 & He2 & Hv2 & _)].
    split; [split; assumption|].
    exists e2. split; [exact He2|]. split; [exact Hv2|].
    split; [apply (Hev i e2 He2 Hv2)|].
    intros Hin. destruct (Hwait i Hin) as (e3 & He3 & Hv3). congruence.
  - intros Wa Wb j ea. apply step_valid_monotone.
Qed.

End LoopClaims.

(** C1 as stated fails: in the example session the worker that receives the
    CLOSE frame [88 00] ends and closes its socket, and the connection has
    been sent no CLOSE frame. *)
Lemma C1_close_frame_gets_no_reply :
  exists e' : Entry,
    websocks (worker_step (lib := AsciiLib.lib) 0 (RecvData [x88; x00]) world_connected)
      !! 0%nat = Some e' /\
    phase (sock e') = Finished /\
    conn_closed (peer (sock e')) = true /\
    close_frames_sent (peer (sock e')) = 0%nat /\
    close_frames_sent (peer (sock e')) <> 1%nat.
Proof.
  eexists. split; [vm_compute; reflexivity|].
  split; [reflexivity|]. split; [reflexivity|].
  split; [vm_compute; reflexivity|]. vm_compute. discriminate.
Qed.

(** The example session is one the plugin reaches. *)
Lemma world_connected_reachable :
  rtc (step (lib := AsciiLib.lib)) (GhostStart example_vim) world_connected.
Proof.
  eapply rtc_l.
  - apply (step_do_GET 60001); [reflexivity | reflexivity | lia].
  - eapply rtc_l; [|apply rtc_refl].
    apply (step_worker 0 (RecvData (list_byte_of_string example_request))).
Qed.

(** The example session, when GhostText sends the CLOSE frame [88 00]. *)
Lemma C1_close_frame_ends_worker_without_reply_witness :
  exists (e : Entry) (f : Frame.t) (u : string),
    websocks world_connected !! 0%nat = Some e /\
    phase (sock e) = Looping /\ _conn (sock e) = true /\
    done world_connected = false /\ vim_lock world_connected = false /\
    Frame.decode [x88; x00] = Ok f /\ Frame.closed f = true /\
    @utf8_decode AsciiLib.lib (Frame.payload f) = Some u /\
    exists e' : Entry,
      websocks (worker_step (lib := AsciiLib.lib) 0 (RecvData [x88; x00]) world_connected)
        !! 0%nat = Some e' /\
      phase (sock e') = Finished /\
      sent (peer (sock e')) = sent (peer (sock e)).
Proof.
  eexists. eexists. eexists.
  split; [vm_compute; reflexivity|].
  split; [reflexivity|]. split; [reflexivity|].
  split; [reflexivity|]. split; [reflexivity|].
  split; [vm_compute; reflexivity|]. split; [reflexivity|].
  split; [vm_compute; reflexivity|].
  match goal with
  | |- context [sent (peer (sock ?e))] =>
      destruct (C1_close_frame_ends_worker_without_reply (lib := AsciiLib.lib)
                  world_connected 0 e [x88; x00] _ _
                  ltac:(vm_compute; reflexivity) eq_refl eq_refl eq_refl eq_refl
                  ltac:(vm_compute; reflexivity) eq_refl ltac:(vm_compute; reflexivity))
        as (e' & He' & Hp & _ & _ & Hs & _)
  end.
  exists e'. split; [exact He'|]. split; [exact Hp|exact Hs].
Defined.

(** The example session, when GhostText sends nothing after the handshake. *)
Lemma C6_timed_out_worker_never_signalled_witness :
  exists e : Entry,
    rtc (step (lib := AsciiLib.lib)) (GhostStart example_vim) world_connected /\
    websocks world_connected !! 0%nat = Some e /\
    phase (sock e) = Looping /\ loop (sock e) = 0 /\ valid (sock e) = false /\
    _conn (sock e) = true /\ done world_connected = false /\
    forall W2 : World,
      rtc (step (lib := AsciiLib.lib))
          (worker_step (lib := AsciiLib.lib) 0 RecvNone world_connected) W2 ->
      exists e2 : Entry,
        websocks W2 !! 0%nat = Some e2 /\ valid (sock e2) = false /\
        to_thread e2 = false /\ 0%nat ∉ wait_set (notifier W2).
Proof.
  eexists.
  split; [exact world_connected_reachable|].
  split; [vm_compute; reflexivity|].
  split; [reflexivity|]. split; [reflexivity|]. split; [reflexivity|].
  split; [reflexivity|]. split; [reflexivity|].
  intros W2 Hsteps.
  match goal with
  | |- _ =>
      destruct (C6_timed_out_worker_never_signalled (lib := AsciiLib.lib)
                  example_vim world_connected 0 _
                  world_connected_reachable
                  ltac:(vm_compute; reflexivity) eq_refl eq_refl eq_refl eq_refl eq_refl)
        as (_ & Hnever & _)
  end.
  exact (proj2 (Hnever W2 Hsteps)).
Defined.

(** * Further properties of the code *)

(** ** The frame codec *)

Lemma land_pow2_bit (x n : Z) :
  0 <= n -> Z.land x (2 ^ n) = if Z.testbit x n then 2 ^ n else 0.
Proof.
  intros Hn. apply Z.bits_inj'. intros m Hm. rewrite Z.land_spec.
  destruct (Z.eq_dec m n) as [-> | Hne].
  - rewrite Z.pow2_bits_true by lia. rewrite andb_true_r.
    destruct (Z.testbit x n) eqn:E; [rewrite Z.pow2_bits_true by lia|rewrite Z.bits_0];
      reflexivity.
  - rewrite Z.pow2_bits_false by congruence. rewrite andb_false_r.
    destruct (Z.testbit x n); [rewrite Z.pow2_bits_false by congruence|rewrite Z.bits_0];
      reflexivity.
Qed.

(** The first header byte [_set_data] writes carries [fin & 1] in its top
    bit and [opcode & 0xf] in its low four. *)
Lemma header_byte0 (fin opcode : Z) :
  let c0 := byte_of_Z (Z.lor (Z.shiftl (Z.land fin 0x1) 7) (Z.land opcode 0xf)) in
  opcode_of c0 = Z.land opcode 0xf /\ fin_of c0 = Z.land fin 0x1.
Proof.
  intros c0.
  assert (Ho : 0 <= Z.land opcode 0xf < 16)
    by (rewrite land_15; apply Z.mod_pos_bound; lia).
  assert (Hf : 0 <= Z.land fin 0x1 < 2)
    by (rewrite land_1; apply Z.mod_pos_bound; lia).
  assert (Hv : byte_val c0 = Z.land opcode 0xf + Z.land fin 0x1 * 128).
  { unfold c0. rewrite byte_of_Z_val by (apply flag_byte_range; lia).
    rewrite Z.lor_comm.
    apply (lor_shiftl_add (Z.land opcode 0xf) (Z.land fin 0x1) 7); lia. }
  split.
  - unfold opcode_of. rewrite Hv. rewrite (land_15 (_ + _)).
    Z.div_mod_to_equations. lia.
  - unfold fin_of, py_bool. rewrite Hv.
    change 0x80 with (2 ^ 7). rewrite land_pow2_bit by lia.
    rewrite Z.testbit_odd, Z.shiftr_div_pow2 by lia.
    change (2 ^ 7) with 128.
    assert (Hq : (Z.land opcode 0xf + Z.land fin 0x1 * 128) / 128 = Z.land fin 0x1)
      by (Z.div_mod_to_equations; lia).
    rewrite Hq.
    assert (Hc : Z.land fin 0x1 = 0 \/ Z.land fin 0x1 = 1) by lia.
    destruct Hc as [-> | ->]; reflexivity.
Qed.

Lemma be_bytes_succ (k : nat) (n : Z) :
  hashlib.be_bytes (S k) n
  = Z.land (Z.shiftr n (Z.of_nat k * 8)) 0xff :: hashlib.be_bytes k n.
Proof.
  unfold hashlib.be_bytes. rewrite seq_S, rev_app_distr. reflexivity.
Qed.

Lemma be_value_cons (b : byte) (bs : list byte) :
  be_value (b :: bs) = byte_val b * 256 ^ Z.of_nat (length bs) + be_value bs.
Proof.
  unfold be_value at 1. cbn [fold_left]. rewrite fold_be_acc. lia.
Qed.

(** The length bytes [_set_data] writes hold the low [8 k] bits of the
    length, most significant byte first. *)
Lemma be_value_be_bytes (k : nat) (n : Z) :
  0 <= n ->
  be_value (map byte_of_Z (hashlib.be_bytes k n)) = n mod 256 ^ Z.of_nat k.
Proof.
  intros Hn. induction k as [|k IH].
  - cbn. rewrite Z.mod_1_r. reflexivity.
  - rewrite be_bytes_succ. cbn [map]. rewrite be_value_cons, IH.
    rewrite length_map.
    assert (Hlen : length (hashlib.be_bytes k n) = k)
      by (unfold hashlib.be_bytes; rewrite length_map, length_rev, length_seq; reflexivity).
    rewrite Hlen.
    rewrite byte_of_Z_val by (rewrite land_255; apply Z.mod_pos_bound; lia).
    rewrite land_255, Z.shiftr_div_pow2 by lia.
    assert (Hp : 2 ^ (Z.of_nat k * 8) = 256 ^ Z.of_nat k).
    { change 256 with (2 ^ 8). rewrite <- Z.pow_mul_r by lia. f_equal. lia. }
    rewrite Hp, Nat2Z.inj_succ, Z.pow_succ_r by lia.
    assert (Hpos : 0 < 256 ^ Z.of_nat k) by (apply Z.pow_pos_nonneg; lia).
    rewrite (Z.mul_comm 256), Z.rem_mul_r by lia. lia.
Qed.

Lemma be_bytes_length (k : nat) (n : Z) : length (hashlib.be_bytes k n) = k.
Proof.
  unfold hashlib.be_bytes. rewrite length_map, length_rev, length_seq. reflexivity.
Qed.

(** The layout of the bytes of a frame built for output. *)
Lemma encode_layout_aux (fin opcode : Z) (payload : list byte) :
  Z.of_nat (length payload) < 2 ^ 64 ->
  exists (b0 b1 : byte) (ext : list byte),
    map byte_of_Z (header fin opcode 0 (Z.of_nat (length payload))) = b0 :: b1 :: ext /\
    length ext = ext_size b1 /\ mask_of b1 = 0 /\
    declared_len b1 ext = Z.of_nat (length payload) /\
    opcode_of b0 = Z.land opcode 0xf /\ fin_of b0 = Z.land fin 0x1 /\
    (len7 b1 = 127 <-> 65536 <= Z.of_nat (length payload)).
Proof.
  intros Hlen. set (n := Z.of_nat (length payload)) in *.
  assert (Hn : 0 <= n) by lia.
  destruct (header_byte0 fin opcode) as [Hop Hfin]. cbv zeta in Hop, Hfin.
  unfold header. change (Z.shiftl (Z.land 0 1) 7) with 0. rewrite !Z.lor_0_l.
  destruct (Z.ltb_spec n 126) as [H7 | H7].
  - (* the 7-bit form *)
    rewrite land_127, Z.mod_small by lia. cbn [map].
    assert (Hb1 : byte_val (byte_of_Z n) = n) by (apply byte_of_Z_val; lia).
    assert (Hl7 : len7 (byte_of_Z n) = n)
      by (unfold len7; rewrite Hb1, land_127, Z.mod_small by lia; reflexivity).
    eexists _, (byte_of_Z n), []. split; [reflexivity|].
    split; [|split; [|split; [|split; [exact Hop|split; [exact Hfin|]]]]].
    + unfold ext_size. rewrite Hl7.
      destruct (Z.eqb_spec n 126); [lia|]. destruct (Z.eqb_spec n 127); [lia|reflexivity].
    + unfold mask_of. rewrite Hb1, land_128_small by lia. reflexivity.
    + unfold declared_len. rewrite Hl7.
      replace (n <? 126) with true by (symmetry; apply Z.ltb_lt; lia). reflexivity.
    + rewrite Hl7. lia.
  - destruct (Z.ltb_spec n 65536) as [H16 | H16].
    + (* the 16-bit form *)
      cbn [map]. change (byte_of_Z 126) with x7e.
      eexists _, x7e, (map byte_of_Z (hashlib.be_bytes 2 n)). split; [reflexivity|].
      split; [|split; [|split; [|split; [exact Hop|split; [exact Hfin|]]]]].
      * rewrite length_map, be_bytes_length. reflexivity.
      * reflexivity.
      * change (declared_len x7e (map byte_of_Z (hashlib.be_bytes 2 n)))
          with (be_value (map byte_of_Z (hashlib.be_bytes 2 n))).
        rewrite be_value_be_bytes by lia. apply Z.mod_small.
        change (256 ^ Z.of_nat 2) with 65536. lia.
      * change (len7 x7e) with 126. lia.
    + (* the 64-bit form *)
      cbn [map]. change (byte_of_Z 127) with x7f.
      eexists _, x7f, (map byte_of_Z (hashlib.be_bytes 8 n)). split; [reflexivity|].
      split; [|split; [|split; [|split; [exact Hop|split; [exact Hfin|]]]]].
      * rewrite length_map, be_bytes_length. reflexivity.
      * reflexivity.
      * change (declared_len x7f (map byte_of_Z (hashlib.be_bytes 8 n)))
          with (be_value (map byte_of_Z (hashlib.be_bytes 8 n))).
        rewrite be_value_be_bytes by lia. apply Z.mod_small.
        change (256 ^ Z.of_nat 8) with (2 ^ 64). lia.
      * change (len7 x7f) with 127. lia.
Qed.

(** X1: a frame built for output with [mask = 0] is laid out as the
    protocol asks: two header bytes with [fin & 1] and [opcode & 0xf], the
    mask bit clear, the extended length of the size byte 1 announces, a
    declared length equal to the number of payload bytes, then the payload
    itself; the 64-bit form is used from 65536 bytes on. *)
Theorem X1_encoded_frame_layout (fin opcode : Z) (payload : list byte) :
  Z.of_nat (length payload) < 2 ^ 64 ->
  exists (f : Frame.t) (b0 b1 : byte) (ext : list byte),
    Frame.encode fin opcode 0 payload = Ok f /\
    Frame.data f = b0 :: b1 :: ext ++ payload /\
    length ext = ext_size b1 /\ mask_of b1 = 0 /\
    declared_len b1 ext = Z.of_nat (length payload) /\
    opcode_of b0 = Z.land opcode 0xf /\ fin_of b0 = Z.land fin 0x1 /\
    (len7 b1 = 127 <-> 65536 <= Z.of_nat (length payload)).
Proof.
  intros Hlen.
  destruct (encode_layout_aux fin opcode payload Hlen)
    as (b0 & b1 & ext & Hh & He & Hm & Hd & Ho & Hf & H64).
  unfold Frame.encode. rewrite init_for_output.
  eexists _, b0, b1, ext. split; [reflexivity|]. cbn [Frame.data].
  rewrite Hh. auto 10.
Qed.

(** A TEXT frame of 200 bytes: the 16-bit form. *)
Lemma X1_encoded_frame_layout_witness :
  Z.of_nat (length (repeat x41 200)) < 2 ^ 64 /\
  exists f : Frame.t,
    Frame.encode 1 Frame.TEXT 0 (repeat x41 200) = Ok f /\
    Frame.data f = x81 :: x7e :: [x00; xc8] ++ repeat x41 200.
Proof.
  split; [vm_compute; reflexivity|].
  destruct (X1_encoded_frame_layout 1 Frame.TEXT (repeat x41 200)
              ltac:(vm_compute; reflexivity)) as (f & _ & _ & _ & Hf & _).
  exists f. split; [exact Hf|].
  vm_compute in Hf. injection Hf as <-. reflexivity.
Defined.

(** X2: what the encoder builds the decoder reads back.  A TEXT frame of
    fewer than 65536 payload bytes, and a CLOSE frame of any size, built
    with [mask = 0], decode to the same opcode and payload, with [fin & 1]
    as [fin] and [closed] set exactly for CLOSE. *)
Theorem X2_encode_then_decode (fin opcode : Z) (payload : list byte) :
  (opcode = Frame.TEXT /\ Z.of_nat (length payload) < 65536) \/
  (opcode = Frame.CLOSE /\ Z.of_nat (length payload) < 2 ^ 64) ->
  exists g f : Frame.t,
    Frame.encode fin opcode 0 payload = Ok g /\
    Frame.decode (Frame.data g) = Ok f /\
    Frame.payload f = payload /\ Frame.opcode f = opcode /\
    Frame.fin f = Z.land fin 0x1 /\ Frame.mask f = 0 /\
    Frame.closed f = (opcode =? Frame.CLOSE).
Proof.
  intros Hcase.
  assert (Hlen : Z.of_nat (length payload) < 2 ^ 64) by (destruct Hcase; lia).
  destruct (encode_layout_aux fin opcode payload Hlen)
    as (b0 & b1 & ext & Hh & He & Hm & Hd & Ho & Hf & H64).
  unfold Frame.encode. rewrite init_for_output.
  assert (Hk : length (@nil byte) = key_size b1)
    by (unfold key_size; rewrite Hm; reflexivity).
  pose proof (decode_frame b0 b1 ext [] payload He Hk) as Hdec.
  cbn [app] in Hdec.
  destruct Hcase as [[-> Hsmall] | [-> _]].
  - change (Z.land Frame.TEXT 15) with Frame.TEXT in Ho.
    assert (Hp : parsed_len b1 ext = Z.of_nat (length payload)).
    { unfold parsed_len. destruct (Z.eqb_spec (len7 b1) 127); [lia|exact Hd]. }
    rewrite Ho, Hp in Hdec. cbn [Z.eqb Frame.TEXT Pos.eqb] in Hdec.
    replace (len7 b1 =? 127) with false in Hdec by (symmetry; apply Z.eqb_neq; lia).
    rewrite Z.leb_refl, Nat2Z.id, firstn_all in Hdec.
    unfold xor_mask in Hdec. rewrite xor_mask_from_nil in Hdec.
    eexists _, _. split; [reflexivity|]. cbn [Frame.data]. rewrite Hh.
    split; [exact Hdec|].
    cbn [parsed_frame Frame.payload Frame.opcode Frame.fin Frame.mask Frame.closed].
    auto 10.
  - change (Z.land Frame.CLOSE 15) with Frame.CLOSE in Ho.
    rewrite Ho in Hdec. cbn [Z.eqb Frame.TEXT Frame.CLOSE Pos.eqb] in Hdec.
    eexists _, _. split; [reflexivity|]. cbn [Frame.data]. rewrite Hh.
    split; [exact Hdec|].
    cbn [parsed_frame Frame.payload Frame.opcode Frame.fin Frame.mask Frame.closed].
    auto 10.
Qed.

(** The CLOSE frame the server sends, and a short TEXT frame. *)
Lemma X2_encode_then_decode_witness :
  (Frame.CLOSE = Frame.CLOSE /\ Z.of_nat (length (@nil byte)) < 2 ^ 64 /\
   exists g f : Frame.t,
     Frame.encode 1 Frame.CLOSE 0 [] = Ok g /\ Frame.data g = CLOSE_FRAME /\
     Frame.decode (Frame.data g) = Ok f /\ Frame.closed f = true) /\
  (Frame.TEXT = Frame.TEXT /\ Z.of_nat (length [x68; x69]) < 65536 /\
   exists g f : Frame.t,
     Frame.encode 1 Frame.TEXT 0 [x68; x69] = Ok g /\
     Frame.decode (Frame.data g) = Ok f /\ Frame.payload f = [x68; x69]).
Proof.
  split.
  - split; [reflexivity|]. split; [vm_compute; reflexivity|].
    assert (Hc0 : Frame.CLOSE = Frame.CLOSE /\ Z.of_nat (length (@nil byte)) < 2 ^ 64)
      by (split; [reflexivity|vm_compute; reflexivity]).
    destruct (X2_encode_then_decode 1 Frame.CLOSE [] (or_intror Hc0))
      as (g & f & Hg & Hf & _ & _ & _ & _ & Hc).
    exists g, f. split; [exact Hg|]. split; [|split; [exact Hf|exact Hc]].
    vm_compute in Hg. injection Hg as <-. reflexivity.
  - split; [reflexivity|]. split; [vm_compute; reflexivity|].
    assert (Ht0 : Frame.TEXT = Frame.TEXT /\ Z.of_nat (length [x68; x69]) < 65536)
      by (split; [reflexivity|vm_compute; reflexivity]).
    destruct (X2_encode_then_decode 1 Frame.TEXT [x68; x69] (or_introl Ht0))
      as (g & f & Hg & Hf & Hp & _).
    exists g, f. auto.
Defined.

Lemma key_octet_range_any (key : list byte) (i : nat) : 0 <= key_octet key i < 256.
Proof.
  unfold key_octet. destruct (key !! (i mod 4)%nat); [apply byte_val_range|lia].
Qed.

(** Masking twice with the same key gives the bytes back. *)
Lemma xor_mask_from_involutive (key p : list byte) :
  forall start : nat, xor_mask_from key start (xor_mask_from key start p) = p.
Proof.
  induction p as [|b p IH]; intros start; [reflexivity|].
  cbn [xor_mask_from]. rewrite IH. f_equal.
  rewrite byte_of_Z_val
    by (apply lxor_byte_range; [apply byte_val_range|apply key_octet_range_any]).
  rewrite Z.lxor_assoc, Z.lxor_nilpotent, Z.lxor_0_r. apply byte_of_Z_byte_val.
Qed.

(** X3: the decoder undoes the masking of the sender.  A TEXT frame with the
    mask bit set whose payload bytes are [p] XORed with the key, each byte
    at index [i] with key byte [i mod 4], and which declares the length of
    [p] in the 7-bit or 16-bit form, decodes to the payload [p]. *)
Theorem X3_decode_undoes_masking (b0 b1 : byte) (ext key p : list byte) :
  length ext = ext_size b1 -> length key = key_size b1 ->
  mask_of b1 = 1 -> opcode_of b0 = Frame.TEXT -> len7 b1 <> 127 ->
  declared_len b1 ext = Z.of_nat (length p) ->
  exists f : Frame.t,
    Frame.decode (b0 :: b1 :: ext ++ key ++ xor_mask key p) = Ok f /\
    Frame.payload f = p /\ Frame.payload_len f = Z.of_nat (length p).
Proof.
  intros He Hk Hm Ho H127 Hd.
  assert (Hp : parsed_len b1 ext = Z.of_nat (length p)).
  { unfold parsed_len. destruct (Z.eqb_spec (len7 b1) 127); [contradiction|exact Hd]. }
  rewrite (decode_frame b0 b1 ext key (xor_mask key p) He Hk), Ho, Hp.
  cbn [Z.eqb Frame.TEXT Pos.eqb].
  replace (len7 b1 =? 127) with false by (symmetry; apply Z.eqb_neq; exact H127).
  unfold xor_mask at 1. rewrite xor_mask_from_length, Z.leb_refl.
  eexists. split; [reflexivity|]. cbn [parsed_frame Frame.payload Frame.payload_len].
  split; [|exact Hp].
  rewrite Nat2Z.id. rewrite <- (xor_mask_from_length key p 0) at 1.
  unfold xor_mask. rewrite firstn_all. apply xor_mask_from_involutive.
Qed.

(** The text [Hello] as a browser sends it, masked with [37 fa 21 3d]. *)
Lemma X3_decode_undoes_masking_witness :
  length (@nil byte) = ext_size x85 /\ length [x37; xfa; x21; x3d] = key_size x85 /\
  mask_of x85 = 1 /\ opcode_of x81 = Frame.TEXT /\ len7 x85 <> 127 /\
  declared_len x85 [] = Z.of_nat (length [x48; x65; x6c; x6c; x6f]) /\
  exists f : Frame.t,
    Frame.decode [x81; x85; x37; xfa; x21; x3d; x7f; x9f; x4d; x51; x58] = Ok f /\
    Frame.payload f = [x48; x65; x6c; x6c; x6f].
Proof.
  do 4 (split; [reflexivity|]). split; [vm_compute; discriminate|].
  split; [reflexivity|].
  destruct (X3_decode_undoes_masking x81 x85 [] [x37; xfa; x21; x3d]
              [x48; x65; x6c; x6c; x6f]
              eq_refl eq_refl eq_refl eq_refl ltac:(vm_compute; discriminate) eq_refl)
    as (f & Hf & Hp & _).
  exists f. split; [exact Hf|exact Hp].
Defined.

(** X4: the decoder reads one frame and nothing after it.  Whatever bytes
    follow the declared payload of a TEXT frame in the buffer that was
    received, a second frame for instance, the frame that is decoded is
    that of the first frame alone: the payload and every parsed field,
    [payload_len], [fin], [opcode], [mask], [mask_key] and [closed], are
    the same, and only [data], which keeps the whole buffer, holds the
    bytes that follow.  The frame is one of the 7-bit or the 16-bit length
    form, the forms in which a TEXT frame is decoded at all. *)
Theorem X4_bytes_after_frame_dropped (b0 b1 : byte) (ext key wire extra : list byte) :
  length ext = ext_size b1 -> length key = key_size b1 ->
  opcode_of b0 = Frame.TEXT -> len7 b1 <> 127 ->
  parsed_len b1 ext = Z.of_nat (length wire) ->
  exists f f' : Frame.t,
    Frame.decode (b0 :: b1 :: ext ++ key ++ wire) = Ok f /\
    Frame.decode (b0 :: b1 :: ext ++ key ++ wire ++ extra) = Ok f' /\
    Frame.payload f' = Frame.payload f /\
    Frame.payload_len f' = Frame.payload_len f /\
    Frame.fin f' = Frame.fin f /\ Frame.opcode f' = Frame.opcode f /\
    Frame.mask f' = Frame.mask f /\ Frame.mask_key f' = Frame.mask_key f /\
    Frame.closed f' = Frame.closed f /\
    Frame.data f' = Frame.data f ++ extra /\
    length (Frame.payload f') = length wire.
Proof.
  intros He Hk Ho H127 Hp.
  rewrite (decode_frame b0 b1 ext key wire He Hk).
  rewrite (decode_frame b0 b1 ext key (wire ++ extra) He Hk).
  rewrite Ho, Hp. cbn [Z.eqb Frame.TEXT Pos.eqb].
  replace (len7 b1 =? 127) with false by (symmetry; apply Z.eqb_neq; exact H127).
  rewrite Z.leb_refl.
  replace (Z.of_nat (length wire) <=? Z.of_nat (length (wire ++ extra))) with true
    by (symmetry; apply Z.leb_le; rewrite length_app; lia).
  eexists _, _. split; [reflexivity|]. split; [reflexivity|].
  cbn [parsed_frame Frame.payload Frame.payload_len Frame.fin Frame.opcode Frame.mask
       Frame.mask_key Frame.closed Frame.data].
  rewrite Nat2Z.id, firstn_all, take_app_length.
  do 7 (split; [reflexivity|]).
  split; [cbn [app]; rewrite <- !app_assoc; reflexivity|].
  unfold xor_mask. apply xor_mask_from_length.
Qed.

(** Two unmasked TEXT frames [a] and [b] received in one buffer. *)
Lemma X4_bytes_after_frame_dropped_witness :
  length (@nil byte) = ext_size x01 /\ length (@nil byte) = key_size x01 /\
  opcode_of x81 = Frame.TEXT /\ len7 x01 <> 127 /\
  parsed_len x01 [] = Z.of_nat (length [x61]) /\
  exists f' : Frame.t,
    Frame.decode [x81; x01; x61; x81; x01; x62] = Ok f' /\ Frame.payload f' = [x61] /\
    Frame.payload_len f' = 1.
Proof.
  do 3 (split; [reflexivity|]). split; [vm_compute; discriminate|].
  split; [reflexivity|].
  destruct (X4_bytes_after_frame_dropped x81 x01 [] [] [x61] [x81; x01; x62]
              eq_refl eq_refl eq_refl ltac:(vm_compute; discriminate) eq_refl)
    as (f & f' & Hf & Hf' & Hp & Hl & _).
  exists f'. split; [exact Hf'|]. rewrite Hp, Hl.
  vm_compute in Hf. injection Hf as <-. split; reflexivity.
Defined.

(** X5: what every decoded frame satisfies.  Its [data] is the input; its
    opcode is TEXT or CLOSE and [closed] is set exactly for CLOSE; [fin] and
    [mask] are 0 or 1; [mask_key] is an integer below [2 ^ 32], zero when
    the mask bit is clear; [payload_len] is not negative, and a TEXT frame
    has exactly [payload_len] payload bytes. *)
Theorem X5_decoded_frame_invariants (d : list byte) (f : Frame.t) :
  Frame.decode d = Ok f ->
  Frame.data f = d /\
  (Frame.opcode f = Frame.TEXT \/ Frame.opcode f = Frame.CLOSE) /\
  (Frame.closed f = true <-> Frame.opcode f = Frame.CLOSE) /\
  (Frame.fin f = 0 \/ Frame.fin f = 1) /\
  (Frame.mask f = 0 \/ Frame.mask f = 1) /\
  (exists k : Z, Frame.mask_key f = Some k /\ 0 <= k < 2 ^ 32 /\
                 (Frame.mask f = 0 -> k = 0)) /\
  0 <= Frame.payload_len f /\
  (Frame.opcode f = Frame.TEXT ->
   Z.of_nat (length (Frame.payload f)) = Frame.payload_len f).
Proof.
  intros Hd. pose proof (decode_closed_opcode d f Hd) as Hclosed.
  destruct (header_whole d) eqn:Hw;
    [|rewrite (decode_header_cut d Hw) in Hd; discriminate].
  destruct (header_whole_layout d Hw) as (b0 & b1 & ext & key & wire & -> & He & Hk).
  rewrite (decode_frame b0 b1 ext key wire He Hk) in Hd.
  assert (Hkey : 0 <= le_value key < 2 ^ 32 /\ (mask_of b1 = 0 -> le_value key = 0)).
  { pose proof (le_value_range key) as Hr. rewrite Hk in Hr. unfold key_size in *.
    unfold mask_of, py_bool in *. destruct (Z.land (byte_val b1) 128 =? 0).
    - cbn in Hk. destruct key; [|discriminate]. cbn. split; [lia|reflexivity].
    - cbn in Hr. split; [exact Hr|discriminate]. }
  assert (Hm : mask_of b1 = 0 \/ mask_of b1 = 1)
    by (unfold mask_of, py_bool; destruct (_ =? 0); auto).
  pose proof (fin_of_cases b0) as Hf. pose proof (parsed_len_nonneg b1 ext) as Hnn.
  destruct (Z.eqb_spec (opcode_of b0) Frame.TEXT) as [ET | NT].
  - destruct (len7 b1 =? 127); [discriminate|].
    destruct (Z.leb_spec (parsed_len b1 ext) (Z.of_nat (length wire))); [|discriminate].
    injection Hd as <-.
    cbn [parsed_frame Frame.data Frame.opcode Frame.closed Frame.fin Frame.mask
         Frame.mask_key Frame.payload_len Frame.payload] in *.
    split; [reflexivity|]. split; [auto|]. split; [exact Hclosed|].
    split; [exact Hf|]. split; [exact Hm|]. split; [eauto|]. split; [exact Hnn|].
    intros _. unfold xor_mask. rewrite xor_mask_from_length, length_take_le by lia. lia.
  - destruct (Z.eqb_spec (opcode_of b0) Frame.CLOSE) as [EC | NC]; [|discriminate].
    injection Hd as <-.
    cbn [parsed_frame Frame.data Frame.opcode Frame.closed Frame.fin Frame.mask
         Frame.mask_key Frame.payload_len Frame.payload] in *.
    split; [reflexivity|]. split; [auto|]. split; [exact Hclosed|].
    split; [exact Hf|]. split; [exact Hm|]. split; [eauto|]. split; [exact Hnn|].
    intros Habs. congruence.
Qed.

(** A masked CLOSE frame with a status code. *)
Lemma X5_decoded_frame_invariants_witness :
  exists f : Frame.t,
    Frame.decode [x88; x82; x01; x02; x03; x04; x02; xea] = Ok f /\
    Frame.opcode f = Frame.CLOSE /\ Frame.closed f = true /\
    Frame.mask_key f = Some 0x04030201.
Proof.
  eexists. split; [vm_compute; reflexivity|].
  match goal with
  | |- Frame.opcode ?f = _ /\ _ =>
      pose proof (X5_decoded_frame_invariants
                    [x88; x82; x01; x02; x03; x04; x02; xea] f
                    ltac:(vm_compute; reflexivity)) as (_ & _ & Hc & _)
  end.
  split; [reflexivity|]. split; [apply Hc; reflexivity|reflexivity].
Defined.

(** X6: the decoder fails in three ways only.  With [IndexError], on an
    input that ends inside its header or on a TEXT frame of the 7-bit or the
    16-bit length form that holds fewer payload bytes than [payload_len];
    with [OverflowError], on a TEXT frame of the 64-bit length form whose
    header is whole; and with [Exception(opcode)], for an opcode from 0 to
    15 other than TEXT and CLOSE. *)
Theorem X6_decode_errors (d : list byte) (e : PyExc) :
  Frame.decode d = Raise e ->
  (e = IndexError /\
   (header_whole d = false \/
    exists (b0 b1 : byte) (ext key wire : list byte),
      d = b0 :: b1 :: ext ++ key ++ wire /\
      length ext = ext_size b1 /\ length key = key_size b1 /\
      opcode_of b0 = Frame.TEXT /\ len7 b1 <> 127 /\
      Z.of_nat (length wire) < parsed_len b1 ext)) \/
  (e = OverflowError /\ header_whole d = true /\
   exists (b0 b1 : byte) (rest : list byte),
     d = b0 :: b1 :: rest /\ opcode_of b0 = Frame.TEXT /\ len7 b1 = 127) \/
  (exists op : Z,
     e = Exception_ (ArgInt op) /\ 0 <= op < 16 /\ op <> Frame.TEXT /\ op <> Frame.CLOSE /\
     exists (b0 : byte) (rest : list byte), d = b0 :: rest /\ opcode_of b0 = op).
Proof.
  intros Hd. destruct (header_whole d) eqn:Hw.
  - destruct (header_whole_layout d Hw) as (b0 & b1 & ext & key & wire & -> & He & Hk).
    rewrite (decode_frame b0 b1 ext key wire He Hk) in Hd.
    destruct (Z.eqb_spec (opcode_of b0) Frame.TEXT) as [ET | NT].
    + destruct (Z.eqb_spec (len7 b1) 127) as [E127 | N127].
      * injection Hd as <-. right. left. split; [reflexivity|]. split; [reflexivity|].
        eauto 8.
      * destruct (Z.leb_spec (parsed_len b1 ext) (Z.of_nat (length wire))); [discriminate|].
        injection Hd as <-. left. split; [reflexivity|]. right.
        exists b0, b1, ext, key, wire. auto 8.
    + destruct (Z.eqb_spec (opcode_of b0) Frame.CLOSE) as [EC | NC]; [discriminate|].
      injection Hd as <-. right. right. exists (opcode_of b0).
      split; [reflexivity|]. split; [|eauto 6].
      unfold opcode_of. rewrite (land_15 (byte_val b0)). apply Z.mod_pos_bound. lia.
  - rewrite (decode_header_cut d Hw) in Hd. injection Hd as <-. auto.
Qed.

(** A PING frame (opcode 9), an empty input, and a TEXT frame of the 64-bit
    length form that holds the five bytes it declares. *)
Lemma X6_decode_errors_witness :
  Frame.decode [x89; x00] = Raise (Exception_ (ArgInt 9)) /\
  Frame.decode [] = Raise IndexError /\
  Frame.decode [x81; x7f; x00; x00; x00; x00; x00; x00; x00; x05;
                x41; x42; x43; x44; x45] = Raise OverflowError /\
  (exists op : Z,
     Exception_ (ArgInt 9) = Exception_ (ArgInt op) /\ 0 <= op < 16 /\
     op <> Frame.TEXT /\ op <> Frame.CLOSE /\
     exists (b0 : byte) (rest : list byte), [x89; x00] = b0 :: rest /\ opcode_of b0 = op).
Proof.
  split; [reflexivity|]. split; [reflexivity|]. split; [reflexivity|].
  destruct (X6_decode_errors [x89; x00] (Exception_ (ArgInt 9)) eq_refl)
    as [[Habs _] | [[Habs _] | H]]; [discriminate Habs | discriminate Habs | exact H].
Defined.

(** X7: building a frame for output fails exactly when [mask] is not zero,
    whatever [fin], [opcode] and the payload are: every header byte is in
    range, and the mask test reads the whole integer, so that [mask = 2],
    whose header bit is clear, fails too. *)
Theorem X7_encode_fails_iff_mask_nonzero :
  (forall (fin opcode mask : Z) (payload : list byte),
     is_ok (Frame.encode fin opcode mask payload) = (mask =? 0)) /\
  Z.land 2 0x1 = 0 /\
  Frame.encode 1 Frame.TEXT 2 [x41] = Raise (Exception_ (ArgStr "TODO")).
Proof.
  split; [apply encode_raises_iff|]. split; reflexivity.
Qed.

(** ** Lines and texts *)

Lemma split_nonempty (c : ascii) (s : string) : split c s <> [].
Proof.
  destruct s as [|a s]; [discriminate|]. cbn [split].
  destruct (Ascii.eqb a c); [discriminate|]. destruct (split c s); discriminate.
Qed.

Lemma join_cons (sep x : string) (l : list string) :
  l <> [] -> join sep (x :: l) = String.append x (String.append sep (join sep l)).
Proof. destruct l; [contradiction|reflexivity]. Qed.

Lemma join_split (t : string) : join newline (split "010"%char t) = t.
Proof.
  induction t as [|a t IH]; [reflexivity|]. cbn [split].
  destruct (Ascii.eqb_spec a "010"%char) as [-> | Hne].
  - rewrite join_cons by apply split_nonempty. rewrite IH. reflexivity.
  - pose proof (split_nonempty "010"%char t) as Hs.
    destruct (split "010"%char t) as [|x xs]; [contradiction|].
    destruct xs as [|y ys].
    + cbn [join] in *. rewrite IH. reflexivity.
    + rewrite join_cons in IH by discriminate. rewrite join_cons by discriminate.
      cbn [String.append]. rewrite IH. reflexivity.
Qed.

Lemma split_line (x : string) :
  has_newline x = false -> split "010"%char x = [x].
Proof.
  induction x as [|a x IH]; [reflexivity|]. cbn [has_newline split].
  intros H. apply orb_false_iff in H. destruct H as [Ha Hx].
  rewrite Ha, (IH Hx). reflexivity.
Qed.

Lemma split_line_more (x rest : string) :
  has_newline x = false ->
  split "010"%char (String.append x (String.append newline rest))
  = x :: split "010"%char rest.
Proof.
  induction x as [|a x IH]; [reflexivity|]. cbn [has_newline]. intros H.
  apply orb_false_iff in H. destruct H as [Ha Hx].
  cbn [String.append split]. rewrite Ha, (IH Hx). reflexivity.
Qed.

Lemma split_join (lines : list string) :
  lines <> [] -> forallb (fun x => negb (has_newline x)) lines = true ->
  split "010"%char (join newline lines) = lines.
Proof.
  induction lines as [|x lines IH]; [contradiction|]. intros _ Hall.
  cbn [forallb] in Hall. apply andb_true_iff in Hall. destruct Hall as [Hx Hall].
  apply negb_true_iff in Hx.
  destruct lines as [|y lines].
  - cbn [join]. apply split_line. exact Hx.
  - rewrite join_cons by discriminate. rewrite split_line_more by exact Hx.
    rewrite IH by (discriminate || exact Hall). reflexivity.
Qed.

(** X8: the text of the editor and its lines.  The lines [_update_to_vim]
    puts into the buffer for a text, joined again as [_update_from_vim]
    joins them, give that text for every text; and a buffer of at least one
    line, none of which holds a newline, is given back by splitting its
    joined text. *)
Theorem X8_lines_and_text (t : string) (lines : list string) :
  join newline (split "010"%char t) = t /\
  split "010"%char t <> [] /\
  (lines <> [] -> forallb (fun x => negb (has_newline x)) lines = true ->
   split "010"%char (join newline lines) = lines).
Proof.
  split; [apply join_split|]. split; [apply split_nonempty|apply split_join].
Qed.

(** A text that ends in a newline, and a buffer with an empty line. *)
Lemma X8_lines_and_text_witness :
  split "010"%char (String.append "ab" newline) = ["ab"; EmptyString] /\
  ["a"; EmptyString; "b"] <> [] /\
  forallb (fun x => negb (has_newline x)) ["a"; EmptyString; "b"] = true /\
  split "010"%char (join newline ["a"; EmptyString; "b"]) = ["a"; EmptyString; "b"].
Proof.
  split; [reflexivity|]. split; [discriminate|]. split; [reflexivity|].
  exact (proj2 (proj2 (X8_lines_and_text EmptyString ["a"; EmptyString; "b"]))
           ltac:(discriminate) eq_refl).
Defined.

(** ** Properties of the state that the statements of a worker keep *)

Section Keeps.
Context (P : St -> Prop) (E : Exit -> St -> Prop).

Lemma keeps_ret {A : Type} (a : A) : keeps P E (mret a).
Proof. intros s Hs. exact Hs. Qed.

Lemma keeps_bind {A B : Type} (m : M A) (k : A -> M B) :
  keeps P E m -> (forall a, keeps P E (k a)) -> keeps P E (m ≫= k).
Proof.
  intros Hm Hk s Hs. specialize (Hm s Hs). unfold mbind, M_bind.
  destruct (m s) as [a s1 | x s1]; [|exact Hm]. apply Hk, Hm.
Qed.

Lemma keeps_get : keeps P E get.
Proof. intros s Hs. exact Hs. Qed.

Lemma keeps_break {A : Type} :
  (forall s, P s -> E Break s) -> keeps P E (@break_ A).
Proof. intros HE s Hs. apply HE, Hs. Qed.

Lemma keeps_raise {A : Type} (e : PyExc) :
  (forall s, P s -> E (Raised e) s) -> keeps P E (@raise_ A e).
Proof. intros HE s Hs. apply HE, Hs. Qed.

Lemma keeps_lift {A : Type} (r : result A) :
  (forall e s, P s -> E (Raised e) s) -> keeps P E (lift r).
Proof. intros HE. destruct r; [apply keeps_ret | apply keeps_raise, HE]. Qed.

Lemma keeps_lift_ok {A B : Type} (a : A) (k : A -> M B) :
  keeps P E (k a) -> keeps P E (lift (Ok a) ≫= k).
Proof. intros Hk s Hs. apply (Hk s Hs). Qed.

Lemma keeps_modify (f : St -> St) :
  (forall s, P s -> P (f s)) -> keeps P E (modify f).
Proof. intros Hf s Hs. apply Hf, Hs. Qed.

End Keeps.

(** *** The connection of a worker in its loop *)

Lemma close_frames_sent_app (c : Conn) (bytes : list byte) (b : bool) (calls : list RecvCall) :
  close_frames_sent (mkConn (sent c ++ [bytes]) b calls)
  = (close_frames_sent c + (if decide (bytes = CLOSE_FRAME) then 1 else 0))%nat.
Proof.
  unfold close_frames_sent. cbn [sent]. rewrite filter_app, length_app.
  f_equal. rewrite filter_cons, filter_nil. destruct (decide (bytes = CLOSE_FRAME)); reflexivity.
Qed.

Lemma conn_exit_open (p : Phase) (x : Exit) (s : St) : in_phase p s -> conn_exit x s.
Proof. intros [_ H]. destruct x; cbn; auto. Qed.

Lemma keeps_open_acquire (p : Phase) : keeps (in_phase p) conn_exit acquire.
Proof.
  intros s Hs. unfold acquire. destruct (_vim_lock s); [apply (conn_exit_open p)|]; exact Hs.
Qed.

Lemma keeps_open_release (p : Phase) : keeps (in_phase p) conn_exit release.
Proof. apply keeps_modify. intros s Hs. exact Hs. Qed.

Lemma keeps_open_vim_command (p : Phase) (cmd : string) :
  keeps (in_phase p) conn_exit (vim_command cmd).
Proof. apply keeps_modify. intros s Hs. exact Hs. Qed.

Lemma keeps_open_recv (p : Phase) (call : RecvCall) (r : RecvResult) :
  keeps (in_phase p) conn_exit (_recv call r).
Proof.
  intros s (Hp & Hc & Hcl & Hn). unfold _recv. rewrite Hc.
  assert (Ho : in_phase p
                 (set_self (set_peer (mkConn (sent (peer (self s)))
                                        (conn_closed (peer (self s)))
                                        (recv_calls (peer (self s)) ++ [call])) (self s)) s))
    by (repeat split; assumption).
  destruct r; [exact Ho | exact Ho | apply (conn_exit_open p); exact Ho].
Qed.

Lemma keeps_open_sendall (p : Phase) (bytes : list byte) :
  bytes <> CLOSE_FRAME ->
  keeps (in_phase p) conn_exit (sendall bytes).
Proof.
  intros Hne s (Hp & Hc & Hcl & Hn). unfold sendall. rewrite Hc.
  repeat split; try assumption. cbn [self set_self peer set_peer].
  rewrite close_frames_sent_app, Hn. destruct (decide (bytes = CLOSE_FRAME)); [contradiction|].
  reflexivity.
Qed.

(** [self._conn.close(); self._conn = None; break] leaves the loop with the
    socket closed. *)
Lemma keeps_open_close_break (p : Phase) {A : Type} :
  keeps (in_phase p) conn_exit (conn_close ≫= fun _ => @break_ A).
Proof.
  intros s (Hp & Hc & Hcl & Hn). unfold mbind, M_bind, conn_close. rewrite Hc. cbn.
  right. repeat split. exact Hn.
Qed.

(** *** A lock that was left taken *)

Lemma keeps_lock_acquire (b : list string) {A : Type} (k : unit -> M A) :
  keeps (lock_held b) (fun _ => lock_held b) (acquire ≫= k).
Proof.
  intros s Hs. unfold mbind, M_bind, acquire. rewrite (proj1 Hs). exact Hs.
Qed.

Lemma keeps_lock_vim_command (b : list string) (cmd : string) :
  keeps (lock_held b) (fun _ => lock_held b) (vim_command cmd).
Proof. apply keeps_modify. intros s Hs. exact Hs. Qed.

Lemma keeps_lock_recv (b : list string) (call : RecvCall) (r : RecvResult) :
  keeps (lock_held b) (fun _ => lock_held b) (_recv call r).
Proof.
  intros s Hs. unfold _recv. destruct (_conn (self s)); [|exact Hs].
  destruct r; exact Hs.
Qed.

Lemma keeps_lock_sendall (b : list string) (bytes : list byte) :
  keeps (lock_held b) (fun _ => lock_held b) (sendall bytes).
Proof. intros s Hs. unfold sendall. destruct (_conn (self s)); exact Hs. Qed.

Lemma keeps_lock_conn_close (b : list string) :
  keeps (lock_held b) (fun _ => lock_held b) conn_close.
Proof. intros s Hs. unfold conn_close. destruct (_conn (self s)); exact Hs. Qed.

Create HintDb keeps.
#[local] Hint Resolve keeps_ret keeps_get keeps_open_acquire keeps_open_release
  keeps_open_vim_command keeps_open_recv keeps_open_close_break
  keeps_lock_acquire keeps_lock_vim_command keeps_lock_recv keeps_lock_sendall
  keeps_lock_conn_close conn_exit_open : keeps.

(** Splits a statement into its parts, as [preserve] does. *)
Ltac keep :=
  repeat match goal with
  | |- keeps _ _ _ => progress cbv zeta
  | |- keeps _ _ _ => solve [eauto 3 with keeps]
  | |- keeps _ _ (break_) => apply keeps_break; intros; eauto 3 with keeps
  | |- keeps _ _ (raise_ _) => apply keeps_raise; intros; eauto 3 with keeps
  | |- keeps _ _ (lift _) => apply keeps_lift; intros; eauto 3 with keeps
  | |- keeps _ _ (mbind _ _) => apply keeps_bind; [ | intros]
  | |- keeps _ _ (modify _) => apply keeps_modify; intros ? ?; assumption
  | |- keeps _ _ (if ?b then _ else _) => destruct b
  | |- keeps _ _ (match ?x with _ => _ end) => destruct x
  end.

Section ServerKeeps.
Context `{lib : PyLib}.

Lemma text_frame_not_close (p : list byte) :
  map byte_of_Z (header 1 Frame.TEXT 0 (Z.of_nat (length p))) ++ p <> CLOSE_FRAME.
Proof.
  unfold header. cbv zeta.
  destruct (Z.of_nat (length p) <? 126); [|destruct (Z.of_nat (length p) <? 65536)];
    cbn [map app]; intros H; injection H as H _; vm_compute in H; discriminate.
Qed.

Lemma keeps_open_send_text (p : Phase) (text : string) :
  keeps (in_phase p) conn_exit (_send_text text).
Proof.
  unfold _send_text. cbv zeta. apply keeps_bind; [keep|]. intros dumped.
  rewrite init_for_output. apply keeps_lift_ok.
  apply keeps_bind; [keep|]. intros _.
  apply keeps_open_sendall, text_frame_not_close.
Qed.
#[local] Hint Resolve keeps_open_send_text : keeps.

Lemma keeps_open_update_from_vim (p : Phase) :
  keeps (in_phase p) conn_exit _update_from_vim.
Proof. unfold _update_from_vim. keep. Qed.
#[local] Hint Resolve keeps_open_update_from_vim : keeps.

Lemma keeps_open_update_to_vim (p : Phase) (string : String.string) :
  keeps (in_phase p) conn_exit (_update_to_vim string).
Proof. unfold _update_to_vim. keep. Qed.
#[local] Hint Resolve keeps_open_update_to_vim : keeps.




Lemma keeps_lock_send_text (b : list string) (text : string) :
  keeps (lock_held b) (fun _ => lock_held b) (_send_text text).
Proof. unfold _send_text. keep. Qed.

Lemma keeps_lock_update_from_vim (b : list string) :
  keeps (lock_held b) (fun _ => lock_held b) _update_from_vim.
Proof. unfold _update_from_vim. keep. Qed.
#[local] Hint Resolve keeps_lock_update_from_vim : keeps.

Lemma keeps_lock_update_to_vim (b : list string) (string : String.string) :
  keeps (lock_held b) (fun _ => lock_held b) (_update_to_vim string).
Proof. unfold _update_to_vim. keep. Qed.
#[local] Hint Resolve keeps_lock_update_to_vim : keeps.

(** No pass of the loop releases a lock it finds taken, nor writes to the
    buffer. *)
Lemma keeps_lock_loop_body (b : list string) (done_is_set : bool) (r : RecvResult) :
  keeps (lock_held b) (fun _ => lock_held b) (loop_body done_is_set r).
Proof. unfold loop_body. keep. Qed.

Lemma keeps_lock_handshake (b : list string) (r : RecvResult) :
  keeps (lock_held b) (fun _ => lock_held b) (_handshake r).
Proof. unfold _handshake. keep. Qed.

Lemma serve_exit_lock (s : St) :
  match serve_exit s with
  | Next _ s' => _vim_lock s' = _vim_lock s /\ vim s' = vim s
  | Stop _ s' => _vim_lock s' = _vim_lock s /\ vim s' = vim s
  end.
Proof.
  destruct (_conn (self s)) eqn:Hc.
  - rewrite serve_exit_run by exact Hc. split; reflexivity.
  - unfold serve_exit, mbind, M_bind. cbn. rewrite Hc. split; reflexivity.
Qed.

Lemma end_thread_lock (b : list string) (x : Exit) (s : St) :
  lock_held b s -> lock_held b (end_thread x s).
Proof. destruct x; intros H; exact H. Qed.

Lemma serve_iteration_lock (b : list string) (done_is_set : bool) (r : RecvResult) (s : St) :
  lock_held b s -> lock_held b (serve_iteration done_is_set r s).
Proof.
  intros Hs. unfold serve_iteration.
  pose proof (keeps_lock_loop_body b done_is_set r s Hs) as Hb.
  destruct (loop_body done_is_set r s) as [[] s1 | x s1]; [exact Hb|].
  cbv beta in Hb.
  destruct x; try (apply end_thread_lock; exact Hb).
  pose proof (serve_exit_lock s1) as He. destruct Hb as [Hb1 Hb2].
  destruct (serve_exit s1) as [[] s2 | x s2]; destruct He as [He1 He2];
    apply end_thread_lock; split; congruence.
Qed.

Lemma serve_start_lock (b : list string) (r : RecvResult) (s : St) :
  lock_held b s -> lock_held b (serve_start r s).
Proof.
  intros Hs. unfold serve_start.
  set (s0 := set_self _ s).
  pose proof (keeps_lock_handshake b r s0 Hs) as Hh.
  destruct (_handshake r s0) as [[] s1 | x s1]; [exact Hh|].
  apply end_thread_lock. exact Hh.
Qed.





End ServerKeeps.

(** ** Sockets, the lock and the notifier over the runs of the plugin *)

Section WorldKeeps.
Context `{lib : PyLib}.

Lemma worker_step_stopped (i : nat) (r : RecvResult) (W : World) (e : Entry) :
  websocks W !! i = Some e -> ended (phase (sock e)) = true -> worker_step i r W = W.
Proof.
  intros He Hp. unfold worker_step. rewrite He.
  destruct (phase (sock e)); (discriminate || reflexivity).
Qed.




(** One step under a lock that is taken: the lock stays taken, the buffer
    keeps its lines, no connection is accepted and [GhostStop] does not run. *)
Lemma step_lock_held (W W' : World) :
  step W W' -> vim_lock W = true ->
  vim_lock W' = true /\ buffer (w_vim W') = buffer (w_vim W) /\
  done W' = done W /\ running W' = running W /\
  length (websocks W') = length (websocks W).
Proof.
  intros Hstep Hl.
  destruct Hstep as [i r W | p W _ Hf _ | W _ | k found wait W Hn
                    | wait found W W' Hn Hw | W _ _ Hf]; try congruence.
  - unfold worker_step. destruct (websocks W !! i) as [e|] eqn:He; [|auto].
    assert (Hv : lock_held (buffer (w_vim W)) (view W e)) by (split; [exact Hl|reflexivity]).
    destruct (phase (sock e)); auto.
    + destruct (serve_start_lock _ r _ Hv) as [H1 H2].
      cbn [commit vim_lock w_vim done running websocks].
      rewrite length_insert. auto.
    + destruct (serve_iteration_lock _ (done W) r _ Hv) as [H1 H2].
      cbn [commit vim_lock w_vim done running websocks].
      rewrite length_insert. auto.
  - unfold GhostNotify_enter. destruct (running W); auto.
  - unfold GhostNotify_visit.
    destruct (websocks W !! k) as [ws|]; [|auto].
    destruct (valid (sock ws)); [|auto].
    destruct (truthy (found + 1)); [|auto].
    cbn [vim_lock w_vim done running websocks]. rewrite length_insert. auto.
  - unfold GhostNotify_wait in Hw. destruct wait as [|k rest].
    + injection Hw as <-. auto.
    + destruct (websocks W !! k) as [ws|]; [|discriminate].
      destruct (from_thread ws); [|discriminate]. injection Hw as <-.
      cbn [vim_lock w_vim done running websocks]. rewrite length_insert. auto.
Qed.

(** X10: a lock that a thread has left taken is never released.  From a
    world in which the editor lock is taken between two steps, every run of
    the plugin keeps it taken; the buffer is not written again, the HTTP
    thread accepts no further connection, and [GhostStop] never gets to set
    [done]. *)
Theorem X10_leaked_lock_stays (W W' : World) :
  rtc step W W' ->
  vim_lock W = true ->
  vim_lock W' = true /\ buffer (w_vim W') = buffer (w_vim W) /\
  done W' = done W /\ running W' = running W /\
  length (websocks W') = length (websocks W).
Proof.
  induction 1 as [|W1 W2 W3 Hstep _ IH]; [auto|]. intros Hl.
  destruct (step_lock_held W1 W2 Hstep Hl) as (H1 & H2 & H3 & H4 & H5).
  destruct (IH H1) as (I1 & I2 & I3 & I4 & I5).
  repeat split; congruence.
Qed.

Lemma truthy_succ (found : Z) : 0 <= found -> truthy (found + 1) = true.
Proof. intros H. unfold truthy. destruct (Z.eqb_spec (found + 1) 0); [lia|reflexivity]. Qed.

(** One step of a run in which [GhostNotify] waits, or will wait, for a
    worker whose thread has stopped. *)
Lemma step_stuck_on (i : nat) (W W' : World) :
  step W W' -> stuck_on i W -> stuck_on i W'.
Proof.
  intros Hstep (Hw & e & He & Hv & Hp & Hf).
  pose proof (lookup_lt_Some _ _ _ He) as Hlt.
  destruct Hstep as [j r W | p W _ _ _ | W Hn | k found wait W Hn
                    | wait found W W' Hn Hwait | W Hn _ _].
  - destruct (decide (j = i)) as [-> | Hne].
    + rewrite (worker_step_stopped i r W e He Hp). split; [exact Hw|eauto].
    + split; [rewrite worker_step_notifier; exact Hw|].
      exists e. rewrite worker_step_other by congruence. auto.
  - split; [exact Hw|]. exists e. cbn [do_GET websocks].
    rewrite lookup_app_l by exact Hlt. auto.
  - rewrite Hn in Hw. contradiction.
  - rewrite Hn in Hw. destruct Hw as [Hfound Hin]. unfold GhostNotify_visit.
    destruct (websocks W !! k) as [ws|] eqn:Hk.
    + destruct (valid (sock ws)) eqn:Hvk.
      * rewrite truthy_succ by exact Hfound. split.
        -- cbn [notifier waits_for]. split; [lia|]. intros Hik.
           apply elem_of_app. destruct (decide (i = k)) as [-> | Hne].
           ++ right. apply list_elem_of_singleton. reflexivity.
           ++ left. apply Hin. lia.
        -- cbn [websocks]. destruct (decide (i = k)) as [-> | Hne].
           ++ rewrite list_lookup_insert_eq by exact Hlt.
              assert (ws = e) by congruence. subst ws. eauto.
           ++ rewrite list_lookup_insert_ne by congruence. eauto.
      * split; [|eauto]. cbn [notifier waits_for]. split; [lia|]. intros Hik.
        destruct (decide (i = k)) as [-> | Hne]; [congruence|]. apply Hin. lia.
    + split; [|eauto]. cbn [notifier waits_for]. apply Hin.
      apply lookup_ge_None in Hk. lia.
  - rewrite Hn in Hw. cbn [waits_for] in Hw. unfold GhostNotify_wait in Hwait.
    destruct wait as [|k rest]; [apply elem_of_nil in Hw; contradiction|].
    destruct (websocks W !! k) as [ws|] eqn:Hk; [|discriminate].
    destruct (from_thread ws) eqn:Hfk; [|discriminate]. injection Hwait as <-.
    destruct (decide (i = k)) as [-> | Hne]; [congruence|].
    apply elem_of_cons in Hw. destruct Hw as [-> | Hw]; [contradiction|].
    split; [exact Hw|]. exists e. cbn [websocks].
    rewrite list_lookup_insert_ne by congruence. auto.
  - rewrite Hn in Hw. contradiction.
Qed.

(** The worker of a thread that has stopped does not change. *)
Lemma step_stopped_sock (i : nat) (W W' : World) (e : Entry) :
  step W W' -> websocks W !! i = Some e -> ended (phase (sock e)) = true ->
  exists e' : Entry, websocks W' !! i = Some e' /\ sock e' = sock e.
Proof.
  intros Hstep He Hp. pose proof (lookup_lt_Some _ _ _ He) as Hlt.
  destruct Hstep as [j r W | p W _ _ _ | W Hn | k found wait W Hn
                    | wait found W W' Hn Hwait | W Hn _ _].
  - destruct (decide (j = i)) as [-> | Hne].
    + rewrite (worker_step_stopped i r W e He Hp). eauto.
    + rewrite worker_step_other by congruence. eauto.
  - cbn [do_GET websocks]. rewrite lookup_app_l by exact Hlt. eauto.
  - unfold GhostNotify_enter. destruct (running W); eauto.
  - unfold GhostNotify_visit. destruct (websocks W !! k) as [ws|] eqn:Hk; [|eauto].
    destruct (valid (sock ws)); [|eauto]. destruct (truthy (found + 1)); [|eauto].
    cbn [websocks]. destruct (decide (i = k)) as [-> | Hne].
    + rewrite list_lookup_insert_eq by exact Hlt.
      assert (ws = e) by congruence. subst ws. eauto.
    + rewrite list_lookup_insert_ne by congruence. eauto.
  - unfold GhostNotify_wait in Hwait. destruct wait as [|k rest].
    + injection Hwait as <-. eauto.
    + destruct (websocks W !! k) as [ws|] eqn:Hk; [|discriminate].
      destruct (from_thread ws); [|discriminate]. injection Hwait as <-.
      cbn [websocks]. destruct (decide (i = k)) as [-> | Hne].
      * rewrite list_lookup_insert_eq by exact Hlt.
        assert (ws = e) by congruence. subst ws. eauto.
      * rewrite list_lookup_insert_ne by congruence. eauto.
  - eauto.
Qed.

Lemma reachable_stuck_on (i : nat) (sk : WebSocketServer) (W W' : World) :
  rtc step W W' ->
  stuck_on i W /\ (exists e, websocks W !! i = Some e /\ sock e = sk) ->
  stuck_on i W' /\ (exists e, websocks W' !! i = Some e /\ sock e = sk).
Proof.
  induction 1 as [|W1 W2 W3 Hstep _ IH]; [auto|].
  intros [Hst (e1 & He1 & Hs1)]. apply IH.
  split; [apply (step_stuck_on i W1 W2 Hstep Hst)|].
  destruct Hst as (_ & e2 & He2 & _ & Hp2 & _).
  assert (e2 = e1) by congruence. subst e2.
  destruct (step_stopped_sock i W1 W2 e1 Hstep He1 Hp2) as (e' & He' & Hs').
  exists e'. split; [exact He'|congruence].
Qed.

(** X11: a call of [GhostNotify] that finds a [valid] worker whose thread
    has stopped never returns.  When the server runs and the registry holds
    a [valid] worker that has left its loop, has died or hangs, with its
    [from_thread] event clear, then in every run that follows the entry of
    [GhostNotify] the call is still under way: it signals the worker and
    waits for an event that no thread is left to set. *)
Theorem X11_notify_waits_for_stopped_worker (W0 W : World) (i : nat) (e : Entry) :
  running W0 = true ->
  websocks W0 !! i = Some e ->
  valid (sock e) = true ->
  ended (phase (sock e)) = true ->
  from_thread e = false ->
  rtc step (GhostNotify_enter W0) W ->
  notifier W <> Idle /\
  exists e' : Entry, websocks W !! i = Some e' /\ from_thread e' = false /\
                     sock e' = sock e.
Proof.
  intros Hr He Hv Hp Hf Hrun.
  assert (H0 : stuck_on i (GhostNotify_enter W0) /\
               exists e', websocks (GhostNotify_enter W0) !! i = Some e' /\
                          sock e' = sock e).
  { unfold GhostNotify_enter. rewrite Hr. split; [|eauto].
    split; [cbn; split; [lia|lia]|]. exists e. auto. }
  destruct (reachable_stuck_on i (sock e) _ _ Hrun H0)
    as [(Hw & e1 & He1 & _ & _ & Hf1) (e2 & He2 & Hs2)].
  split; [intros Hn; rewrite Hn in Hw; exact Hw|].
  exists e1. assert (e2 = e1) by congruence. subst e2. auto.
Qed.

End WorldKeeps.

(** ** The example session, closed by GhostText *)



(** The example session after the empty object has killed its worker: the
    editor calls [GhostNotify]. *)
Lemma X10_leaked_lock_stays_witness :
  vim_lock world_leaked = true /\
  vim_lock (GhostNotify_enter world_leaked) = true /\
  buffer (w_vim (GhostNotify_enter world_leaked)) = buffer (w_vim world_leaked) /\
  done (GhostNotify_enter world_leaked) = done world_leaked /\
  running (GhostNotify_enter world_leaked) = running world_leaked /\
  length (websocks (GhostNotify_enter world_leaked)) = length (websocks world_leaked).
Proof.
  assert (Hl : vim_lock world_leaked = true) by (vm_compute; reflexivity).
  split; [exact Hl|].
  apply (X10_leaked_lock_stays (lib := AsciiLib.lib) world_leaked
           (GhostNotify_enter world_leaked)); [|exact Hl].
  apply rtc_once. apply step_notify_enter. vm_compute. reflexivity.
Defined.

(** The editor changes the buffer after GhostText has closed the
    connection of the example session. *)
Lemma X11_notify_waits_for_stopped_worker_witness :
  exists e : Entry,
    running world_closed = true /\
    websocks world_closed !! 0%nat = Some e /\
    valid (sock e) = true /\ ended (phase (sock e)) = true /\ from_thread e = false /\
    notifier world_notifying <> Idle.
Proof.
  destruct (websocks world_closed !! 0%nat) as [e|] eqn:He;
    [|vm_compute in He; discriminate].
  assert (Hr : running world_closed = true) by (vm_compute; reflexivity).
  assert (Hv : valid (sock e) = true)
    by (vm_compute in He; injection He as <-; reflexivity).
  assert (Hp : ended (phase (sock e)) = true)
    by (vm_compute in He; injection He as <-; reflexivity).
  assert (Hf : from_thread e = false)
    by (vm_compute in He; injection He as <-; reflexivity).
  exists e. split; [exact Hr|]. split; [reflexivity|]. split; [exact Hv|].
  split; [exact Hp|]. split; [exact Hf|].
  apply (X11_notify_waits_for_stopped_worker (lib := AsciiLib.lib) world_closed
           world_notifying 0 e Hr He Hv Hp Hf).
  unfold world_notifying.
  eapply rtc_l; [apply (step_notify_visit 0 0 []); vm_compute; reflexivity|].
  eapply rtc_l; [apply (step_notify_visit 1 1 [0%nat]); vm_compute; reflexivity|].
  apply rtc_refl.
Defined.

(** ** Texts from GhostText to the editor and back *)

Section UpdateFacts.
Context `{lib : PyLib}.

#[local] Arguments Frame.__init__ : simpl never.
#[local] Arguments utf8_decode : simpl never.
#[local] Arguments json_dumps : simpl never.
#[local] Arguments json_loads : simpl never.
#[local] Arguments header : simpl never.
#[local] Arguments byte_of_Z : simpl never.
#[local] Arguments split : simpl never.
#[local] Arguments join : simpl never.




End UpdateFacts.



(** ** The handshake and the last pass of the loop *)

Lemma string_append_assoc (a b c : string) :
  String.append (String.append a b) c = String.append a (String.append b c).
Proof. induction a as [|x a IH]; [reflexivity|]. cbn. rewrite IH. reflexivity. Qed.

Section PassFacts.
Context `{lib : PyLib}.

#[local] Arguments _get_accept : simpl never.
#[local] Arguments list_byte_of_string : simpl never.
#[local] Arguments string_of_list_byte : simpl never.
#[local] Arguments String.append : simpl never.
#[local] Arguments search_key : simpl never.
#[local] Arguments serve_exit : simpl never.

(** X14: the handshake either answers with the one fixed reply or ends the
    thread without a word.  On a first message that holds the key header
    the worker sends exactly one message, the status line and the three
    header lines of the reply, each ended by CRLF, and an empty line, with
    the accept value of the key, and enters its loop with the counter at 0.
    On a first message without the header the thread dies of the bare
    [raise]: nothing is sent and the accepted socket is left open. *)
Theorem X14_handshake_outcome (msg : list byte) (s : St) :
  let w := self s in
  (forall key : string,
     search_key (string_of_list_byte msg) = Some key ->
     serve_start (RecvData msg) s
     = set_self
         (mkWS (port w) (valid w) true
               (mkConn [list_byte_of_string (handshake_reply (_get_accept key))]
                       false [RecvBlocking])
               0 Looping) s) /\
  (search_key (string_of_list_byte msg) = None ->
   serve_start (RecvData msg) s
   = set_self
       (mkWS (port w) (valid w) true (mkConn [] false [RecvBlocking])
             (loop w) (Died TypeError)) s).
Proof.
  intros w. subst w. split.
  - intros key Hk. unfold serve_start, _handshake, mbind, M_bind, _recv, sendall.
    cbn. rewrite Hk. cbn. unfold handshake_reply. cbn [join].
    rewrite !string_append_assoc. reflexivity.
  - intros Hk. unfold serve_start, _handshake, mbind, M_bind, _recv, sendall.
    cbn. rewrite Hk. reflexivity.
Qed.

Lemma step_done (W W' : World) : step W W' -> done W = true -> done W' = true.
Proof.
  intros Hstep Hd.
  destruct Hstep as [i r W | p W _ _ _ | W _ | k found wait W Hn
                    | wait found W W' Hn Hw | W _ _ _]; try exact Hd; try reflexivity.
  - unfold worker_step. destruct (websocks W !! i) as [e|]; [|exact Hd].
    destruct (phase (sock e)); exact Hd.
  - unfold GhostNotify_enter. destruct (running W); exact Hd.
  - unfold GhostNotify_visit. destruct (websocks W !! k) as [ws|]; [|exact Hd].
    destruct (valid (sock ws)); [|exact Hd]. destruct (truthy (found + 1)); exact Hd.
  - unfold GhostNotify_wait in Hw. destruct wait as [|k rest].
    + injection Hw as <-. exact Hd.
    + destruct (websocks W !! k) as [ws|]; [|discriminate].
      destruct (from_thread ws); [|discriminate]. injection Hw as <-. exact Hd.
Qed.

Lemma reachable_done (W W' : World) : rtc step W W' -> done W = true -> done W' = true.
Proof.
  induction 1 as [|W1 W2 W3 Hstep _ IH]; [auto|].
  intros Hd. apply IH. apply (step_done W1 W2 Hstep Hd).
Qed.

(** The pass of the loop that finds [done] set. *)
Lemma done_run (r : RecvResult) (s : St) :
  _conn (self s) = true ->
  serve_iteration true r s
  = mkSt (mkWS (port (self s)) (valid (self s)) false
               (mkConn (sent (peer (self s)) ++ [CLOSE_FRAME]) true
                       (recv_calls (peer (self s))))
               (loop (self s)) Finished)
         (_to_thread s) (_from_thread s) (vim s) (_vim_lock s).
Proof.
  intros Hc. unfold serve_iteration, loop_body. cbn.
  rewrite serve_exit_run by exact Hc. reflexivity.
Qed.

(** X15: [GhostStop] ends every worker at its next pass.  In every world
    that follows [GhostStop], [done] is still set, and a worker in its loop
    that holds its connection leaves the loop at its next pass whatever the
    socket has for it: it receives nothing, sends one CLOSE frame, closes
    the socket and touches neither the editor nor its events. *)
Theorem X15_stop_ends_worker (W0 W : World) (i : nat) (e : Entry) (r : RecvResult) :
  rtc step (GhostStop W0) W ->
  websocks W !! i = Some e ->
  phase (sock e) = Looping ->
  _conn (sock e) = true ->
  done W = true /\
  worker_step i r W
  = mkWorld (w_vim W) (vim_lock W) true
      (<[i := mkEntry
               (mkWS (port (sock e)) (valid (sock e)) false
                     (mkConn (sent (peer (sock e)) ++ [CLOSE_FRAME]) true
                             (recv_calls (peer (sock e))))
                     (loop (sock e)) Finished)
               (to_thread e) (from_thread e)]> (websocks W))
      (notifier W) (running W).
Proof.
  intros Hrun He Hp Hc.
  assert (Hd : done W = true) by (apply (reachable_done _ _ Hrun); reflexivity).
  split; [exact Hd|].
  unfold worker_step. rewrite He, Hp, Hd.
  rewrite done_run by exact Hc. unfold commit. cbn. rewrite Hd. reflexivity.
Qed.

End PassFacts.

(** The first message of the example session, and one without the key. *)
Lemma X14_handshake_outcome_witness :
  serve_start (lib := AsciiLib.lib) (RecvData (list_byte_of_string example_request))
    (mkSt (mkWS 60001 false false (mkConn [] false []) 0 Accepting) false false
          example_vim false)
  = mkSt (mkWS 60001 false true
               (mkConn [list_byte_of_string (handshake_reply "s3pPLMBiTxaQ9kYGzzhZRbK+xOo=")]
                       false [RecvBlocking])
               0 Looping) false false example_vim false /\
  phase (self (serve_start (lib := AsciiLib.lib) (RecvData (list_byte_of_string "GET /"))
                 (mkSt (mkWS 60001 false false (mkConn [] false []) 0 Accepting)
                       false false example_vim false)))
  = Died TypeError.
Proof.
  split.
  - rewrite (proj1 (X14_handshake_outcome (lib := AsciiLib.lib)
                      (list_byte_of_string example_request) _)
               "dGhlIHNhbXBsZSBub25jZQ==" ltac:(vm_compute; reflexivity)).
    vm_compute. reflexivity.
  - rewrite (proj2 (X14_handshake_outcome (lib := AsciiLib.lib)
                      (list_byte_of_string "GET /") _) ltac:(vm_compute; reflexivity)).
    reflexivity.
Defined.

(** The example session, stopped by the editor. *)
Lemma X15_stop_ends_worker_witness :
  exists e : Entry,
    websocks (GhostStop world_active) !! 0%nat = Some e /\
    phase (sock e) = Looping /\ _conn (sock e) = true /\
    exists e' : Entry,
      websocks (worker_step (lib := AsciiLib.lib) 0 (RecvData example_text_frame)
                  (GhostStop world_active)) !! 0%nat = Some e' /\
      phase (sock e') = Finished /\
      sent (peer (sock e')) = sent (peer (sock e)) ++ [CLOSE_FRAME] /\
      recv_calls (peer (sock e')) = recv_calls (peer (sock e)).
Proof.
  destruct (websocks (GhostStop world_active) !! 0%nat) as [e|] eqn:He;
    [|vm_compute in He; discriminate].
  assert (Hp : phase (sock e) = Looping)
    by (vm_compute in He; injection He as <-; reflexivity).
  assert (Hc : _conn (sock e) = true)
    by (vm_compute in He; injection He as <-; reflexivity).
  exists e. split; [reflexivity|]. split; [exact Hp|]. split; [exact Hc|].
  destruct (X15_stop_ends_worker (lib := AsciiLib.lib) world_active (GhostStop world_active)
              0 e (RecvData example_text_frame) (rtc_refl _ _) He Hp Hc) as [_ Hrun].
  rewrite Hrun. cbn [websocks].
  rewrite list_lookup_insert_eq by (eapply lookup_lt_Some; exact He).
  eexists. split; [reflexivity|]. repeat split.
Defined.

(** ** The two loops of GhostNotify *)

Lemma signalled_length (l : list Entry) : length (signalled l) = length l.
Proof. apply length_map. Qed.

Lemma signalled_lookup (l : list Entry) (i : nat) (e : Entry) :
  l !! i = Some e -> valid (sock e) = true ->
  signalled l !! i = Some (mkEntry (sock e) true (from_thread e)).
Proof.
  intros He Hv. unfold signalled. rewrite list_lookup_fmap, He. cbn. rewrite Hv. reflexivity.
Qed.

Lemma signalled_none (l : list Entry) :
  forallb (fun e => negb (valid (sock e))) l = true ->
  signalled l = l /\ forall k, valid_indices k l = [].
Proof.
  induction l as [|e l IH]; [auto|]. cbn [forallb]. intros H.
  apply andb_true_iff in H. destruct H as [He Hl]. apply negb_true_iff in He.
  destruct (IH Hl) as [IH1 IH2]. unfold signalled in *. cbn [map valid_indices].
  rewrite He, IH1. split; [reflexivity|].
  intros k. apply IH2.
Qed.

(** The first loop of [GhostNotify] from index [length pre] on, when no
    other thread runs in between. *)
Lemma signal_loop_from (rest pre : list Entry) (found : Z) (wait : list nat)
    (v : Vim) (lk d r : bool) :
  0 <= found ->
  Nat.iter (S (length rest)) GhostNotify_step
    (mkWorld v lk d (pre ++ rest) (Signalling (length pre) found wait) r)
  = mkWorld v lk d (pre ++ signalled rest)
      (Waiting (wait ++ valid_indices (length pre) rest)
               (found + Z.of_nat (length (valid_indices (length pre) rest)))) r.
Proof.
  revert pre found wait. induction rest as [|e rest IH]; intros pre found wait Hf.
  - cbn [length signalled map valid_indices]. unfold Nat.iter. cbn [nat_rect].
    unfold GhostNotify_step, GhostNotify_visit. cbn [notifier websocks].
    rewrite app_nil_r, lookup_ge_None_2 by lia.
    cbn. rewrite app_nil_r, Z.add_0_r. reflexivity.
  - cbn [length]. rewrite Nat.iter_succ_r.
    assert (Hk : (pre ++ e :: rest) !! length pre = Some e)
      by (rewrite lookup_app_r by lia; rewrite Nat.sub_diag; reflexivity).
    unfold GhostNotify_step at 2. cbn [notifier]. unfold GhostNotify_visit.
    cbn [websocks w_vim vim_lock done running]. rewrite Hk.
    destruct (valid (sock e)) eqn:Hv.
    + rewrite truthy_succ by exact Hf.
      replace (<[length pre := mkEntry (sock e) true (from_thread e)]> (pre ++ e :: rest))
        with ((pre ++ [mkEntry (sock e) true (from_thread e)]) ++ rest).
      2:{ rewrite insert_app_r_alt by lia. rewrite Nat.sub_diag. cbn.
          rewrite <- app_assoc. reflexivity. }
      replace (S (length pre))
        with (length (pre ++ [mkEntry (sock e) true (from_thread e)]))
        by (rewrite length_app; cbn; lia).
      rewrite IH by lia. rewrite length_app. cbn [length valid_indices signalled map].
      rewrite Hv. replace (length pre + 1)%nat with (S (length pre)) by lia.
      rewrite <- !app_assoc. cbn [app length]. f_equal. f_equal. lia.
    + replace (pre ++ e :: rest) with ((pre ++ [e]) ++ rest)
        by (rewrite <- app_assoc; reflexivity).
      replace (S (length pre)) with (length (pre ++ [e]))
        by (rewrite length_app; cbn; lia).
      rewrite IH by lia. rewrite length_app. cbn [length valid_indices signalled map].
      rewrite Hv. replace (length pre + 1)%nat with (S (length pre)) by lia.
      rewrite <- !app_assoc. reflexivity.
Qed.

Lemma signal_loop (W : World) :
  running W = true ->
  Nat.iter (S (length (websocks W))) GhostNotify_step (GhostNotify_enter W)
  = mkWorld (w_vim W) (vim_lock W) (done W) (signalled (websocks W))
      (Waiting (valid_indices 0 (websocks W))
               (Z.of_nat (length (valid_indices 0 (websocks W))))) true.
Proof.
  intros Hr. unfold GhostNotify_enter. rewrite Hr.
  pose proof (signal_loop_from (websocks W) [] 0 [] (w_vim W) (vim_lock W) (done W) true
                ltac:(lia)) as H.
  cbn [app length] in H. exact H.
Qed.

(** X16: the first loop of [GhostNotify].  Run without another thread in
    between, a call on a running server visits the whole registry and leaves
    it with the [to_thread] event of every [valid] worker set, whatever its
    thread does, and every other element as it was; it then waits for the
    [valid] workers in registry order, [found] being their number.  When no
    worker is [valid] the call returns at once and has changed nothing. *)
Theorem X16_notify_signals_valid_workers (W : World) :
  running W = true ->
  Nat.iter (S (length (websocks W))) GhostNotify_step (GhostNotify_enter W)
  = mkWorld (w_vim W) (vim_lock W) (done W) (signalled (websocks W))
      (Waiting (valid_indices 0 (websocks W))
               (Z.of_nat (length (valid_indices 0 (websocks W))))) true /\
  (notifier W = Idle ->
   forallb (fun e => negb (valid (sock e))) (websocks W) = true ->
   Nat.iter (S (S (length (websocks W)))) GhostNotify_step (GhostNotify_enter W) = W).
Proof.
  intros Hr. split; [apply signal_loop, Hr|].
  intros Hn Hall.
  change (GhostNotify_step
            (Nat.iter (S (length (websocks W))) GhostNotify_step (GhostNotify_enter W)) = W).
  rewrite signal_loop by exact Hr.
  destruct (signalled_none _ Hall) as [Hs Hi]. rewrite Hs, Hi.
  destruct W as [v lk d l n r]. cbn in *. subst. reflexivity.
Qed.

Section PushFacts.
Context `{lib : PyLib}.

#[local] Arguments Frame.__init__ : simpl never.
#[local] Arguments utf8_decode : simpl never.
#[local] Arguments json_dumps : simpl never.
#[local] Arguments header : simpl never.
#[local] Arguments byte_of_Z : simpl never.
#[local] Arguments Z.add : simpl never.
#[local] Arguments Z.eqb : simpl never.
#[local] Arguments _update_from_vim : simpl never.
#[local] Arguments join : simpl never.

(** A pass of the loop of a signalled worker that has nothing to receive. *)
Lemma push_run (w : WebSocketServer) (ft : bool) (v : Vim) (dumped u : string) :
  _conn w = true -> valid w = true -> loop w <> 0 ->
  json_dumps (outbound (join newline (buffer v))) = Some dumped ->
  utf8_decode (list_byte_of_string dumped) = Some u ->
  serve_iteration false RecvNone (mkSt w true ft v false)
  = mkSt (mkWS (port w) true true
               (mkConn (sent (peer w)
                          ++ [map byte_of_Z
                                (header 1 Frame.TEXT 0
                                   (Z.of_nat (length (list_byte_of_string dumped))))
                                ++ list_byte_of_string dumped])
                       (conn_closed (peer w))
                       (recv_calls (peer w) ++ [RecvNonBlocking]))
               (loop w + 1) (phase w))
         false true v false.
Proof.
  intros Hc Hv Hl Hd Hu.
  unfold serve_iteration, loop_body, mbind, M_bind. cbn.
  destruct (Z.eqb_spec (loop w + 1) 1) as [E | _]; [lia|].
  unfold _recv. cbn. rewrite Hc. cbn.
  unfold set_to_thread, set_self. cbn [self _to_thread _from_thread vim _vim_lock].
  erewrite update_from_vim_run; [|exact Hc|exact Hd|exact Hu].
  cbn. rewrite Hv. cbn. unfold set_from_thread, set_peer, set_loop. cbn.
  rewrite ?Hc, ?Hv. reflexivity.
Qed.

(** X17: the push, from the change of the buffer to the frame.  On a
    running server whose lock is free, let worker [i] be the first [valid]
    worker of the registry, in its loop past the first pass, holding its
    connection, with its [from_thread] event clear.  [GhostNotify] runs its
    first loop, the worker runs one pass in which nothing arrives, and
    [GhostNotify] goes on: the worker has then sent exactly one message, the
    TEXT frame with the serialised text of the buffer, both events of the
    worker are clear again, and [GhostNotify] waits for the workers that are
    left. *)
Theorem X17_push_rendezvous (W : World) (i : nat) (e : Entry) (rest : list nat)
    (dumped u : string) :
  running W = true -> vim_lock W = false -> done W = false ->
  websocks W !! i = Some e ->
  valid_indices 0 (websocks W) = i :: rest ->
  valid (sock e) = true -> phase (sock e) = Looping -> _conn (sock e) = true ->
  loop (sock e) <> 0 -> from_thread e = false ->
  json_dumps (outbound (join newline (buffer (w_vim W)))) = Some dumped ->
  utf8_decode (list_byte_of_string dumped) = Some u ->
  let W1 := Nat.iter (S (length (websocks W))) GhostNotify_step (GhostNotify_enter W) in
  let w := sock e in
  GhostNotify_step (worker_step i RecvNone W1)
  = mkWorld (w_vim W) false false
      (<[i := mkEntry
               (mkWS (port w) true true
                     (mkConn (sent (peer w)
                                ++ [map byte_of_Z
                                      (header 1 Frame.TEXT 0
                                         (Z.of_nat (length (list_byte_of_string dumped))))
                                      ++ list_byte_of_string dumped])
                             (conn_closed (peer w))
                             (recv_calls (peer w) ++ [RecvNonBlocking]))
                     (loop w + 1) Looping)
               false false]> (signalled (websocks W)))
      (Waiting rest (Z.of_nat (S (length rest)))) true.
Proof.
  intros Hr Hlk Hdn He Hvi Hv Hp Hc Hl Hf Hd Hu W1 w. subst W1 w.
  rewrite signal_loop by exact Hr. rewrite Hvi, Hlk, Hdn.
  pose proof (signalled_lookup _ _ _ He Hv) as Hs.
  pose proof (lookup_lt_Some _ _ _ Hs) as Hlt.
  unfold worker_step. cbn [websocks done]. rewrite Hs. cbn [sock]. rewrite Hp.
  unfold view. cbn [sock to_thread from_thread w_vim vim_lock]. rewrite Hf.
  rewrite (push_run (sock e) false (w_vim W) dumped u Hc Hv Hl Hd Hu).
  unfold commit. cbn [vim _vim_lock self _to_thread _from_thread done websocks notifier running].
  unfold GhostNotify_step. cbn [notifier]. unfold GhostNotify_wait. cbn [websocks].
  rewrite list_lookup_insert_eq by exact Hlt. cbn [from_thread sock to_thread].
  rewrite list_insert_insert_eq. rewrite Hp. cbn [length]. reflexivity.
Qed.

End PushFacts.

(** The example session: one [valid] worker, which is signalled. *)
Lemma X16_notify_signals_valid_workers_witness :
  running world_active = true /\
  notifier (Nat.iter (S (length (websocks world_active))) GhostNotify_step
              (GhostNotify_enter world_active))
  = Waiting [0%nat] 1.
Proof.
  assert (Hr : running world_active = true) by (vm_compute; reflexivity).
  split; [exact Hr|].
  rewrite (proj1 (X16_notify_signals_valid_workers world_active Hr)).
  cbn [notifier]. vm_compute. reflexivity.
Defined.

(** The example session: the editor changes the buffer and the worker
    pushes the text [hi]. *)
Lemma X17_push_rendezvous_witness :
  exists (e : Entry) (dumped : string),
    websocks world_active !! 0%nat = Some e /\
    @json_dumps AsciiLib.lib (outbound (join newline (buffer (w_vim world_active))))
    = Some dumped /\
    notifier
      (GhostNotify_step
         (worker_step (lib := AsciiLib.lib) 0 RecvNone
            (Nat.iter (S (length (websocks world_active))) GhostNotify_step
               (GhostNotify_enter world_active))))
    = Waiting [] 1.
Proof.
  destruct (websocks world_active !! 0%nat) as [e|] eqn:He;
    [|vm_compute in He; discriminate].
  destruct (@json_dumps AsciiLib.lib
              (outbound (join newline (buffer (w_vim world_active)))))
    as [dumped|] eqn:Hd; [|vm_compute in Hd; discriminate].
  destruct (@utf8_decode AsciiLib.lib (list_byte_of_string dumped)) as [u|] eqn:Hu;
    [|vm_compute in Hd; injection Hd as <-; vm_compute in Hu; discriminate].
  assert (Hr : running world_active = true) by (vm_compute; reflexivity).
  assert (Hlk : vim_lock world_active = false) by (vm_compute; reflexivity).
  assert (Hdn : done world_active = false) by (vm_compute; reflexivity).
  assert (Hvi : valid_indices 0 (websocks world_active) = [0%nat])
    by (vm_compute; reflexivity).
  assert (Hv : valid (sock e) = true)
    by (vm_compute in He; injection He as <-; reflexivity).
  assert (Hp : phase (sock e) = Looping)
    by (vm_compute in He; injection He as <-; reflexivity).
  assert (Hc : _conn (sock e) = true)
    by (vm_compute in He; injection He as <-; reflexivity).
  assert (Hl : loop (sock e) <> 0)
    by (vm_compute in He; injection He as <-; discriminate).
  assert (Hf : from_thread e = false)
    by (vm_compute in He; injection He as <-; reflexivity).
  exists e, dumped. split; [reflexivity|]. split; [reflexivity|].
  rewrite (X17_push_rendezvous (lib := AsciiLib.lib) world_active 0 e [] dumped u
             Hr Hlk Hdn He Hvi Hv Hp Hc Hl Hf Hd Hu).
  reflexivity.
Defined.

(** ** The shape of the accept value *)

Lemma sha1_length (msg : list byte) : length (hashlib.sha1 msg) = 20%nat.
Proof.
  unfold hashlib.sha1. cbv zeta.
  destruct (fold_left hashlib.compress _ hashlib.init) as [[[[h0 h1] h2] h3] h4].
  rewrite length_map. cbn [flat_map]. rewrite !length_app, !be_bytes_length. reflexivity.
Qed.

Lemma digit_not_pad (z : Z) : base64.digit z <> "="%char.
Proof.
  unfold base64.digit.
  assert (Hn : (Z.to_nat (Z.land z 0x3f) < 64)%nat).
  { change 0x3f with (Z.ones 6). rewrite Z.land_ones by lia.
    pose proof (Z.mod_pos_bound z (2 ^ 6) ltac:(lia)). lia. }
  revert Hn. generalize (Z.to_nat (Z.land z 0x3f)). intros n Hn.
  do 64 (destruct n as [|n]; [cbn; discriminate|]). lia.
Qed.

(** X18: the accept value of the handshake has the shape of the base64
    text of twenty bytes, whatever the key: the digest it encodes has 20
    bytes, the value is 28 characters long, its last character is the
    padding [=] and no character before it is. *)
Theorem X18_accept_shape (key : string) :
  length (hashlib.sha1 (list_byte_of_string (String.append key GUID))) = 20%nat /\
  String.length (_get_accept key) = 28%nat /\
  String.get 27 (_get_accept key) = Some "="%char /\
  forall i : nat, (i < 27)%nat -> String.get i (_get_accept key) <> Some "="%char.
Proof.
  split; [apply sha1_length|].
  unfold _get_accept. cbv zeta.
  pose proof (sha1_length (list_byte_of_string (String.append key GUID))) as Hl.
  destruct (hashlib.sha1 (list_byte_of_string (String.append key GUID))) as [|x l];
    [discriminate|].
  do 19 (destruct l as [|? l]; [discriminate|]).
  destruct l; [|discriminate].
  cbn [base64.b64encode]. split; [reflexivity|]. split; [reflexivity|].
  cbv zeta. intros i Hi.
  do 27 (destruct i as [|i];
         [cbn [String.get]; intros H; injection H as H; exact (digit_not_pad _ H)|]).
  lia.
Qed.

(** ** The receive functions *)

Lemma recv_timeout_loop_shorter (ticks : nat) (msg prev : option (list byte))
    (reads : list Socket.Read) :
  (length (snd (Socket.recv_timeout_loop ticks msg prev reads)) <= length reads)%nat.
Proof.
  revert msg prev reads. induction ticks as [|t IH]; intros msg prev reads; [cbn; lia|].
  cbn [Socket.recv_timeout_loop].
  destruct reads as [|[[|b bs]| |] reads']; cbn [tail].
  - destruct (Socket.nonempty prev); [cbn; lia|]. apply (IH msg prev []).
  - destruct (Socket.nonempty prev); [cbn; lia|]. specialize (IH msg prev reads'). cbn. lia.
  - cbv zeta. match goal with |- context [Socket.recv_timeout_loop t ?m ?p reads'] =>
      specialize (IH m p reads') end. cbn [length]. lia.
  - destruct (Socket.nonempty prev); [cbn; lia|]. specialize (IH msg prev reads'). cbn. lia.
  - cbn. lia.
Qed.

Lemma recv_timeout_loop_takes (ticks : nat) (prev : option (list byte))
    (reads out : list Socket.Read) (string : list byte) :
  Socket.recv_timeout_loop ticks None prev reads = (Socket.Returned (Some string), out) ->
  (length out < length reads)%nat.
Proof.
  revert prev reads. induction ticks as [|t IH]; intros prev reads; [discriminate|].
  cbn [Socket.recv_timeout_loop].
  destruct reads as [|[[|b bs]| |] reads']; cbn [tail]; try discriminate.
  - destruct (Socket.nonempty prev); [discriminate|]. intros H. apply IH in H. cbn in H. lia.
  - destruct (Socket.nonempty prev); [discriminate|]. intros H. apply IH in H. cbn. lia.
  - cbv zeta. intros H.
    match type of H with Socket.recv_timeout_loop t ?m ?p _ = _ =>
      pose proof (recv_timeout_loop_shorter t m p reads') as Hs end.
    rewrite H in Hs. cbn in *. lia.
  - destruct (Socket.nonempty prev); [discriminate|]. intros H. apply IH in H. cbn. lia.
Qed.

(** What one read of [_recv] leaves of the socket. *)
Lemma recv_read_takes (timeout : option nat) (block : bool) (msg : option (list byte))
    (reads : list Socket.Read) :
  match Socket.recv_read timeout block msg reads with
  | (inl _, reads') => (length reads' <= length reads)%nat
  | (inr _, reads') => (length reads' < length reads)%nat
  end.
Proof.
  unfold Socket.recv_read. destruct timeout as [ticks|].
  - unfold Socket._recv_timeout.
    pose proof (recv_timeout_loop_shorter ticks None None reads) as Hs.
    pose proof (recv_timeout_loop_takes ticks None reads) as Ht.
    destruct (Socket.recv_timeout_loop ticks None None reads) as [[[string|]| |] reads'];
      cbn in *; try lia. apply (Ht reads' string). reflexivity.
  - destruct block; cbn [negb].
    + destruct reads as [|[bs| |] reads']; cbn; lia.
    + destruct reads as [|[[|b bs]| |] reads']; cbn; lia.
Qed.

Lemma recv_loop_returns (fuel buf_len : nat) (timeout : option nat) (block : bool)
    (msg : option (list byte)) (reads : list Socket.Read) :
  (length reads < fuel)%nat ->
  exists (r : Socket.Result) (rest : list Socket.Read),
    Socket.recv_loop fuel buf_len timeout block msg reads = Some (r, rest) /\
    (length rest <= length reads)%nat.
Proof.
  revert msg reads. induction fuel as [|fuel IH]; intros msg reads Hf; [lia|].
  cbn [Socket.recv_loop]. pose proof (recv_read_takes timeout block msg reads) as Ht.
  destruct (Socket.recv_read timeout block msg reads) as [[end_|string] reads'].
  - eauto.
  - cbv zeta. destruct (length string <? buf_len)%nat.
    + eexists _, _. split; [reflexivity|lia].
    + match goal with |- context [Socket.recv_loop fuel _ _ _ ?m reads'] =>
        destruct (IH m reads' ltac:(lia)) as (r & rest & -> & Hl) end.
      eexists _, _. split; [reflexivity|lia].
Qed.

(** X19: [_recv] comes to an end on every socket, in each of its three
    modes.  Every pass of its loop that goes round again has taken a read
    from the socket, so the loop ends within one pass more than there are
    reads: it returns, raises or waits in a blocking read, and what it
    leaves of the socket is no longer than what it found. *)
Theorem X19_recv_ends (buf_len : nat) (timeout : option nat) (block : bool)
    (reads : list Socket.Read) :
  exists (r : Socket.Result) (rest : list Socket.Read),
    Socket._recv buf_len timeout block reads = Some (r, rest) /\
    (length rest <= length reads)%nat.
Proof.
  unfold Socket._recv. apply recv_loop_returns. lia.
Qed.

Lemma idle_read (reads : list Socket.Read) (msg : option (list byte)) :
  Socket.idle reads = true ->
  Socket.recv_read None false msg reads = (inl (Socket.Returned None), tail reads).
Proof.
  unfold Socket.recv_read. cbn [negb]. destruct reads as [|[[|b bs]| |] reads']; try discriminate;
    reflexivity.
Qed.

(** The loop of a non-blocking [_recv] over chunks that fill the buffer. *)
Lemma nonblocking_loop (full : list (list byte)) (buf_len fuel : nat)
    (msg : option (list byte)) (rest : list Socket.Read) :
  (0 < buf_len)%nat ->
  Forall (fun c => (buf_len <= length c)%nat) full ->
  (length full < fuel)%nat ->
  (forall last : list byte, forall rest' : list Socket.Read,
     rest = Socket.Chunk last :: rest' -> (0 < length last < buf_len)%nat ->
     Socket.recv_loop fuel buf_len None false msg (map Socket.Chunk full ++ rest)
     = Some (Socket.Returned (Some (gathered msg ++ concat full ++ last)), rest')) /\
  (Socket.idle rest = true ->
   Socket.recv_loop fuel buf_len None false msg (map Socket.Chunk full ++ rest)
   = Some (Socket.Returned None, tail rest)).
Proof.
  intros Hb Hfull. revert fuel msg.
  induction Hfull as [|c full Hc _ IH]; intros fuel msg Hfuel.
  - destruct fuel as [|fuel]; [cbn in Hfuel; lia|]. cbn [map app concat]. split.
    + intros last rest' -> Hl. cbn [Socket.recv_loop Socket.recv_read negb].
      destruct last as [|b bs]; [cbn in Hl; lia|]. cbv zeta.
      destruct (Nat.ltb_spec (length (b :: bs)) buf_len); [|lia].
      destruct msg; reflexivity.
    + intros Hi. cbn [Socket.recv_loop]. rewrite idle_read by exact Hi. reflexivity.
  - destruct fuel as [|fuel]; [cbn in Hfuel; lia|]. cbn [length] in Hfuel.
    assert (Hstep : forall out,
              Socket.recv_loop fuel buf_len None false (Some (gathered msg ++ c))
                (map Socket.Chunk full ++ rest) = out ->
              Socket.recv_loop (S fuel) buf_len None false msg (map Socket.Chunk (c :: full) ++ rest) = out).
    { intros out <-. cbn [map app Socket.recv_loop Socket.recv_read negb].
      destruct c as [|b bs]; [cbn in Hc; lia|]. cbv zeta.
      destruct (Nat.ltb_spec (length (b :: bs)) buf_len); [lia|].
      destruct msg; reflexivity. }
    destruct (IH fuel (Some (gathered msg ++ c)) ltac:(lia)) as [IHa IHb]. split.
    + intros last rest' Hr Hl. apply Hstep. rewrite (IHa last rest' Hr Hl).
      cbn [gathered concat]. rewrite <- !app_assoc. reflexivity.
    + intros Hi. apply Hstep. apply IHb, Hi.
Qed.

(** X20: the non-blocking [_recv] of the loop.  When the socket yields
    chunks that fill the buffer and then a shorter chunk that is not empty,
    the call returns all of them joined.  When the chunks that fill the
    buffer are followed by nothing (the socket has no more, or yields an
    empty string), the call returns [None]: it has taken the chunks from the
    socket and dropped them, so a message whose length is a multiple of
    [buf_len] never reaches the loop. *)
Theorem X20_recv_nonblocking (buf_len : nat) (full : list (list byte)) (rest : list Socket.Read) :
  (0 < buf_len)%nat ->
  Forall (fun c => (buf_len <= length c)%nat) full ->
  (forall last : list byte, forall rest' : list Socket.Read,
     rest = Socket.Chunk last :: rest' -> (0 < length last < buf_len)%nat ->
     Socket._recv buf_len None false (map Socket.Chunk full ++ rest)
     = Some (Socket.Returned (Some (concat full ++ last)), rest')) /\
  (Socket.idle rest = true ->
   Socket._recv buf_len None false (map Socket.Chunk full ++ rest) = Some (Socket.Returned None, tail rest)).
Proof.
  intros Hb Hfull. unfold Socket._recv.
  apply (nonblocking_loop full buf_len _ None rest Hb Hfull).
  rewrite length_app, length_map. lia.
Qed.

(** A message of four bytes read through a buffer of four bytes is dropped;
    one of five bytes is returned. *)
Lemma X20_recv_nonblocking_witness :
  Socket._recv 4 None false [Socket.Chunk [x61; x62; x63; x64]; Socket.WouldBlock] = Some (Socket.Returned None, []) /\
  Socket._recv 4 None false [Socket.Chunk [x61; x62; x63; x64]; Socket.Chunk [x65]; Socket.WouldBlock]
  = Some (Socket.Returned (Some [x61; x62; x63; x64; x65]), [Socket.WouldBlock]).
Proof.
  assert (Hf : Forall (fun c : list byte => (4 <= length c)%nat) [[x61; x62; x63; x64]])
    by (repeat constructor).
  split.
  - exact (proj2 (X20_recv_nonblocking 4 [[x61; x62; x63; x64]] [Socket.WouldBlock]
                    ltac:(lia) Hf) eq_refl).
  - exact (proj1 (X20_recv_nonblocking 4 [[x61; x62; x63; x64]] [Socket.Chunk [x65]; Socket.WouldBlock]
                    ltac:(lia) Hf) [x65] [Socket.WouldBlock] eq_refl ltac:(cbn; lia)).
Defined.

(** The loop of a blocking [_recv]. *)
Lemma blocking_loop (full : list (list byte)) (buf_len fuel : nat)
    (msg : option (list byte)) :
  Forall (fun c => (buf_len <= length c)%nat) full ->
  (length full < fuel)%nat ->
  (forall (last : list byte) (rest : list Socket.Read),
     (length last < buf_len)%nat ->
     Socket.recv_loop fuel buf_len None true msg (map Socket.Chunk full ++ Socket.Chunk last :: rest)
     = Some (Socket.Returned (Some (gathered msg ++ concat full ++ last)), rest)) /\
  Socket.recv_loop fuel buf_len None true msg (map Socket.Chunk full) = Some (Socket.Hangs, []).
Proof.
  intros Hfull. revert fuel msg.
  induction Hfull as [|c full Hc _ IH]; intros fuel msg Hfuel.
  - destruct fuel as [|fuel]; [cbn in Hfuel; lia|]. cbn [map app concat]. split.
    + intros last rest Hl. cbn [Socket.recv_loop Socket.recv_read negb]. cbv zeta.
      destruct (Nat.ltb_spec (length last) buf_len); [|lia].
      destruct msg; reflexivity.
    + reflexivity.
  - destruct fuel as [|fuel]; [cbn in Hfuel; lia|]. cbn [length] in Hfuel.
    destruct (IH fuel (Some (gathered msg ++ c)) ltac:(lia)) as [IHa IHb]. split.
    + intros last rest Hl. cbn [map app Socket.recv_loop Socket.recv_read negb]. cbv zeta.
      destruct (Nat.ltb_spec (length c) buf_len); [lia|].
      replace (match msg with Some m => m ++ c | None => c end) with (gathered msg ++ c)
        by (destruct msg; reflexivity).
      rewrite (IHa last rest Hl). cbn [gathered concat]. rewrite <- !app_assoc. reflexivity.
    + cbn [map Socket.recv_loop Socket.recv_read negb]. cbv zeta.
      destruct (Nat.ltb_spec (length c) buf_len); [lia|].
      replace (match msg with Some m => m ++ c | None => c end) with (gathered msg ++ c)
        by (destruct msg; reflexivity).
      exact IHb.
Qed.

Lemma blocking_loop_some (fuel buf_len : nat) (msg : option (list byte))
    (reads rest : list Socket.Read) (out : option (list byte)) :
  Socket.recv_loop fuel buf_len None true msg reads = Some (Socket.Returned out, rest) ->
  out <> None.
Proof.
  revert msg reads. induction fuel as [|fuel IH]; intros msg reads; [discriminate|].
  cbn [Socket.recv_loop Socket.recv_read negb].
  destruct reads as [|[bs| |] reads']; try discriminate.
  cbv zeta. destruct (length bs <? buf_len)%nat.
  - intros H. injection H as <- _. discriminate.
  - apply IH.
Qed.

(** X21: the blocking [_recv] of the handshake.  It returns the chunks up
    to the first one that does not fill the buffer, joined, an empty chunk
    (the peer has closed) included; it never returns [None]; and when every
    chunk the socket has fills the buffer it waits for more. *)
Theorem X21_recv_blocking (buf_len : nat) (full : list (list byte)) :
  Forall (fun c => (buf_len <= length c)%nat) full ->
  (forall (last : list byte) (rest : list Socket.Read),
     (length last < buf_len)%nat ->
     Socket._recv buf_len None true (map Socket.Chunk full ++ Socket.Chunk last :: rest)
     = Some (Socket.Returned (Some (concat full ++ last)), rest)) /\
  Socket._recv buf_len None true (map Socket.Chunk full) = Some (Socket.Hangs, []) /\
  (forall (reads rest : list Socket.Read) (out : option (list byte)),
     Socket._recv buf_len None true reads = Some (Socket.Returned out, rest) -> out <> None).
Proof.
  intros Hfull. split; [|split].
  - intros last rest Hl. unfold Socket._recv.
    apply (blocking_loop full buf_len _ None Hfull); [|exact Hl].
    rewrite length_app, length_map. cbn. lia.
  - unfold Socket._recv. apply (blocking_loop full buf_len _ None Hfull).
    rewrite length_map. lia.
  - intros reads rest out. unfold Socket._recv. apply blocking_loop_some.
Qed.

(** A request of five bytes read through a buffer of four, and a peer that
    closes at once. *)
Lemma X21_recv_blocking_witness :
  Socket._recv 4 None true [Socket.Chunk [x61; x62; x63; x64]; Socket.Chunk [x65]]
  = Some (Socket.Returned (Some [x61; x62; x63; x64; x65]), []) /\
  Socket._recv 4 None true [Socket.Chunk []] = Some (Socket.Returned (Some []), []) /\
  Socket._recv 4 None true [Socket.Chunk [x61; x62; x63; x64]] = Some (Socket.Hangs, []).
Proof.
  assert (Hf : Forall (fun c : list byte => (4 <= length c)%nat) [[x61; x62; x63; x64]])
    by (repeat constructor).
  split; [|split].
  - exact (proj1 (X21_recv_blocking 4 [[x61; x62; x63; x64]] Hf) [x65] []
             ltac:(cbn; lia)).
  - exact (proj1 (X21_recv_blocking 4 [] (Forall_nil_2 _)) [] [] ltac:(cbn; lia)).
  - exact (proj1 (proj2 (X21_recv_blocking 4 [[x61; x62; x63; x64]] Hf))).
Defined.

Lemma timeout_quiet (q : list Socket.Read) (t : nat) (msg : option (list byte))
    (rest : list Socket.Read) :
  Forall (fun r => Socket.quiet r = true) q ->
  Socket.recv_timeout_loop (length q + t) msg None (q ++ rest)
  = Socket.recv_timeout_loop t msg None rest.
Proof.
  induction 1 as [|r q Hr _ IH]; [reflexivity|].
  cbn [length Nat.add app Socket.recv_timeout_loop].
  destruct r as [[|b bs]| |]; try discriminate; cbn [Socket.nonempty tail]; exact IH.
Qed.

Lemma timeout_burst (burst : list (list byte)) (t : nat) (m p : list byte)
    (rest : list Socket.Read) :
  Forall (fun c => c <> []) burst ->
  Socket.nonempty (Some p) = true ->
  exists p' : list byte,
    Socket.nonempty (Some p') = true /\
    Socket.recv_timeout_loop (length burst + t) (Some m) (Some p) (map Socket.Chunk burst ++ rest)
    = Socket.recv_timeout_loop t (Some (m ++ concat burst)) (Some p') rest.
Proof.
  intros Hb. revert m p. induction Hb as [|c burst Hc _ IH]; intros m p Hp.
  - exists p. split; [exact Hp|]. cbn. rewrite app_nil_r. reflexivity.
  - destruct c as [|b bs]; [contradiction|].
    destruct (IH (m ++ b :: bs) (b :: bs) eq_refl) as (p' & Hp' & Hrun).
    exists p'. split; [exact Hp'|].
    cbn [length Nat.add map app Socket.recv_timeout_loop]. cbv zeta.
    rewrite Hrun. cbn [concat]. rewrite <- app_assoc. reflexivity.
Qed.

Lemma timeout_pause (t : nat) (msg : option (list byte)) (p : list byte)
    (rest : list Socket.Read) :
  Socket.nonempty (Some p) = true -> Socket.idle rest = true ->
  Socket.recv_timeout_loop (S t) msg (Some p) rest = (Socket.Returned msg, tail rest).
Proof.
  intros Hp Hi. cbn [Socket.recv_timeout_loop].
  destruct rest as [|[[|b bs]| |] rest']; try discriminate; rewrite Hp; reflexivity.
Qed.

(** What [_recv_timeout] has gathered when the first burst of chunks is
    over: [ticks] passes are left. *)
Lemma timeout_gathered (q : list Socket.Read) (burst : list (list byte)) (t : nat)
    (rest : list Socket.Read) :
  Forall (fun r => Socket.quiet r = true) q ->
  Forall (fun c => c <> []) burst -> burst <> [] ->
  exists p : list byte,
    Socket.nonempty (Some p) = true /\
    Socket._recv_timeout (length q + length burst + t) (q ++ map Socket.Chunk burst ++ rest)
    = Socket.recv_timeout_loop t (Some (concat burst)) (Some p) rest.
Proof.
  intros Hq Hb Hne. unfold Socket._recv_timeout.
  rewrite <- Nat.add_assoc, (timeout_quiet q _ None _ Hq).
  destruct burst as [|c burst]; [contradiction|].
  apply Forall_cons in Hb. destruct Hb as [Hc Hb].
  destruct c as [|b bs]; [contradiction|].
  destruct (timeout_burst burst t (b :: bs) (b :: bs) rest Hb eq_refl) as (p & Hp & Hrun).
  exists p. split; [exact Hp|].
  cbn [length Nat.add map app Socket.recv_timeout_loop]. cbv zeta.
  rewrite Hrun. reflexivity.
Qed.

(** X22: the receive of the first pass and its deadline.  Let the socket
    yield reads that bring nothing and then a burst of chunks that are not
    empty.  When the burst is followed by a read that brings nothing while
    passes are left, [_recv_timeout] returns the burst, joined, and so does
    [_recv(timeout=...)] when the burst is shorter than [buf_len].  When the
    deadline test holds right after the last chunk of the burst, both return
    [None]: the bytes were taken from the socket and are dropped, and the
    loop of [serve_forever] takes the worker for one that received nothing. *)
Theorem X22_recv_deadline (ticks buf_len : nat) (block : bool) (q : list Socket.Read)
    (burst : list (list byte)) (rest : list Socket.Read) :
  Forall (fun r => Socket.quiet r = true) q ->
  Forall (fun c => c <> []) burst -> burst <> [] ->
  let reads := q ++ map Socket.Chunk burst ++ rest in
  ((length q + length burst < ticks)%nat -> Socket.idle rest = true ->
   Socket._recv_timeout ticks reads
   = (Socket.Returned (Some (concat burst)), tail rest) /\
   ((length (concat burst) < buf_len)%nat ->
    Socket._recv buf_len (Some ticks) block reads
    = Some (Socket.Returned (Some (concat burst)), tail rest))) /\
  ((length q + length burst)%nat = ticks ->
   Socket._recv_timeout ticks reads = (Socket.Returned None, rest) /\
   Socket._recv buf_len (Some ticks) block reads = Some (Socket.Returned None, rest)).
Proof.
  intros Hq Hb Hne reads. subst reads. split.
  - intros Ht Hi.
    destruct (timeout_gathered q burst (S (ticks - S (length q + length burst))) rest
                Hq Hb Hne) as (p & Hp & Hrun).
    replace (length q + length burst + S (ticks - S (length q + length burst)))%nat
      with ticks in Hrun by lia.
    rewrite (timeout_pause _ _ p rest Hp Hi) in Hrun.
    split; [exact Hrun|].
    intros Hl. unfold Socket._recv. cbn [Socket.recv_loop]. unfold Socket.recv_read.
    rewrite Hrun. cbv zeta. destruct (Nat.ltb_spec (length (concat burst)) buf_len); [|lia].
    reflexivity.
  - intros <-.
    destruct (timeout_gathered q burst 0 rest Hq Hb Hne) as (p & Hp & Hrun).
    rewrite Nat.add_0_r in Hrun. cbn [Socket.recv_timeout_loop] in Hrun.
    split; [exact Hrun|].
    unfold Socket._recv. cbn [Socket.recv_loop]. unfold Socket.recv_read.
    rewrite Hrun. reflexivity.
Qed.

(** Two chunks and a pause before the deadline, and the same two chunks
    when the deadline comes first. *)
Lemma X22_recv_deadline_witness :
  Socket._recv 4096 (Some 5%nat) true
    [Socket.WouldBlock; Socket.Chunk [x81; x01]; Socket.Chunk [x61]; Socket.WouldBlock]
  = Some (Socket.Returned (Some [x81; x01; x61]), []) /\
  Socket._recv 4096 (Some 3%nat) true
    [Socket.WouldBlock; Socket.Chunk [x81; x01]; Socket.Chunk [x61]; Socket.WouldBlock]
  = Some (Socket.Returned None, [Socket.WouldBlock]).
Proof.
  assert (Hq : Forall (fun r => Socket.quiet r = true) [Socket.WouldBlock])
    by (repeat constructor).
  assert (Hb : Forall (fun c : list byte => c <> []) [[x81; x01]; [x61]])
    by (repeat constructor; discriminate).
  assert (Hne : [[x81; x01]; [x61]] <> []) by discriminate.
  split.
  - exact (proj2 (proj1 (X22_recv_deadline 5 4096 true [Socket.WouldBlock]
                           [[x81; x01]; [x61]] [Socket.WouldBlock] Hq Hb Hne)
                    ltac:(cbn; lia) eq_refl) ltac:(cbn; lia)).
  - exact (proj2 (proj2 (X22_recv_deadline 3 4096 true [Socket.WouldBlock]
                           [[x81; x01]; [x61]] [Socket.WouldBlock] Hq Hb Hne)
                    eq_refl)).
Defined.
